(** * build_page.py: content loader and page renderer

    A shallow embedding of [build_page.py], the script that reads the text
    files of a content directory and writes one HTML page, together with
    the properties of its loader and of its inline-markup renderer.

    Python strings are sequences of Unicode code points: a character is
    the code point as an [N], a [str] is a list of them.  File contents
    are lists of bytes, also as [N] below 256. *)

From Stdlib Require Import Ascii String DecimalString DecimalFacts DecimalN.
From Stdlib Require Import List NArith Bool Arith Lia.
From Stdlib Require Import Sorting.Permutation Sorting.Sorted.
Import ListNotations.

(** ** Strings *)

Definition char := N.
Definition str := list char.
Definition bytes := list N.

(** ASCII text of the source as a [str]. *)
Definition lit (s : string) : str :=
  List.map N_of_ascii (list_ascii_of_string s).

(** The double quote (U+0022), and the source's HTML fragments: in them a
    backquote, which the script never uses, stands for the double quote. *)
Definition dq : char := 34%N.

Definition html (s : string) : str :=
  List.map (fun c => if N.eqb c 96 then dq else c) (lit s).

Definition ch (a : ascii) : char := N_of_ascii a.

Fixpoint str_eqb (a b : str) : bool :=
  match a, b with
  | [], [] => true
  | x :: a', y :: b' => N.eqb x y && str_eqb a' b'
  | _, _ => false
  end.

(** [s.startswith(p)] *)
Fixpoint startswith (p s : str) : bool :=
  match p, s with
  | [], _ => true
  | x :: p', y :: s' => N.eqb x y && startswith p' s'
  | _ :: _, [] => false
  end.

(** [s.endswith(p)] *)
Definition endswith (p s : str) : bool :=
  startswith (rev p) (rev s).

(** [s.find(sub)]: the index of the first occurrence, [None] for -1. *)
Fixpoint find (sub s : str) : option nat :=
  if startswith sub s then Some 0
  else match s with
       | [] => None
       | _ :: r => option_map S (find sub r)
       end.

(** [sub in s] *)
Definition contains (sub s : str) : bool :=
  match find sub s with Some _ => true | None => false end.

(** The longest prefix whose characters satisfy [p], and the rest: what a
    greedy character class of a regular expression consumes. *)
Fixpoint span (p : char -> bool) (s : str) : str * str :=
  match s with
  | [] => ([], [])
  | c :: r => if p c then let (a, b) := span p r in (c :: a, b) else ([], s)
  end.

(** The class [[^x]] of a pattern. *)
Definition not_char (x : char) : char -> bool := fun c => negb (N.eqb c x).

(** [str.isspace] of one character, which is also the class [\s] of a
    Unicode pattern. *)
Definition is_space (c : char) : bool :=
  ((9 <=? c) && (c <=? 13) || (28 <=? c) && (c <=? 32)
   || (c =? 133) || (c =? 160) || (c =? 5760)
   || (8192 <=? c) && (c <=? 8202)
   || (c =? 8232) || (c =? 8233) || (c =? 8239) || (c =? 8287)
   || (c =? 12288))%N.

Fixpoint lstrip (s : str) : str :=
  match s with
  | c :: r => if is_space c then lstrip r else s
  | [] => []
  end.

Definition rstrip (s : str) : str := rev (lstrip (rev s)).

(** [s.strip()] *)
Definition strip (s : str) : str := rstrip (lstrip s).

(** ** Escaping *)

(** [s.replace(old, new)] for a one-character [old]. *)
Definition replace_char (old : char) (new : str) (s : str) : str :=
  flat_map (fun c => if N.eqb c old then new else [c]) s.

(** [html.escape(text, quote=True)]: five replacements, the ampersand
    first. *)
Definition esc (text : str) : str :=
  let s := replace_char (ch "&") (lit "&amp;") text in
  let s := replace_char (ch "<") (lit "&lt;") s in
  let s := replace_char (ch ">") (lit "&gt;") s in
  let s := replace_char dq (lit "&quot;") s in
  replace_char (ch "'") (lit "&#x27;") s.

(** What [esc] makes of one character. *)
Definition esc_char (c : char) : str :=
  if N.eqb c (ch "&") then lit "&amp;"
  else if N.eqb c (ch "<") then lit "&lt;"
  else if N.eqb c (ch ">") then lit "&gt;"
  else if N.eqb c dq then lit "&quot;"
  else if N.eqb c (ch "'") then lit "&#x27;"
  else [c].

(** ** The inline-markup renderer *)

Notation "x <- e ;; k" :=
  (match e with Some x => k | None => None end)
  (at level 61, e at next level, right associativity).

(** [re.match] of the link pattern, [<link:`([^`]+)`=([^>]+)>] with the
    backquotes read as double quotes, at the start of [s]: the two groups
    and what follows the match.  Both classes are negated sets followed by
    the one character they exclude, so each group is the longest run. *)
Definition match_link (s : str) : option (str * str * str) :=
  if startswith (html "<link:`") s then
    let (g1, s2) := span (fun c => negb (N.eqb c dq)) (skipn 7 s) in
    match g1, s2 with
    | _ :: _, q :: e :: s3 =>
        if N.eqb q dq && N.eqb e (ch "=") then
          let (g2, s4) := span (fun c => negb (N.eqb c (ch ">"))) s3 in
          match g2, s4 with
          | _ :: _, _ :: after => Some (g1, g2, after)
          | _, _ => None
          end
        else None
    | _, _ => None
    end
  else None.

Definition anchor_blank (url inner : str) : str :=
  html "<a href=`" ++ url ++ html "` target=`_blank` rel=`noopener`>"
  ++ inner ++ html "</a>".

Definition strong (inner : str) : str :=
  html "<strong>" ++ inner ++ html "</strong>".

(** [render_inline(text, allow_links)].  The loop reads [text] only from
    position [i] on, so its state is the suffix [s = text[i:]] and the
    result is what it appends to [out] from there; every turn of the loop
    and every recursive call takes one unit of fuel. *)
Fixpoint render_inline_fuel (fuel : nat) (allow_links : bool) (s : str)
  : option str :=
  match fuel with
  | O => None
  | S fuel' =>
    match s with
    | [] => Some []
    | c :: rest =>
      match (if allow_links && startswith (lit "<link:") s
             then match_link s else None) with
      | Some (g1, g2, after) =>
          link_text <- render_inline_fuel fuel' false g1 ;;
          tail <- render_inline_fuel fuel' allow_links after ;;
          Some (anchor_blank (esc (strip g2)) link_text ++ tail)
      | None =>
        match (if startswith (lit "**") s
               then find (lit "**") (skipn 2 s) else None) with
        | Some e =>
            inner <- render_inline_fuel fuel' allow_links
                       (firstn e (skipn 2 s)) ;;
            tail <- render_inline_fuel fuel' allow_links
                      (skipn (e + 2) (skipn 2 s)) ;;
            Some (strong inner ++ tail)
        | None =>
          match (if N.eqb c (ch "*") then find (lit "*") rest else None) with
          | Some e =>
              inner <- render_inline_fuel fuel' allow_links (firstn e rest) ;;
              tail <- render_inline_fuel fuel' allow_links
                        (skipn (e + 1) rest) ;;
              Some (strong inner ++ tail)
          | None =>
              tail <- render_inline_fuel fuel' allow_links rest ;;
              Some (esc [c] ++ tail)
          end
        end
      end
    end
  end.

(** The renderer with the fuel its argument needs (see
    [render_inline_fuel_enough]). *)
Definition render_inline (allow_links : bool) (text : str) : str :=
  match render_inline_fuel (S (length text)) allow_links text with
  | Some out => out
  | None => []
  end.

(** One turn of the loop, apart: what the renderer finds at the head of
    the text that remains, with the texts it goes on with. *)
Inductive marker :=
| Link (link_text url after : str)
| Bold (inner after : str)
| Plain (c : char) (after : str).

Definition marker_at (allow_links : bool) (s : str) : option marker :=
  match s with
  | [] => None
  | c :: rest =>
    match (if allow_links && startswith (lit "<link:") s
           then match_link s else None) with
    | Some (g1, g2, after) => Some (Link g1 g2 after)
    | None =>
      match (if startswith (lit "**") s
             then find (lit "**") (skipn 2 s) else None) with
      | Some e => Some (Bold (firstn e (skipn 2 s))
                             (skipn (e + 2) (skipn 2 s)))
      | None =>
        match (if N.eqb c (ch "*") then find (lit "*") rest else None) with
        | Some e => Some (Bold (firstn e rest) (skipn (e + 1) rest))
        | None => Some (Plain c rest)
        end
      end
    end
  end.

(** The texts the renderer is called on after a marker: the inside of the
    marker, by the recursive call, and what follows it, by the loop. *)
Definition marker_args (m : marker) : list str :=
  match m with
  | Link link_text _ after => [link_text; after]
  | Bold inner after => [inner; after]
  | Plain _ after => [after]
  end.

Definition substring (sub s : str) : Prop :=
  exists pre post, s = pre ++ sub ++ post.

(** No position of [s] starts a complete link marker. *)
Fixpoint link_free (s : str) : bool :=
  match s with
  | [] => true
  | _ :: r =>
      match match_link s with Some _ => false | None => true end
      && link_free r
  end.

Definition count_char (c : char) (s : str) : nat :=
  length (filter (N.eqb c) s).

(** A text in which the characters HTML reserves occur in entities only:
    no [<], [>], double or single quote, and after every ampersand the
    rest of one of the five entities of [esc]. *)
Fixpoint entities_only (s : str) : bool :=
  match s with
  | [] => true
  | c :: r =>
      if N.eqb c (ch "<") || N.eqb c (ch ">") || N.eqb c dq
         || N.eqb c (ch "'")
      then false
      else if N.eqb c (ch "&") then
        (startswith (lit "amp;") r || startswith (lit "lt;") r
         || startswith (lit "gt;") r || startswith (lit "quot;") r
         || startswith (lit "#x27;") r)
        && entities_only r
      else entities_only r
  end.

(** The characters [esc] replaces. *)
Definition html_special (c : char) : bool :=
  N.eqb c (ch "&") || N.eqb c (ch "<") || N.eqb c (ch ">") || N.eqb c dq
  || N.eqb c (ch "'").

(** Every [<] of [s] opens or closes a [strong] element: it is followed by
    [s] or by [/]. *)
Fixpoint only_strong_tags (s : str) : bool :=
  match s with
  | [] => true
  | c :: r =>
      (if N.eqb c (ch "<")
       then startswith (lit "strong>") r || startswith (lit "/strong>") r
       else true)
      && only_strong_tags r
  end.

(** ** Exceptions *)

Inductive exn :=
| UnicodeDecodeError
| IsADirectoryError
| NotADirectoryError
| FileNotFoundError.

Inductive result (A : Type) : Type :=
| Ok (a : A)
| Raise (e : exn).
Arguments Ok {A} a.
Arguments Raise {A} e.

Notation "'let*' x ':=' e 'in' k" :=
  (match e with Ok x => k | Raise err => Raise err end)
  (at level 10, x pattern, e at level 100, k at level 200).

(** [sorted(l, key=...)], which is stable: the head of a list has to come
    before its equals in the tail, so it is inserted before the first
    element that is not smaller. *)
Section Sorted.
Variable A : Type.
Variable le : A -> A -> bool.

Fixpoint insert_sorted (x : A) (l : list A) : list A :=
  match l with
  | [] => [x]
  | y :: r => if le x y then x :: l else y :: insert_sorted x r
  end.

Fixpoint sorted (l : list A) : list A :=
  match l with
  | [] => []
  | x :: r => insert_sorted x (sorted r)
  end.
End Sorted.
Arguments insert_sorted {A} le x l.
Arguments sorted {A} le l.

(** ** What the script takes from the Python runtime

    The Unicode tables behind [unicodedata], [str.lower], the class [\d]
    and [int], and the decoder of the locale's encoding, belong to the
    interpreter and not to the script: they are parameters. *)
Class Runtime := {
  (** [unicodedata.normalize] with form NFD *)
  unicode_nfd : str -> str;
  (** [unicodedata.category(c)] is the class Mn, a non-spacing mark *)
  unicode_is_Mn : char -> bool;
  (** [str.lower] *)
  unicode_lower : str -> str;
  (** the value of a decimal digit, for the characters [\d] matches *)
  unicode_decimal : char -> option N;
  (** decoding with the locale's encoding and replacement of what does
      not decode, which never fails *)
  decode_locale_replace : bytes -> str
}.

Section Script.
Context {RT : Runtime}.

Definition is_digit (c : char) : bool :=
  match unicode_decimal c with Some _ => true | None => false end.

(** [int(digits)] for a run of characters of [\d]. *)
Definition int_of_digits (digits : str) : N :=
  fold_left
    (fun acc c => (10 * acc + match unicode_decimal c with
                              | Some d => d
                              | None => 0
                              end)%N)
    digits 0%N.

(** [str(n)] of a non-negative integer, and the format [02d]. *)
Definition str_of_int (n : N) : str :=
  lit (NilZero.string_of_uint (N.to_uint n)).

Definition format_02d (n : N) : str :=
  let d := str_of_int n in
  if Nat.ltb (length d) 2 then repeat (ch "0") (2 - length d) ++ d else d.

(** ** Section links of a footer *)

Definition is_lower_alnum (c : char) : bool :=
  ((97 <=? c) && (c <=? 122) || (48 <=? c) && (c <=? 57))%N.

(** [normalize_text]: the substitution deletes every run of characters
    outside [a-z0-9], which leaves the characters inside it. *)
Definition normalize_text (text : str) : str :=
  let normalized := unicode_nfd text in
  let stripped := filter (fun c => negb (unicode_is_Mn c)) normalized in
  filter is_lower_alnum (unicode_lower stripped).

(** An accordion section, the dictionary of [parse_sections]. *)
Record Item := { item_text : str; item_url : str }.
Record Sec := { sec_order : N; sec_title : str; sec_items : list Item }.

(** The pattern [<[^>]+>] at the start of [s]: the match and the rest. *)
Definition match_bracket (s : str) : option (str * str) :=
  match s with
  | c :: r =>
      if N.eqb c (ch "<") then
        let (g, s2) := span (fun c => negb (N.eqb c (ch ">"))) r in
        match g, s2 with
        | _ :: _, gt :: after => Some (c :: g ++ [gt], after)
        | _, _ => None
        end
      else None
  | [] => None
  end.

(** [re.split] on the captured pattern [(<[^>]+>)]: the texts between the
    matches alternate with the matches; [cur] is the text since the last
    match.  A match is never empty, so the length of [s] is fuel enough. *)
Fixpoint re_split_fuel (fuel : nat) (cur s : str) : list str :=
  match fuel with
  | O => [cur ++ s]
  | S fuel' =>
    match s with
    | [] => [cur]
    | c :: r =>
      match match_bracket s with
      | Some (m, after) => cur :: m :: re_split_fuel fuel' [] after
      | None => re_split_fuel fuel' (cur ++ [c]) r
      end
    end
  end.

Definition re_split (text : str) : list str :=
  re_split_fuel (S (length text)) [] text.

Definition sec_id (sec : Sec) : str :=
  lit "sec-" ++ format_02d (sec_order sec).

(** The test of the loop over the sections: [needle] is not empty and
    occurs in the normalized title. *)
Definition label_matches (needle : str) (sec : Sec) : bool :=
  negb (str_eqb needle [])
  && contains needle (normalize_text (sec_title sec)).

(** The loop over the sections: the identifier of the first section that
    passes the test, or the empty string. *)
Fixpoint find_target (needle : str) (sections : list Sec) : str :=
  match sections with
  | [] => []
  | sec :: more =>
      if label_matches needle sec then sec_id sec
      else find_target needle more
  end.

(** [part[1:-1]] *)
Definition slice_1_m1 (part : str) : str := removelast (tl part).

Definition render_part (sections : list Sec) (part : str) : str :=
  if startswith (lit "<") part && endswith (lit ">") part then
    let label := strip (slice_1_m1 part) in
    let needle := normalize_text label in
    let target_id := find_target needle sections in
    if negb (str_eqb target_id []) then
      html "<a class=`indicator-link` href=`#` data-open=`" ++ target_id
      ++ html "`>" ++ render_inline true label ++ html "</a>"
    else render_inline true label
  else render_inline true part.

Definition render_footer_with_section_links
  (text : str) (sections : list Sec) : str :=
  if str_eqb text [] then []
  else concat (map (render_part sections) (re_split text)).

(** ** Lines and links *)

(** The tail [\s*<([^>]+)>\s*$] of the link pattern at the start of [s]:
    its group. *)
Definition match_url_tail (s : str) : option str :=
  match lstrip s with
  | c :: r =>
      if N.eqb c (ch "<") then
        let (g, s2) := span (fun c => negb (N.eqb c (ch ">"))) r in
        match g, s2 with
        | _ :: _, _ :: after =>
            if forallb is_space after then Some g else None
        | _, _ => None
        end
      else None
  | [] => None
  end.

(** [re.match] of [^(.*?)\s*<([^>]+)>\s*$]: the lazy first group grows one
    character at a time, never over a line feed, until the tail matches. *)
Fixpoint match_text_url (s : str) : option (str * str) :=
  match match_url_tail s with
  | Some g => Some ([], g)
  | None =>
      match s with
      | c :: r =>
          if N.eqb c 10 then None
          else match match_text_url r with
               | Some (t, g) => Some (c :: t, g)
               | None => None
               end
      | [] => None
      end
  end.

Definition split_full_link (text : str) : str * option str :=
  match match_text_url text with
  | Some (t, g) => (strip t, Some (strip g))
  | None => (text, None)
  end.

(** The line boundaries of [str.splitlines]. *)
Definition is_linebreak (c : char) : bool :=
  ((10 <=? c) && (c <=? 13) || (28 <=? c) && (c <=? 30)
   || (c =? 133) || (c =? 8232) || (c =? 8233))%N.

Fixpoint splitlines_from (cur s : str) : list str :=
  match s with
  | [] => match cur with [] => [] | _ => [cur] end
  | c :: r =>
      if is_linebreak c then
        cur :: match r with
               | c' :: r' =>
                   if N.eqb c 13 && N.eqb c' 10 then splitlines_from [] r'
                   else splitlines_from [] r
               | [] => splitlines_from [] r
               end
      else splitlines_from (cur ++ [c]) r
  end.

Definition splitlines (s : str) : list str := splitlines_from [] s.

Definition nonempty (s : str) : bool :=
  match s with [] => false | _ => true end.

(** The comprehension every parser starts with:
    [[line.strip() for line in text.splitlines() if line.strip()]]. *)
Definition content_lines (text : str) : list str :=
  map strip (filter (fun line => nonempty (strip line)) (splitlines text)).

(** [sep.join(parts)] *)
Fixpoint join (sep : str) (parts : list str) : str :=
  match parts with
  | [] => []
  | [p] => p
  | p :: more => p ++ sep ++ join sep more
  end.

(** [a or b] on strings *)
Definition str_or (a b : str) : str :=
  match a with [] => b | _ => a end.


(** ** Reading files *)

Inductive encoding := Utf8Sig | Cp1252 | Latin1.

Definition in_range (lo hi b : N) : bool := ((lo <=? b) && (b <=? hi))%N.

Definition cont (b : N) : N := N.land b 63.

(** The strict UTF-8 decoder: shortest forms only, no surrogates, nothing
    above U+10FFFF. *)
Fixpoint decode_utf8 (data : bytes) : result str :=
  match data with
  | [] => Ok []
  | b0 :: r0 =>
    if (b0 <? 128)%N then
      let* s := decode_utf8 r0 in Ok (b0 :: s)
    else match r0 with
    | [] => Raise UnicodeDecodeError
    | b1 :: r1 =>
      if in_range 194 223 b0 then
        if in_range 128 191 b1 then
          let* s := decode_utf8 r1 in
          Ok ((N.land b0 31 * 64 + cont b1)%N :: s)
        else Raise UnicodeDecodeError
      else match r1 with
      | [] => Raise UnicodeDecodeError
      | b2 :: r2 =>
        if in_range 224 239 b0 then
          if in_range (if N.eqb b0 224 then 160 else 128)
                      (if N.eqb b0 237 then 159 else 191) b1
             && in_range 128 191 b2 then
            let* s := decode_utf8 r2 in
            Ok ((N.land b0 15 * 4096 + cont b1 * 64 + cont b2)%N :: s)
          else Raise UnicodeDecodeError
        else match r2 with
        | [] => Raise UnicodeDecodeError
        | b3 :: r3 =>
          if in_range 240 244 b0
             && in_range (if N.eqb b0 240 then 144 else 128)
                         (if N.eqb b0 244 then 143 else 191) b1
             && in_range 128 191 b2 && in_range 128 191 b3 then
            let* s := decode_utf8 r3 in
            Ok ((N.land b0 7 * 262144 + cont b1 * 4096
                 + cont b2 * 64 + cont b3)%N :: s)
          else Raise UnicodeDecodeError
        end
      end
    end
  end.

(** [utf-8-sig], as the decoder of a file read at once: a leading byte
    order mark is dropped; a file of fewer than three bytes that is the
    start of a mark leaves the decoder waiting for the rest, and gives the
    empty text. *)
Definition BOM_UTF8 : bytes := [239; 187; 191]%N.

Definition decode_utf8_sig (data : bytes) : result str :=
  if Nat.ltb (length data) 3 then
    if startswith data BOM_UTF8 then Ok [] else decode_utf8 data
  else if startswith BOM_UTF8 data then decode_utf8 (skipn 3 data)
  else decode_utf8 data.

(** The rows 80 to 9F of code page 1252; five bytes have no character. *)
Definition cp1252_high : list (option char) :=
  [Some 8364; None; Some 8218; Some 402; Some 8222; Some 8230; Some 8224;
   Some 8225; Some 710; Some 8240; Some 352; Some 8249; Some 338; None;
   Some 381; None;
   None; Some 8216; Some 8217; Some 8220; Some 8221; Some 8226; Some 8211;
   Some 8212; Some 732; Some 8482; Some 353; Some 8250; Some 339; None;
   Some 382; Some 376]%N.

Definition cp1252_char (b : N) : option char :=
  if in_range 128 159 b then nth (N.to_nat (b - 128)) cp1252_high None
  else Some b.

Fixpoint decode_cp1252 (data : bytes) : result str :=
  match data with
  | [] => Ok []
  | b :: r =>
      match cp1252_char b with
      | Some c => let* s := decode_cp1252 r in Ok (c :: s)
      | None => Raise UnicodeDecodeError
      end
  end.

(** [latin-1] gives every byte the code point of its value. *)
Definition decode_latin1 (data : bytes) : result str := Ok data.

Definition decode (enc : encoding) (data : bytes) : result str :=
  match enc with
  | Utf8Sig => decode_utf8_sig data
  | Cp1252 => decode_cp1252 data
  | Latin1 => decode_latin1 data
  end.

(** A file opened as text has its line ends translated to a line feed. *)
Fixpoint universal_newlines (s : str) : str :=
  match s with
  | [] => []
  | c :: r =>
      if N.eqb c 13 then
        10%N :: match r with
                | c' :: r' =>
                    if N.eqb c' 10 then universal_newlines r'
                    else universal_newlines r
                | [] => universal_newlines r
                end
      else c :: universal_newlines r
  end.

(** A directory entry is a file with its bytes, a directory with its
    entries, in the order the system enumerates them, or a symbolic link
    whose target is missing: a directory lists it, [exists] and [is_dir]
    deny it and opening it fails. *)
#[warnings="-register-all"]
Inductive node :=
| File (data : bytes)
| Dir (entries : list (str * node))
| Broken.

Definition listing := list (str * node).

(** The loop of [read_text] over the encodings, which catches the decoding
    error only, and the statement after it. *)
Fixpoint read_text_try (encs : list encoding) (data : bytes) : result str :=
  match encs with
  | enc :: more =>
      match decode enc data with
      | Ok s => Ok (universal_newlines s)
      | Raise UnicodeDecodeError => read_text_try more data
      | Raise e => Raise e
      end
  | [] => Ok (universal_newlines (decode_locale_replace data))
  end.

Definition read_text (path : node) : result str :=
  match path with
  | File data => read_text_try [Utf8Sig; Cp1252; Latin1] data
  | Dir _ => Raise IsADirectoryError
  | Broken => Raise FileNotFoundError
  end.

(** ** The content loader *)

Fixpoint lookup (name : str) (d : listing) : option node :=
  match d with
  | [] => None
  | (n, x) :: more => if str_eqb n name then Some x else lookup name more
  end.

(** What a directory enumerates; nothing for a file or a missing path. *)
Definition entries_of (path : option node) : listing :=
  match path with
  | Some (Dir entries) => entries
  | _ => []
  end.

(** [ROOT / content] *)
Definition content_dir (root : listing) : listing :=
  entries_of (lookup (lit "content") root).

(** A glob pattern [prefix*suffix] on a name, letter case respected. *)
Definition glob_match (prefix suffix name : str) : bool :=
  startswith prefix name && endswith suffix name
  && Nat.leb (length prefix + length suffix) (length name).

Definition glob (prefix suffix : str) (d : listing) : listing :=
  filter (fun e => glob_match prefix suffix (fst e)) d.

(** The end [(.+)\.txt$] of the two file-name patterns: the title.  A dot
    of a pattern matches anything but a line feed. *)
Definition match_title_txt (s : str) : option str :=
  if endswith (lit ".txt") s then
    let t := firstn (length s - 4) s in
    if nonempty t && forallb (fun c => negb (N.eqb c 10)) t
    then Some t else None
  else None.

(** [^prefix(\d+)sep(.+)\.txt$] on a file name: the digits and the title. *)
Definition match_numbered (prefix : str) (sep : char) (name : str)
  : option (str * str) :=
  if startswith prefix name then
    let (digits, s1) := span is_digit (skipn (length prefix) name) in
    match digits, s1 with
    | _ :: _, c :: s2 =>
        if N.eqb c sep then
          match match_title_txt s2 with
          | Some t => Some (digits, t)
          | None => None
          end
        else None
    | _, _ => None
    end
  else None.

Definition parse_title (cdir : listing) : result (str * str * str) :=
  match lookup (lit "Titulo.txt") cdir with
  | None | Some Broken => Ok ([], [], [])
  | Some path =>
      let* text := read_text path in
      let lines := content_lines text in
      Ok (nth 0 lines [], nth 1 lines [], nth 2 lines [])
  end.

Definition parse_body (cdir : listing) : result (list str) :=
  match lookup (lit "Cuerpo.txt") cdir with
  | None | Some Broken => Ok []
  | Some path => let* text := read_text path in Ok (content_lines text)
  end.

Definition parse_item (line : str) : Item :=
  match match_text_url line with
  | Some (t, g) => {| item_text := strip t; item_url := strip g |}
  | None => {| item_text := line; item_url := [] |}
  end.

(** The loop of [parse_sections] over the paths of the glob. *)
Fixpoint collect_sections (paths : listing) : result (list Sec) :=
  match paths with
  | [] => Ok []
  | (name, path) :: more =>
      match match_numbered (lit "Des") (ch "-") name with
      | None => collect_sections more
      | Some (digits, title) =>
          let* text := read_text path in
          let sec := {| sec_order := int_of_digits digits;
                        sec_title := strip title;
                        sec_items := map parse_item (content_lines text) |} in
          let* rest := collect_sections more in
          Ok (sec :: rest)
      end
  end.

Definition sec_le (a b : Sec) : bool := (sec_order a <=? sec_order b)%N.

Definition parse_sections (cdir : listing) : result (list Sec) :=
  match lookup (lit "Despegables") cdir with
  | None | Some Broken => Ok []
  | Some base_dir =>
      let* sections :=
        collect_sections (glob (lit "Des") (lit ".txt")
                            (entries_of (Some base_dir))) in
      Ok (sorted sec_le sections)
  end.

(** The text of a file; reading a file never raises. *)
Definition file_text (data : bytes) : str :=
  match read_text (File data) with
  | Ok text => text
  | Raise _ => []
  end.

(** The section that [parse_sections] makes of one file, if its name has
    the form of a section file; and the sections of the files of a
    directory, in the order of enumeration. *)
Definition section_of (name : str) (data : bytes) : option Sec :=
  match match_numbered (lit "Des") (ch "-") name with
  | Some (digits, title) =>
      Some {| sec_order := int_of_digits digits;
              sec_title := strip title;
              sec_items := map parse_item (content_lines (file_text data)) |}
  | None => None
  end.

Definition sections_of_files (paths : listing) : list Sec :=
  flat_map (fun e => match e with
                     | (name, File data) =>
                         match section_of name data with
                         | Some sec => [sec]
                         | None => []
                         end
                     | (_, Dir _) | (_, Broken) => []
                     end) paths.

Record Button := { btn_order : N; btn_title : str; btn_text : str }.
Record Group :=
  { grp_title : str; grp_buttons : list Button; grp_footer : str }.

Definition btn_le (a b : Button) : bool := (btn_order a <=? btn_order b)%N.

Fixpoint collect_buttons (paths : listing) : result (list Button) :=
  match paths with
  | [] => Ok []
  | (name, path) :: more =>
      if str_eqb (unicode_lower name) (lit "pie.txt") then
        collect_buttons more
      else
        match match_numbered [] (ch ".") name with
        | None => collect_buttons more
        | Some (digits, title) =>
            let* text := read_text path in
            let button := {| btn_order := int_of_digits digits;
                             btn_title := strip title;
                             btn_text := join (lit " ") (content_lines text) |} in
            let* rest := collect_buttons more in
            Ok (button :: rest)
        end
  end.

(** The loop of [parse_buttons] over the entries of the directory. *)
Fixpoint collect_groups (dirs : listing) : result (list Group) :=
  match dirs with
  | [] => Ok []
  | (name, File _) :: more | (name, Broken) :: more => collect_groups more
  | (name, Dir group_dir) :: more =>
      let* footer_text :=
        match lookup (lit "Pie.txt") group_dir with
        | None | Some Broken => Ok []
        | Some footer_path =>
            let* text := read_text footer_path in
            Ok (join (lit " ") (content_lines text))
        end in
      let* buttons := collect_buttons (glob [] (lit ".txt") group_dir) in
      let* rest := collect_groups more in
      match buttons with
      | [] => Ok rest
      | _ => Ok ({| grp_title := name;
                    grp_buttons := sorted btn_le buttons;
                    grp_footer := footer_text |} :: rest)
      end
  end.

Definition parse_buttons (cdir : listing) : result (list Group) :=
  match lookup (lit "Botones") cdir with
  | None | Some Broken => Ok []
  | Some (File _) => Raise NotADirectoryError
  | Some (Dir entries) => collect_groups entries
  end.

Record Beneficiarios :=
  { ben_title : str; ben_lead : str; ben_lines : list str; ben_button : str }.

Definition parse_beneficiarios (cdir : listing)
  : result (option Beneficiarios) :=
  match lookup (lit "BENEFICIARIOS.txt") cdir with
  | None | Some Broken => Ok None
  | Some path =>
      let* text := read_text path in
      let lines := content_lines text in
      match lines with
      | [] => Ok None
      | _ =>
          let (button_line, lines) :=
            if Nat.ltb 2 (length lines)
            then (last lines [], removelast lines)
            else ([], lines) in
          Ok (Some {| ben_title := lit "BENEFICIARIOS";
                      ben_lead := hd [] lines;
                      ben_lines := tl lines;
                      ben_button := button_line |})
      end
  end.

(** The order of [str] and of the paths of one directory: by code point. *)
Fixpoint str_leb (a b : str) : bool :=
  match a, b with
  | [], _ => true
  | _ :: _, [] => false
  | x :: a', y :: b' =>
      if N.eqb x y then str_leb a' b' else N.ltb x y
  end.

Definition path_le (a b : str * node) : bool := str_leb (fst a) (fst b).

(** [path.stem] *)
Definition stem (name : str) : str :=
  match find (lit ".") (rev name) with
  | Some k =>
      let i := length name - 1 - k in
      if Nat.ltb 0 i && Nat.ltb i (length name - 1)
      then firstn i name else name
  | None => name
  end.

Record Registro :=
  { reg_title : str; reg_lines : list str; reg_buttons : list str }.

Definition parse_registro (cdir : listing) : result (option Registro) :=
  match sorted path_le (glob (lit "REGISTRO") (lit ".txt") cdir) with
  | [] => Ok None
  | (name, path) :: _ =>
      let* text := read_text path in
      let lines := content_lines text in
      match lines with
      | [] => Ok None
      | _ => Ok (Some {| reg_title := stem name;
                         reg_lines := firstn 1 lines;
                         reg_buttons := skipn 1 lines |})
      end
  end.

Definition parse_contacto (cdir : listing) : result (list str) :=
  match lookup (lit "Contacto.txt") cdir with
  | None | Some Broken => Ok []
  | Some path => let* text := read_text path in Ok (content_lines text)
  end.

Record Red := { red_name : str; red_url : str }.

Definition red_of_line (line : str) : list Red :=
  match split_full_link line with
  | (name, Some url) =>
      if nonempty url && nonempty name
      then [{| red_name := name; red_url := url |}] else []
  | (_, None) => []
  end.

Definition parse_redes (cdir : listing) : result (list Red) :=
  match lookup (lit "Redes.txt") cdir with
  | None | Some Broken => Ok []
  | Some path =>
      let* text := read_text path in
      Ok (flat_map red_of_line (content_lines text))
  end.

Definition exists_file (path : list str) (root : listing) : bool :=
  match path with
  | [a; b; c] =>
      match lookup c (entries_of (lookup b (entries_of (lookup a root)))) with
      | None | Some Broken => false
      | Some _ => true
      end
  | _ => false
  end.

Definition choose_main_image (root : listing) : str :=
  if exists_file [lit "assets"; lit "img"; lit "im_principal.png"] root
  then lit "assets/img/im_principal.png"
  else if exists_file [lit "assets"; lit "img"; lit "im_principal.jpg"] root
  then lit "assets/img/im_principal.jpg"
  else lit "assets/img/im_principal.png".

(** ** The page renderer *)

Definition nl : str := [10%N].

Definition p_tag (inner : str) : str := html "<p>" ++ inner ++ html "</p>".

Definition body_html (body_lines : list str) : str :=
  str_or (join nl (map (fun line => p_tag (esc line)) body_lines))
         (html "<p></p>").

(** A button of the beneficiary or of the registration block: the anchor
    when the line splits into a text and a non-empty address. *)
Definition link_button (class : str) (line : str) : str :=
  let (button_text, button_url) := split_full_link line in
  let button_label := render_inline true button_text in
  match button_url with
  | Some url =>
      if nonempty url then
        html "<a class=`" ++ class ++ html "` href=`" ++ esc url
        ++ html "` target=`_blank` rel=`noopener`>" ++ button_label
        ++ html "</a>"
      else []
  | None => []
  end.

(** The buttons of a list of lines, by the words of the format: a line
    [text <url>] with a non-empty address gives an anchor of the class,
    with the address escaped and the text as inline markup; any other
    line gives nothing. *)
Definition button_anchors (class : str) (lines : list str) : list str :=
  flat_map
    (fun line =>
       match split_full_link line with
       | (text, Some url) =>
           if nonempty url then
             [html "<a class=`" ++ class ++ html "` href=`" ++ esc url
              ++ html "` target=`_blank` rel=`noopener`>"
              ++ render_inline true text ++ html "</a>"]
           else []
       | (_, None) => []
       end)
    lines.

Definition beneficiarios_html (beneficiarios : option Beneficiarios) : str :=
  match beneficiarios with
  | None => []
  | Some b =>
      let lead_html := render_inline true (ben_lead b) in
      let extra_lines :=
        join nl (map (fun line => p_tag (render_inline true line))
                     (ben_lines b)) in
      let button_html :=
        if nonempty (ben_button b)
        then link_button (lit "beneficiarios-button") (ben_button b)
        else [] in
      html "<section class=`beneficiarios` data-animate=`3`>"
      ++ html "<div class=`beneficiarios-text`>"
      ++ html "<p class=`beneficiarios-title`>" ++ esc (ben_title b)
      ++ html "</p>"
      ++ html "<p class=`beneficiarios-lead`>" ++ lead_html ++ html "</p>"
      ++ extra_lines
      ++ button_html
      ++ html "</div>"
      ++ html "<div class=`beneficiarios-map`>"
      ++ html "<img src=`assets/img/mapa.png` alt=`Mapa`>"
      ++ html "</div>"
      ++ html "</section>"
  end.

Definition registro_html (registro : option Registro) : str :=
  match registro with
  | None => []
  | Some r =>
      let line_html :=
        join nl (map (fun line => p_tag (render_inline true line))
                     (reg_lines r)) in
      let button_html :=
        match reg_buttons r with
        | [] => []
        | _ =>
            let registro_buttons :=
              filter nonempty
                (map (link_button (lit "registro-button")) (reg_buttons r)) in
            match registro_buttons with
            | [] => []
            | _ => html "<div class=`registro-buttons`>"
                   ++ concat registro_buttons ++ html "</div>"
            end
        end in
      html "<section class=`registro-band` data-animate=`3`>"
      ++ html "<div class=`registro`>"
      ++ html "<div class=`registro-media`>"
      ++ html "<img src=`assets/img/plataforma.png` alt=`Plataforma`>"
      ++ html "</div>"
      ++ html "<div class=`registro-text`>"
      ++ html "<p class=`registro-title`>" ++ esc (reg_title r) ++ html "</p>"
      ++ line_html
      ++ button_html
      ++ html "</div>"
      ++ html "</div>"
      ++ html "</section>"
  end.

Definition red_icon (item : Red) : str :=
  let icon_src := lit "assets/img/iconos/" ++ red_name item in
  html "<a href=`" ++ esc (red_url item)
  ++ html "` target=`_blank` rel=`noopener`>"
  ++ html "<img src=`" ++ esc icon_src ++ html "` alt=`"
  ++ esc (red_name item) ++ html "`>"
  ++ html "</a>".

Definition contacto_html (contacto_lines : list str) (redes : list Red) : str :=
  match contacto_lines, redes with
  | [], [] => []
  | _, _ =>
      let contacto_text :=
        join nl (map (fun line => p_tag (render_inline true line))
                     contacto_lines) in
      let icons_html :=
        match redes with
        | [] => []
        | _ => html "<div class=`redes-icons`>"
               ++ concat (map red_icon redes) ++ html "</div>"
        end in
      html "<section class=`contacto` data-animate=`3`>"
      ++ contacto_text
      ++ icons_html
      ++ html "</section>"
  end.

Definition indicator_card (button : Button) : str :=
  let icon_src :=
    lit "assets/img/iconos/indicador" ++ str_of_int (btn_order button)
    ++ lit ".png" in
  let title_html := render_inline true (btn_title button) in
  let text_html := render_inline true (btn_text button) in
  html "<div class=`indicator-card`>"
  ++ html "<img class=`indicator-icon` src=`" ++ icon_src
  ++ html "` alt=`Icono`>"
  ++ html "<p class=`indicator-title`>" ++ title_html ++ html "</p>"
  ++ html "<p class=`indicator-text`>" ++ text_html ++ html "</p>"
  ++ html "</div>".

Definition indicator_group (sections : list Sec) (group : Group) : str :=
  let cards_html := join nl (map indicator_card (grp_buttons group)) in
  let group_title := esc (grp_title group) in
  let footer_html :=
    if nonempty (grp_footer group) then
      html "<p class=`indicator-footer`>"
      ++ render_footer_with_section_links (grp_footer group) sections
      ++ html "</p>"
    else [] in
  html "<div class=`indicator-group`>"
  ++ html "<h2 class=`indicator-heading`>" ++ group_title ++ html "</h2>"
  ++ html "<div class=`indicator-row`>"
  ++ cards_html
  ++ html "</div>"
  ++ footer_html
  ++ html "</div>".

Definition buttons_html (sections : list Sec) (buttons : list Group) : str :=
  match buttons with
  | [] => []
  | _ =>
      let groups_block := join nl (map (indicator_group sections) buttons) in
      html "<section class=`indicator-section` data-animate=`3`>"
      ++ groups_block
      ++ html "</section>"
  end.

Definition accordion_li (item : Item) : str :=
  let text := esc (item_text item) in
  let url := strip (item_url item) in
  if nonempty url then
    html "<li><a href=`" ++ esc url
    ++ html "` target=`_blank` rel=`noopener`>" ++ text ++ html "</a></li>"
  else html "<li><span>" ++ text ++ html "</span></li>".

(** One turn of the loop over [enumerate(sections)]. *)
Definition accordion_item (idx : nat) (sec : Sec) : str :=
  let sec_id := sec_id sec in
  let active_class := if Nat.eqb idx 0 then lit " is-active" else [] in
  let aria_expanded := if Nat.eqb idx 0 then lit "true" else lit "false" in
  let aria_hidden := if Nat.eqb idx 0 then lit "false" else lit "true" in
  let button_id := sec_id ++ lit "-btn" in
  let items_html :=
    str_or (join nl (map accordion_li (sec_items sec)))
           (html "<li><span></span></li>") in
  html "<div class=`sec-item`>"
  ++ html "<button id=`" ++ button_id ++ html "` class=`sec-btn"
  ++ active_class ++ html "` "
  ++ html "aria-expanded=`" ++ aria_expanded ++ html "` aria-controls=`"
  ++ sec_id ++ html "` "
  ++ html "data-target=`" ++ sec_id ++ html "`>"
  ++ html "<span class=`sec-title`>" ++ esc (sec_title sec) ++ html "</span>"
  ++ html "<span class=`sec-arrow` aria-hidden=`true`>></span>"
  ++ html "</button>"
  ++ html "<div id=`" ++ sec_id ++ html "` class=`sec-panel" ++ active_class
  ++ html "` "
  ++ html "role=`region` aria-labelledby=`" ++ button_id ++ html "` "
  ++ html "aria-hidden=`" ++ aria_hidden ++ html "`>"
  ++ html "<ul>" ++ nl ++ items_html ++ nl ++ html "</ul></div>"
  ++ html "</div>".

Fixpoint accordion_items_from (idx : nat) (sections : list Sec) : list str :=
  match sections with
  | [] => []
  | sec :: more => accordion_item idx sec :: accordion_items_from (S idx) more
  end.

Definition accordion_items (sections : list Sec) : list str :=
  accordion_items_from 0 sections.

Definition accordion_block (sections : list Sec) : str :=
  join nl (accordion_items sections).

(** ** The page *)

(** The style sheet and the script of the page, fixed texts. *)
Definition page_style : str :=
  html "
    @import url('https://fonts.googleapis.com/css2?family=Marcellus&family=Work+Sans:wght@300;500;700&display=swap');

    * { box-sizing: border-box; }

    body {
      margin: 0;
      font-family: `Work Sans`, `Segoe UI`, sans-serif;
      min-height: 100vh;
    }

    .page {
      max-width: 1100px;
      margin: 0 auto;
      padding: 48px 24px 0;
    }

    .page-header {
      display: flex;
      align-items: flex-start;
      justify-content: space-between;
      gap: 24px;
    }

    .logo {
      width: 120px;
      height: auto;
      object-fit: contain;
    }

    .eyebrow {
      text-transform: uppercase;
      letter-spacing: 0.32em;
      font-size: 12px;
      margin: 0 0 12px;
    }

    h1 {
      font-family: `Marcellus`, `Georgia`, serif;
      font-weight: 400;
      font-size: clamp(32px, 4vw, 52px);
      margin: 0 0 12px;
    }

    .subtitle {
      margin: 0;
      font-size: clamp(16px, 2.3vw, 22px);
      max-width: 560px;
      line-height: 1.5;
    }

    .hero-band {
      width: 100vw;
      margin-left: calc(50% - 50vw);
      margin-right: calc(50% - 50vw);
      margin-top: 36px;
      margin-bottom: 28px;
      background: url(`assets/img/Fondos/principal.png`) center/cover no-repeat;
      padding: 24px 0;
    }

    .hero {
      max-width: 1100px;
      margin: 0 auto;
      padding: 0 24px;
      overflow: hidden;
      position: relative;
    }

    .hero img {
      width: 100%;
      height: 100%;
      display: block;
      object-fit: cover;
    }

    .body-text {
      padding: 24px 28px;
      line-height: 1.6;
      text-align: justify;
    }

    .body-text p {
      margin: 0 0 22px;
      font-size: 18px;
      line-height: 1.7;
    }

    .section-divider {
      height: 10px;
      background: #777777;
      width: 100%;
      margin: 16px 0 24px;
    }

    .beneficiarios {
      display: flex;
      gap: 28px;
      align-items: flex-start;
      margin-top: 32px;
    }

    .beneficiarios-text {
      flex: 1;
      min-width: 0;
    }

    .beneficiarios-title {
      margin: 0 0 10px;
      text-transform: uppercase;
      letter-spacing: 0.18em;
      font-size: 22px;
      font-weight: 600;
    }

    .beneficiarios-lead {
      margin: 0 0 12px;
      font-size: 32px;
      font-weight: 700;
    }

    .beneficiarios-text p {
      margin: 0 0 16px;
      font-size: 18px;
      line-height: 1.7;
    }

    .beneficiarios-text .beneficiarios-lead {
      font-size: 40px;
    }

    .beneficiarios-map {
      flex: 1;
      min-width: 220px;
      max-width: 360px;
    }

    .beneficiarios-map img {
      width: 75%;
      height: auto;
      display: block;
      margin-right: auto;
    }

    .beneficiarios-button {
      display: inline-block;
      margin-top: 10px;
      padding: 10px 16px;
      border: 1px solid #b8c1cc;
      border-radius: 6px;
      font-size: 18px;
      font-weight: 600;
      background: #777777;
      color: #ffffff;
    }

    .registro-band {
      width: 100vw;
      margin-left: calc(50% - 50vw);
      margin-right: calc(50% - 50vw);
      margin-top: 32px;
      background: url(`assets/img/Fondos/plataforma.png`) center/cover no-repeat;
      padding: 24px 0;
    }

    .registro {
      display: flex;
      gap: 28px;
      align-items: stretch;
      max-width: 1100px;
      margin: 0 auto;
      padding: 0 24px;
    }

    .registro-media {
      flex: 1;
      min-width: 330px;
      max-width: 540px;
      display: flex;
      justify-content: center;
      align-items: stretch;
    }

    .registro-media img {
      width: 100%;
      height: 100%;
      display: block;
      object-fit: contain;
      margin: auto;
    }

    .registro-text {
      flex: 1.2;
      min-width: 0;
      display: flex;
      flex-direction: column;
      justify-content: center;
    }

    .registro-title {
      margin: 0 0 10px;
      text-transform: uppercase;
      letter-spacing: 0.18em;
      font-size: 22px;
      font-weight: 600;
      color: #ffffff;
    }

    .registro-text p {
      margin: 0 0 16px;
      font-size: 18px;
      line-height: 1.7;
      color: #ffffff;
    }

    .registro-button {
      display: inline-block;
      margin-top: 10px;
      padding: 10px 16px;
      border: 1px solid #b8c1cc;
      border-radius: 6px;
      font-size: 18px;
      font-weight: 600;
      text-align: center;
      background: #ffffff;
      color: #ba3034;
    }

    .registro-buttons {
      display: flex;
      flex-wrap: wrap;
      gap: 10px;
      margin-top: 10px;
    }

    .contacto {
      margin-top: 54px;
      text-align: center;
      background: #575556;
      color: #ffffff;
      padding: 24px 16px;
      width: 100vw;
      margin-left: calc(50% - 50vw);
      margin-right: calc(50% - 50vw);
    }

    .contacto p {
      margin: 0 0 10px;
      font-size: 18px;
      line-height: 1.6;
      color: #ffffff;
    }

    .redes-icons {
      display: flex;
      justify-content: center;
      gap: 14px;
      margin-top: 12px;
      flex-wrap: wrap;
    }

    .redes-icons img {
      width: 36px;
      height: 36px;
      display: block;
      object-fit: contain;
    }

    .indicator-section {
      margin-top: 32px;
    }

    .indicator-group {
      margin-bottom: 24px;
    }

    .indicator-heading {
      margin: 0 0 14px;
      font-size: 22px;
      font-weight: 700;
      text-transform: uppercase;
      letter-spacing: 0.14em;
    }

    .indicator-row {
      display: grid;
      grid-template-columns: repeat(auto-fit, minmax(220px, 1fr));
      gap: 18px;
    }

    .indicator-card {
      aspect-ratio: 1 / 1;
      border: 1px solid #d7dbe2;
      border-radius: 16px;
      padding: 18px;
      display: flex;
      flex-direction: column;
      align-items: center;
      justify-content: center;
      text-align: center;
      gap: 10px;
    }

    .indicator-icon {
      width: 64px;
      height: 64px;
      object-fit: contain;
    }

    .indicator-title {
      margin: 0;
      font-size: 20px;
      font-weight: 700;
    }

    .indicator-text {
      margin: 0;
      font-size: 16px;
      line-height: 1.5;
    }

    .indicator-footer {
      margin: 12px 0 0;
      font-size: 16px;
      line-height: 1.6;
    }

    .indicator-link {
      font-weight: 600;
    }

    .sections {
      margin-top: 36px;
    }

    .accordion {
      display: flex;
      flex-direction: column;
      gap: 14px;
      width: min(100%, 920px);
      margin: 0 auto;
    }

    .sec-btn {
      border: none;
      padding: 14px 22px;
      border-radius: 16px;
      font-size: 20px;
      font-weight: 600;
      cursor: pointer;
      width: 100%;
      display: flex;
      align-items: center;
      justify-content: space-between;
      gap: 16px;
      text-align: left;
      transition: transform 0.2s ease, box-shadow 0.2s ease, background 0.2s ease;
    }

    .sec-btn:hover {
      transform: translateY(-2px);
      box-shadow: 0 10px 24px rgba(15, 58, 74, 0.15);
    }

    .sec-arrow {
      display: inline-flex;
      align-items: center;
      justify-content: center;
      width: 28px;
      height: 28px;
      border-radius: 50%;
      font-size: 18px;
      transition: transform 0.2s ease;
    }

    .sec-btn.is-active .sec-arrow {
      transform: rotate(90deg);
    }

    .sec-panel {
      display: none;
      padding: 24px;
      animation: fadeUp 0.4s ease;
    }

    .sec-panel.is-active {
      display: block;
    }

    .sec-panel ul {
      list-style: none;
      padding: 0;
      margin: 0;
      display: grid;
      gap: 10px;
    }

    .sec-panel li {
      padding: 3px 8px;
      font-size: 18px;
      line-height: 1.7;
    }

    .sec-panel a {
      color: #1a5fb4;
      text-decoration: none;
      font-weight: 600;
    }

    a {
      text-decoration: none;
    }


    [data-animate] {
      opacity: 0;
      transform: translateY(14px);
      transition: opacity 0.6s ease, transform 0.6s ease;
    }

    body.is-ready [data-animate] {
      opacity: 1;
      transform: translateY(0);
    }

    body.is-ready [data-animate=`2`] {
      transition-delay: 0.08s;
    }

    body.is-ready [data-animate=`3`] {
      transition-delay: 0.16s;
    }

    @keyframes fadeUp {
      from { opacity: 0; transform: translateY(10px); }
      to { opacity: 1; transform: translateY(0); }
    }

    @media (max-width: 800px) {
      .page-header {
        flex-direction: column;
        align-items: flex-start;
      }

      .logo {
        align-self: flex-end;
      }

      .beneficiarios {
        flex-direction: column;
      }

      .registro {
        flex-direction: column;
      }
    }
  ".

Definition page_script : str :=
  html "
    const buttons = Array.from(document.querySelectorAll('.sec-btn'));
    const panels = Array.from(document.querySelectorAll('.sec-panel'));

    function closeAll() {
      panels.forEach(panel => {
        panel.classList.remove('is-active');
        panel.setAttribute('aria-hidden', 'true');
      });
      buttons.forEach(button => {
        button.classList.remove('is-active');
        button.setAttribute('aria-expanded', 'false');
      });
    }

    function openById(targetId) {
      const panel = document.getElementById(targetId);
      if (!panel) return;
      closeAll();
      panel.classList.add('is-active');
      panel.setAttribute('aria-hidden', 'false');
      const button = buttons.find(btn => btn.dataset.target === targetId);
      if (button) {
        button.classList.add('is-active');
        button.setAttribute('aria-expanded', 'true');
      }
      panel.scrollIntoView({ behavior: 'smooth', block: 'start' });
    }

    buttons.forEach(button => {
      button.addEventListener('click', () => {
        const targetId = button.dataset.target;
        const panel = document.getElementById(targetId);
        const willOpen = !panel.classList.contains('is-active');
        closeAll();
        if (willOpen) {
          panel.classList.add('is-active');
          panel.setAttribute('aria-hidden', 'false');
          button.classList.add('is-active');
          button.setAttribute('aria-expanded', 'true');
        }
      });
    });

    document.querySelectorAll('[data-open]').forEach(link => {
      link.addEventListener('click', event => {
        const targetId = link.getAttribute('data-open');
        if (targetId) {
          event.preventDefault();
          openById(targetId);
        }
      });
    });

    window.addEventListener('load', () => {
      document.body.classList.add('is-ready');
    });
  ".

(** The document that [build_html] returns, from its parts. *)
Definition page (header title subtitle hero_src body beneficiarios buttons
  registro accordion contacto : str) : str :=
  html "<!doctype html>
<html lang=`es`>
<head>
  <meta charset=`utf-8`>
  <meta name=`viewport` content=`width=device-width, initial-scale=1`>
  <meta http-equiv=`Cache-Control` content=`no-cache, no-store, must-revalidate`>
  <meta http-equiv=`Pragma` content=`no-cache`>
  <meta http-equiv=`Expires` content=`0`>
  <title>"
  ++ esc (str_or title (str_or header (lit "Pagina")))
  ++ html "</title>
  <style>"
  ++ page_style
  ++ html "</style>
</head>
<body>
  <div class=`page`>
    <header class=`page-header` data-animate=`1`>
      <div>
        <p class=`eyebrow`>"
  ++ esc header
  ++ html "</p>
        <h1>"
  ++ esc title
  ++ html "</h1>
        <p class=`subtitle`>"
  ++ esc subtitle
  ++ html "</p>
      </div>
      <a class=`logo-link` href=`https://www.onsv.gob.pe/` target=`_blank` rel=`noopener`>
        <img class=`logo` src=`assets/img/logos/logo-onsv.png` alt=`Logo ONSV`>
      </a>
    </header>

    <section class=`hero-band` data-animate=`2`>
      <div class=`hero`>
        <img src=`"
  ++ hero_src
  ++ html "` alt=`Imagen principal`>
      </div>
    </section>

    <section class=`body-text` data-animate=`3`>
      "
  ++ body
  ++ html "
    </section>

    <div class=`section-divider` aria-hidden=`true`></div>

    "
  ++ beneficiarios
  ++ html "

    "
  ++ buttons
  ++ html "

    "
  ++ registro
  ++ html "

    <section class=`sections` data-animate=`3`>
      <div class=`accordion`>
        "
  ++ accordion
  ++ html "
      </div>
    </section>

    "
  ++ contacto
  ++ html "
  </div>

  <script>"
  ++ page_script
  ++ html "</script>
</body>
</html>
".

(** A path that [read_text] can read when it exists: not a directory. *)
Definition readable (path : option node) : bool :=
  match path with
  | Some (Dir _) => false
  | _ => true
  end.

Definition build_html (root : listing) : result str :=
  let cdir := content_dir root in
  let* (header, title, subtitle) := parse_title cdir in
  let* body_lines := parse_body cdir in
  let* sections := parse_sections cdir in
  let* buttons := parse_buttons cdir in
  let* beneficiarios := parse_beneficiarios cdir in
  let* registro := parse_registro cdir in
  let* contacto_lines := parse_contacto cdir in
  let* redes := parse_redes cdir in
  let hero_src := choose_main_image root in
  Ok (page header title subtitle hero_src
        (body_html body_lines)
        (beneficiarios_html beneficiarios)
        (buttons_html sections buttons)
        (registro_html registro)
        (accordion_block sections)
        (contacto_html contacto_lines redes)).

End Script.

(** ** A runtime for the examples

    The tables of the interpreter for the Basic Latin and Latin-1 blocks:
    the digits 0 to 9, the lower case and the canonical decomposition of
    the letters of the two blocks, the combining diacritical marks as the
    non-spacing marks, and a locale whose encoding is Latin-1.  The inputs
    of the examples stay inside the two blocks. *)
Module Latin.

(** The base letter and the mark of the letters C0 to DE, by position. *)
Definition decomposition : list (option (char * char)) :=
  [Some (65, 768); Some (65, 769); Some (65, 770); Some (65, 771);
   Some (65, 776); Some (65, 778); None; Some (67, 807);
   Some (69, 768); Some (69, 769); Some (69, 770); Some (69, 776);
   Some (73, 768); Some (73, 769); Some (73, 770); Some (73, 776);
   None; Some (78, 771); Some (79, 768); Some (79, 769);
   Some (79, 770); Some (79, 771); Some (79, 776); None;
   None; Some (85, 768); Some (85, 769); Some (85, 770);
   Some (85, 776); Some (89, 769); None; None]%N.

Definition nfd_char (c : char) : str :=
  if in_range 192 222 c then
    match nth (N.to_nat (c - 192)) decomposition None with
    | Some (b, m) => [b; m]
    | None => [c]
    end
  else if in_range 224 254 c then
    match nth (N.to_nat (c - 224)) decomposition None with
    | Some (b, m) => [(b + 32)%N; m]
    | None => [c]
    end
  else if N.eqb c 255 then [121; 776]%N
  else [c].

Definition lower_char (c : char) : char :=
  if in_range 65 90 c then (c + 32)%N
  else if in_range 192 222 c && negb (N.eqb c 215) then (c + 32)%N
  else c.

Definition decimal (c : char) : option N :=
  if in_range 48 57 c then Some (c - 48)%N else None.

Definition runtime : Runtime :=
  {| unicode_nfd := flat_map nfd_char;
     unicode_is_Mn := in_range 768 879;
     unicode_lower := map lower_char;
     unicode_decimal := decimal;
     decode_locale_replace := fun data => data |}.

End Latin.

(** ** The call depth of the renderer

    [render_inline] as far as its call stack goes: the depth of the
    recursive calls below a call, the loop adding nothing.  The fuel is
    that of [render_inline_fuel]. *)
Fixpoint render_inline_depth_fuel (fuel : nat) (allow_links : bool)
  (s : str) : option nat :=
  match fuel with
  | O => None
  | S fuel' =>
    match marker_at allow_links s with
    | None => Some 0
    | Some (Link g1 _ after) =>
        d1 <- render_inline_depth_fuel fuel' false g1 ;;
        d2 <- render_inline_depth_fuel fuel' allow_links after ;;
        Some (Nat.max (S d1) d2)
    | Some (Bold inner after) =>
        d1 <- render_inline_depth_fuel fuel' allow_links inner ;;
        d2 <- render_inline_depth_fuel fuel' allow_links after ;;
        Some (Nat.max (S d1) d2)
    | Some (Plain _ after) => render_inline_depth_fuel fuel' allow_links after
    end
  end.

(** What bounds the depth: links still allowed, an asterisk, a double
    asterisk; each recursive call gives one of them up. *)
Definition nesting_room (allow : bool) (s : str) : nat :=
  (if allow then 1 else 0)
  + (if contains (lit "*") s then 1 else 0)
  + (if contains (lit "**") s then 1 else 0).

(** Every [<] of [s] starts one of the four tags the renderer writes. *)
Fixpoint known_tags_only (s : str) : bool :=
  match s with
  | [] => true
  | c :: r =>
      (if N.eqb c (ch "<")
       then startswith (lit "strong>") r || startswith (lit "/strong>") r
            || startswith (html "a href=`") r || startswith (lit "/a>") r
       else true)
      && known_tags_only r
  end.

(** The characters at which a marker can start. *)
Definition marker_char (c : char) : bool :=
  N.eqb c (ch "*") || N.eqb c (ch "<").

(** ** What the script needs of the content directory

    The paths the loader reads, which have to be files, and the one it
    enumerates without a test, which has to be a directory. *)
Definition is_ok {A : Type} (r : result A) : bool :=
  match r with Ok _ => true | Raise _ => false end.

Definition is_file (path : node) : bool :=
  match path with File _ => true | Dir _ | Broken => false end.

(** An exception of the loader is one of a path of the wrong kind. *)
Definition kind_error {A : Type} (r : result A) : Prop :=
  match r with
  | Ok _ => True
  | Raise e =>
      e = IsADirectoryError \/ e = NotADirectoryError
      \/ e = FileNotFoundError
  end.

Section Checks.
Context {RT : Runtime}.

Definition section_entry_ok (e : str * node) : bool :=
  match match_numbered (lit "Des") (ch "-") (fst e) with
  | Some _ => is_file (snd e)
  | None => true
  end.

Definition button_entry_ok (e : str * node) : bool :=
  if str_eqb (unicode_lower (fst e)) (lit "pie.txt") then true
  else match match_numbered [] (ch ".") (fst e) with
       | Some _ => is_file (snd e)
       | None => true
       end.

Definition group_entry_ok (e : str * node) : bool :=
  match snd e with
  | File _ | Broken => true
  | Dir group_dir =>
      readable (lookup (lit "Pie.txt") group_dir)
      && forallb button_entry_ok (glob [] (lit ".txt") group_dir)
  end.

Definition content_ok (cdir : listing) : bool :=
  readable (lookup (lit "Titulo.txt") cdir)
  && readable (lookup (lit "Cuerpo.txt") cdir)
  && forallb section_entry_ok
       (glob (lit "Des") (lit ".txt")
          (entries_of (lookup (lit "Despegables") cdir)))
  && match lookup (lit "Botones") cdir with
     | None | Some Broken => true
     | Some (File _) => false
     | Some (Dir entries) => forallb group_entry_ok entries
     end
  && readable (lookup (lit "BENEFICIARIOS.txt") cdir)
  && match sorted path_le (glob (lit "REGISTRO") (lit ".txt") cdir) with
     | [] => true
     | (_, path) :: _ => is_file path
     end
  && readable (lookup (lit "Contacto.txt") cdir)
  && readable (lookup (lit "Redes.txt") cdir).

End Checks.

(** ** Labels that differ in accents, case or punctuation

    By the words of the format, for the letters of the Basic Latin and
    Latin-1 blocks: two labels are alike when one becomes the other by
    changing the case of letters, by putting or leaving out the accent of
    letters, written in the letter itself or as a combining mark after
    it, and by putting or leaving out punctuation and spaces.  The
    punctuation is that of Basic Latin, the angle brackets apart, which
    end a label, and the inverted marks, the guillemets and the middle
    dot of Latin-1. *)
Definition is_punctuation (c : char) : bool :=
  in_range 32 47 c || in_range 58 59 c || N.eqb c 61 || in_range 63 64 c
  || in_range 91 96 c || in_range 123 126 c
  || N.eqb c 161 || N.eqb c 171 || N.eqb c 183 || N.eqb c 187
  || N.eqb c 191.

Inductive alike : str -> str -> Prop :=
| alike_nil : alike [] []
| alike_same (c : char) (a b : str) :
    alike a b -> alike (c :: a) (c :: b)
| alike_case (c : char) (a b : str) :
    in_range 65 90 c = true ->
    alike a b -> alike (c :: a) ((c + 32)%N :: b)
| alike_accent (c base mark : char) (a b : str) :
    Latin.nfd_char c = [base; mark] ->
    alike a b -> alike (c :: a) (base :: b)
| alike_mark (m : char) (a b : str) :
    in_range 768 879 m = true -> alike a b -> alike (m :: a) b
| alike_punctuation (c : char) (a b : str) :
    is_punctuation c = true -> alike a b -> alike (c :: a) b
| alike_sym (a b : str) : alike a b -> alike b a
| alike_trans (a b c : str) : alike a b -> alike b c -> alike a c.

(** ** Data of the examples *)

Definition demo_sections : list Sec :=
  [ {| sec_order := 1; sec_title := lit "Cobertura Nacional";
       sec_items := [] |};
    {| sec_order := 12; sec_title := [69; 100; 117; 99; 97; 99; 105; 243; 110]%N;
       sec_items := [] |};
    {| sec_order := 3; sec_title := lit "Cobertura"; sec_items := [] |} ].

(** A content directory whose section files are enumerated out of
    order, among other entries. *)
Definition demo_despegables : listing :=
  [ (lit "Des2-B.txt", File (lit "second"));
    (lit "Des-x.txt", File (lit "no number"));
    (lit "Des1-A.txt", File (lit "first <http://a>")) ].

Definition demo_cdir : listing :=
  [ (lit "Despegables", Dir demo_despegables) ].

(** A content directory with two registration files and a beneficiary
    file whose last line has no address. *)
Definition demo_registro : listing :=
  [ (lit "REGISTRO-b.txt", File (lit "Otro"));
    (lit "BENEFICIARIOS.txt",
     File (lit "Para todos
Linea uno
Linea dos
Sin enlace"));
    (lit "REGISTRO 2026.txt",
     File (lit "
  Inscribete **ya**
Formulario <https://f.example/?a=1&b=2>
sin enlace
Bases < >
")) ].

(** A directory of buttons: a group with two buttons out of order, a
    footer and a file that is no button; a directory without buttons; a
    file. *)
Definition demo_botones : listing :=
  [ (lit "Vacio", Dir [(lit "Pie.txt", File (lit "nada"))]);
    (lit "leeme.txt", File (lit "x"));
    (lit "Indicadores",
     Dir [ (lit "2.Fallecidos.txt", File (lit "En vias
  urbanas y rurales"));
           (lit "Pie.txt", File (lit "Ver <Cobertura>"));
           (lit "notas.txt", File (lit "x"));
           (lit "1.Siniestros.txt", File (lit "Total")) ]) ].

(** * Properties *)

(** ** Strings *)

Lemma startswith_app (p s : str) : startswith p (p ++ s) = true.
Proof.
  induction p as [|x p IH]; simpl; [reflexivity|].
  now rewrite N.eqb_refl.
Qed.

Lemma startswith_split (p s : str) :
  startswith p s = true -> s = p ++ skipn (length p) s.
Proof.
  revert s; induction p as [|x p IH]; intros [|y s] H; simpl in *;
    try reflexivity; try discriminate.
  apply andb_true_iff in H as [Hxy Hp].
  apply N.eqb_eq in Hxy; subst y.
  now rewrite <- (IH s Hp).
Qed.

Lemma span_split (p : char -> bool) (s a b : str) :
  span p s = (a, b) -> s = a ++ b /\ forallb p a = true.
Proof.
  revert a b; induction s as [|c s IH]; intros a b H; simpl in H.
  - inversion H; subst; now split.
  - destruct (p c) eqn:Hc.
    + destruct (span p s) as [a' b'] eqn:Hs.
      inversion H; subst; clear H.
      destruct (IH a' b eq_refl) as [-> Hall].
      split; [reflexivity|]. simpl. now rewrite Hc.
    + inversion H; subst; now split.
Qed.

Lemma span_all (p : char -> bool) (a b : str) :
  forallb p a = true ->
  match b with [] => True | c :: _ => p c = false end ->
  span p (a ++ b) = (a, b).
Proof.
  induction a as [|x a IH]; simpl; intros Ha Hb.
  - destruct b as [|c b]; simpl; [reflexivity|]. now rewrite Hb.
  - apply andb_true_iff in Ha as [Hx Ha].
    now rewrite Hx, (IH Ha Hb).
Qed.

Lemma find_split (sub s : str) (e : nat) :
  find sub s = Some e ->
  s = firstn e s ++ sub ++ skipn (e + length sub) s.
Proof.
  revert e; induction s as [|c s IH]; intros e H; simpl in H.
  - destruct (startswith sub []) eqn:Hs; [|discriminate].
    inversion H; subst. now apply startswith_split in Hs.
  - destruct (startswith sub (c :: s)) eqn:Hs.
    + inversion H; subst. now apply startswith_split in Hs.
    + destruct (find sub s) as [e'|] eqn:Hf; [|discriminate].
      inversion H; subst; simpl.
      now rewrite <- (IH e' eq_refl).
Qed.

Lemma startswith_length (p s : str) :
  startswith p s = true -> length p <= length s.
Proof.
  revert s; induction p as [|x p IH]; intros [|y s] H; simpl in *;
    try lia; try discriminate.
  apply andb_true_iff in H as [_ Hp]. apply IH in Hp. lia.
Qed.

Lemma find_length (sub s : str) (e : nat) :
  find sub s = Some e -> e + length sub <= length s.
Proof.
  revert e; induction s as [|c s IH]; intros e H; simpl in H.
  - destruct (startswith sub []) eqn:Hs; [|discriminate].
    inversion H; subst. now apply startswith_length in Hs.
  - destruct (startswith sub (c :: s)) eqn:Hs.
    + inversion H; subst. now apply startswith_length in Hs.
    + destruct (find sub s) as [e'|] eqn:Hf; [|discriminate].
      inversion H; subst. specialize (IH e' eq_refl). simpl. lia.
Qed.

(** ** Escaping, character by character *)

Lemma replace_char_app (old : char) (new a b : str) :
  replace_char old new (a ++ b)
  = replace_char old new a ++ replace_char old new b.
Proof. unfold replace_char. apply flat_map_app. Qed.

Lemma esc_app (a b : str) : esc (a ++ b) = esc a ++ esc b.
Proof. unfold esc. now rewrite !replace_char_app. Qed.

Lemma esc_one (c : char) : esc [c] = esc_char c.
Proof.
  unfold esc, esc_char, replace_char, ch, dq. simpl N_of_ascii.
  destruct (N.eqb_spec c 38) as [->|H1]; [reflexivity|].
  destruct (N.eqb_spec c 60) as [->|H2]; [reflexivity|].
  destruct (N.eqb_spec c 62) as [->|H3]; [reflexivity|].
  destruct (N.eqb_spec c 34) as [->|H4]; [reflexivity|].
  destruct (N.eqb_spec c 39) as [->|H5]; [reflexivity|].
  apply N.eqb_neq in H1, H2, H3, H4, H5.
  simpl. rewrite H1. simpl. rewrite H2. simpl. rewrite H3. simpl.
  rewrite H4. simpl. now rewrite H5.
Qed.

Lemma esc_cons (c : char) (s : str) : esc (c :: s) = esc_char c ++ esc s.
Proof. now rewrite <- esc_one, <- esc_app. Qed.

Lemma esc_flat_map (s : str) : esc s = flat_map esc_char s.
Proof.
  induction s as [|c s IH]; [reflexivity|].
  now rewrite esc_cons, IH.
Qed.

Lemma span_rest (p : char -> bool) (s a b : str) :
  span p s = (a, b) ->
  match b with [] => True | c :: _ => p c = false end.
Proof.
  revert a b; induction s as [|c s IH]; intros a b H; simpl in H.
  - now inversion H.
  - destruct (p c) eqn:Hc.
    + destruct (span p s) as [a' b'] eqn:Hs.
      inversion H; subst. now apply (IH a').
    + now inversion H; subst.
Qed.

(** ** The link pattern *)

Lemma match_link_split (s g1 g2 after : str) :
  match_link s = Some (g1, g2, after) ->
  s = html "<link:`" ++ g1 ++ dq :: ch "=" :: g2 ++ ch ">" :: after
  /\ g1 <> [] /\ g2 <> []
  /\ forallb (not_char dq) g1 = true
  /\ forallb (not_char (ch ">")) g2 = true.
Proof.
  unfold match_link. intros H.
  destruct (startswith (html "<link:`") s) eqn:Hp; [|discriminate].
  apply startswith_split in Hp. change (length (html "<link:`")) with 7 in Hp.
  destruct (span _ (skipn 7 s)) as [a s2] eqn:H1.
  destruct a as [|x a]; [discriminate|].
  destruct s2 as [|q [|e s3]]; try discriminate.
  destruct (N.eqb_spec q dq) as [->|]; [|discriminate].
  destruct (N.eqb_spec e (ch "=")) as [->|]; [|discriminate].
  simpl in H.
  destruct (span _ s3) as [b s4] eqn:H2.
  destruct b as [|y b]; [discriminate|].
  destruct s4 as [|gt s5]; [discriminate|].
  inversion H; subst; clear H.
  pose proof (span_rest _ _ _ _ H2) as Hgt. simpl in Hgt.
  apply negb_false_iff, N.eqb_eq in Hgt. subst gt.
  apply span_split in H1 as [E1 A1]. apply span_split in H2 as [E2 A2].
  rewrite E2 in E1. rewrite E1 in Hp.
  repeat split; try discriminate; assumption.
Qed.

Lemma match_link_marker (txt url after : str) :
  txt <> [] -> url <> [] ->
  forallb (not_char dq) txt = true ->
  forallb (not_char (ch ">")) url = true ->
  match_link (html "<link:`" ++ txt ++ dq :: ch "=" :: url ++ ch ">" :: after)
  = Some (txt, url, after).
Proof.
  intros Ht Hu At Au. unfold match_link.
  rewrite startswith_app.
  replace (skipn 7 (html "<link:`" ++ txt ++ dq :: ch "=" :: url
                    ++ ch ">" :: after))
    with (txt ++ dq :: ch "=" :: url ++ ch ">" :: after) by reflexivity.
  rewrite (span_all (fun c => negb (N.eqb c dq)) txt _ At) by reflexivity.
  destruct txt as [|x txt]; [contradiction|].
  rewrite !N.eqb_refl. simpl andb. cbv iota.
  rewrite (span_all (fun c => negb (N.eqb c (ch ">"))) url _ Au)
    by reflexivity.
  destruct url as [|y url]; [contradiction|]. reflexivity.
Qed.

Lemma match_link_startswith (s : str) (r : str * str * str) :
  match_link s = Some r -> startswith (lit "<link:") s = true.
Proof.
  destruct r as [[g1 g2] after]. intros H.
  apply match_link_split in H as [-> _]. reflexivity.
Qed.

(** ** One turn of the loop *)

Lemma render_inline_fuel_unfold (fuel : nat) (allow : bool) (s : str) :
  render_inline_fuel (S fuel) allow s =
  match marker_at allow s with
  | None => Some []
  | Some (Link g1 g2 after) =>
      link_text <- render_inline_fuel fuel false g1 ;;
      tail <- render_inline_fuel fuel allow after ;;
      Some (anchor_blank (esc (strip g2)) link_text ++ tail)
  | Some (Bold inner after) =>
      inner' <- render_inline_fuel fuel allow inner ;;
      tail <- render_inline_fuel fuel allow after ;;
      Some (strong inner' ++ tail)
  | Some (Plain c after) =>
      tail <- render_inline_fuel fuel allow after ;;
      Some (esc [c] ++ tail)
  end.
Proof.
  destruct s as [|c rest]; [reflexivity|].
  unfold marker_at. cbn [render_inline_fuel].
  destruct (if allow && startswith (lit "<link:") (c :: rest)
            then match_link (c :: rest) else None) as [[[g1 g2] after]|];
    [reflexivity|].
  destruct (if startswith (lit "**") (c :: rest)
            then find (lit "**") (skipn 2 (c :: rest)) else None);
    [reflexivity|].
  destruct (if N.eqb c (ch "*") then find (lit "*") rest else None);
    reflexivity.
Qed.

Lemma substring_length (t s : str) : substring t s -> length t <= length s.
Proof.
  intros (pre & post & ->). rewrite !length_app. lia.
Qed.

(** Every text the renderer goes on with after a marker is a part of the
    text it is at, and shorter. *)
Lemma marker_args_shorter (allow : bool) (s : str) (m : marker) (t : str) :
  marker_at allow s = Some m -> In t (marker_args m) ->
  substring t s /\ length t < length s.
Proof.
  destruct s as [|c rest]; [discriminate|].
  unfold marker_at.
  destruct (if allow && startswith (lit "<link:") (c :: rest)
            then match_link (c :: rest) else None)
    as [[[g1 g2] after]|] eqn:Hl.
  { destruct (allow && startswith (lit "<link:") (c :: rest));
      [|discriminate].
    apply match_link_split in Hl as (E & _).
    intros H; inversion H; subst m; clear H. rewrite E.
    intros [<-|[<-|[]]]; split.
    - exists (html "<link:`"), (dq :: ch "=" :: g2 ++ ch ">" :: after).
      reflexivity.
    - rewrite !length_app. simpl. lia.
    - exists (html "<link:`" ++ g1 ++ dq :: ch "=" :: g2 ++ [ch ">"]), [].
      rewrite app_nil_r, <- !app_assoc. simpl. now rewrite <- !app_assoc.
    - rewrite !length_app. simpl. rewrite !length_app. simpl. lia. }
  destruct (if startswith (lit "**") (c :: rest)
            then find (lit "**") (skipn 2 (c :: rest)) else None)
    as [e|] eqn:Hb.
  { destruct (startswith (lit "**") (c :: rest)) eqn:Hs; [|discriminate].
    apply startswith_split in Hs. change (length (lit "**")) with 2 in Hs.
    remember (skipn 2 (c :: rest)) as r2 eqn:Hr2.
    pose proof (find_split _ _ _ Hb) as E.
    pose proof (find_length _ _ _ Hb) as Hlen.
    change (length (lit "**")) with 2 in E, Hlen.
    intros H; inversion H; subst m; clear H.
    assert (Hl2 : length (c :: rest) = 2 + length r2).
    { rewrite Hs at 1. now rewrite length_app. }
    intros [<-|[<-|[]]]; split.
    - exists (lit "**"), (lit "**" ++ skipn (e + 2) r2).
      rewrite Hs at 1. now rewrite E at 1.
    - rewrite Hl2, length_firstn. lia.
    - exists (lit "**" ++ firstn e r2 ++ lit "**"), [].
      rewrite app_nil_r, <- !app_assoc. rewrite Hs at 1. now rewrite E at 1.
    - rewrite Hl2, length_skipn. lia. }
  destruct (if N.eqb c (ch "*") then find (lit "*") rest else None)
    as [e|] eqn:Hc.
  { destruct (N.eqb c (ch "*")); [|discriminate].
    pose proof (find_split _ _ _ Hc) as E.
    pose proof (find_length _ _ _ Hc) as Hlen.
    change (length (lit "*")) with 1 in E, Hlen.
    intros H; inversion H; subst m; clear H.
    intros [<-|[<-|[]]]; split.
    - exists [c], (lit "*" ++ skipn (e + 1) rest).
      simpl. now rewrite E at 1.
    - simpl. rewrite length_firstn. lia.
    - exists (c :: firstn e rest ++ lit "*"), [].
      rewrite app_nil_r. simpl. rewrite <- app_assoc. now rewrite E at 1.
    - simpl. rewrite length_skipn. lia. }
  intros H; inversion H; subst m; clear H.
  intros [<-|[]]; split; [exists [c], []; now rewrite app_nil_r|simpl; lia].
Qed.

(** ** Fuel *)

Lemma render_inline_fuel_total (fuel : nat) :
  forall allow s, length s < fuel ->
  exists out, render_inline_fuel fuel allow s = Some out.
Proof.
  induction fuel as [|fuel IH]; intros allow s Hlt; [lia|].
  rewrite render_inline_fuel_unfold.
  destruct (marker_at allow s) as [m|] eqn:Hm; [|now exists []].
  assert (Hlen : forall t, In t (marker_args m) -> length t < fuel).
  { intros t Ht. pose proof (proj2 (marker_args_shorter _ _ _ _ Hm Ht)). lia. }
  destruct m as [g1 g2 after|inner after|c after]; simpl in Hlen.
  - destruct (IH false g1) as [o1 ->]; [auto|].
    destruct (IH allow after) as [o2 ->]; [auto|]. eauto.
  - destruct (IH allow inner) as [o1 ->]; [auto|].
    destruct (IH allow after) as [o2 ->]; [auto|]. eauto.
  - destruct (IH allow after) as [o2 ->]; [auto|]. eauto.
Qed.

Lemma render_inline_fuel_irrelevant (f1 : nat) :
  forall f2 allow s, length s < f1 -> length s < f2 ->
  render_inline_fuel f1 allow s = render_inline_fuel f2 allow s.
Proof.
  induction f1 as [|f1 IH]; intros [|f2] allow s H1 H2; try lia.
  rewrite !render_inline_fuel_unfold.
  destruct (marker_at allow s) as [m|] eqn:Hm; [|reflexivity].
  assert (Hlen : forall t, In t (marker_args m) -> length t < length s).
  { intros t Ht. exact (proj2 (marker_args_shorter _ _ _ _ Hm Ht)). }
  destruct m as [g1 g2 after|inner after|c after]; simpl in Hlen.
  - assert (length g1 < length s) by auto.
    assert (length after < length s) by auto.
    rewrite (IH f2 false g1), (IH f2 allow after) by lia. reflexivity.
  - assert (length inner < length s) by auto.
    assert (length after < length s) by auto.
    rewrite (IH f2 allow inner), (IH f2 allow after) by lia. reflexivity.
  - assert (length after < length s) by auto.
    rewrite (IH f2 allow after) by lia. reflexivity.
Qed.

Lemma render_inline_fuel_enough (fuel : nat) (allow : bool) (s : str) :
  length s < fuel ->
  render_inline_fuel fuel allow s = Some (render_inline allow s).
Proof.
  intros Hlt. unfold render_inline.
  destruct (render_inline_fuel_total fuel allow s Hlt) as [out Hout].
  rewrite Hout.
  now rewrite (render_inline_fuel_irrelevant (S (length s)) fuel), Hout
    by lia.
Qed.

(** The renderer, by the marker at the head of its text. *)
Lemma render_inline_marker (allow : bool) (s : str) :
  render_inline allow s =
  match marker_at allow s with
  | None => []
  | Some (Link g1 g2 after) =>
      anchor_blank (esc (strip g2)) (render_inline false g1)
      ++ render_inline allow after
  | Some (Bold inner after) =>
      strong (render_inline allow inner) ++ render_inline allow after
  | Some (Plain c after) => esc_char c ++ render_inline allow after
  end.
Proof.
  unfold render_inline at 1. rewrite render_inline_fuel_unfold.
  destruct (marker_at allow s) as [m|] eqn:Hm; [|reflexivity].
  assert (Hlen : forall t, In t (marker_args m) -> length t < length s).
  { intros t Ht. exact (proj2 (marker_args_shorter _ _ _ _ Hm Ht)). }
  destruct m as [g1 g2 after|inner after|c after]; simpl in Hlen.
  - rewrite !render_inline_fuel_enough by auto. reflexivity.
  - rewrite !render_inline_fuel_enough by auto. reflexivity.
  - rewrite !render_inline_fuel_enough by auto. now rewrite esc_one.
Qed.

Lemma render_inline_nil (allow : bool) : render_inline allow [] = [].
Proof. reflexivity. Qed.

(** Induction over the calls of the renderer: a property of its result
    that every marker passes on from the texts it goes on with. *)
Lemma render_inline_ind (P : bool -> str -> str -> Prop) :
  (forall allow, P allow [] []) ->
  (forall allow s g1 g2 after,
      marker_at allow s = Some (Link g1 g2 after) ->
      P false g1 (render_inline false g1) ->
      P allow after (render_inline allow after) ->
      P allow s (anchor_blank (esc (strip g2)) (render_inline false g1)
                 ++ render_inline allow after)) ->
  (forall allow s inner after,
      marker_at allow s = Some (Bold inner after) ->
      P allow inner (render_inline allow inner) ->
      P allow after (render_inline allow after) ->
      P allow s (strong (render_inline allow inner)
                 ++ render_inline allow after)) ->
  (forall allow s c after,
      marker_at allow s = Some (Plain c after) ->
      P allow after (render_inline allow after) ->
      P allow s (esc_char c ++ render_inline allow after)) ->
  forall allow s, P allow s (render_inline allow s).
Proof.
  intros Hnil Hlink Hbold Hplain allow s.
  remember (length s) as n eqn:Hn.
  revert allow s Hn.
  induction n as [n IH] using (well_founded_induction lt_wf).
  intros allow s ->.
  rewrite render_inline_marker.
  destruct (marker_at allow s) as [m|] eqn:Hm.
  - assert (Hlen : forall t, In t (marker_args m) -> length t < length s).
    { intros t Ht. exact (proj2 (marker_args_shorter _ _ _ _ Hm Ht)). }
    destruct m as [g1 g2 after|inner after|c after]; simpl in Hlen.
    + apply Hlink; [assumption| |].
      * apply (IH (length g1)); auto.
      * apply (IH (length after)); auto.
    + apply Hbold; [assumption| |].
      * apply (IH (length inner)); auto.
      * apply (IH (length after)); auto.
    + apply Hplain; [assumption|]. apply (IH (length after)); auto.
  - destruct s; [apply Hnil|].
    unfold marker_at in Hm.
    repeat match type of Hm with
           | match ?x with _ => _ end = _ => destruct x as [[[? ?] ?]|]
           | match ?x with _ => _ end = _ => destruct x
           end; discriminate.
Qed.

(** ** Text without markers *)

Lemma count_char_cons (x c : char) (s : str) :
  count_char x (c :: s)
  = (if N.eqb x c then 1 else 0) + count_char x s.
Proof. unfold count_char. simpl. now destruct (N.eqb x c). Qed.

Lemma find_char_none (x : char) (s : str) :
  count_char x s = 0 -> find [x] s = None.
Proof.
  induction s as [|c s IH]; [reflexivity|].
  rewrite count_char_cons. intros H.
  destruct (N.eqb x c) eqn:E; [discriminate|].
  simpl. rewrite E. simpl. now rewrite IH.
Qed.

(** A character at which no marker starts is escaped, and the loop goes
    on behind it. *)
Lemma marker_at_plain (allow : bool) (c : char) (rest : str) :
  (allow = true -> match_link (c :: rest) = None) ->
  (c = ch "*" -> count_char (ch "*") rest = 0) ->
  marker_at allow (c :: rest) = Some (Plain c rest).
Proof.
  intros Hlink Hstar. unfold marker_at.
  assert (E1 : (if allow && startswith (lit "<link:") (c :: rest)
                then match_link (c :: rest) else None) = None).
  { destruct allow; [|reflexivity]. rewrite Hlink by reflexivity.
    now destruct (_ && _). }
  rewrite E1.
  destruct (N.eqb_spec c (ch "*")) as [->|Hc].
  - specialize (Hstar eq_refl).
    change (lit "*") with [ch "*"].
    rewrite (find_char_none (ch "*") rest Hstar).
    destruct rest as [|d rest]; [reflexivity|].
    rewrite count_char_cons in Hstar.
    destruct (N.eqb (ch "*") d) eqn:E; [discriminate|].
    change (startswith (lit "**") (ch "*" :: d :: rest))
      with (N.eqb (ch "*") d && true). now rewrite E.
  - assert (E2 : startswith (lit "**") (c :: rest) = false).
    { change (startswith (lit "**") (c :: rest))
        with (N.eqb (ch "*") c && startswith (lit "*") rest).
      rewrite N.eqb_sym. apply N.eqb_neq in Hc. now rewrite Hc. }
    now rewrite E2.
Qed.

Lemma render_inline_plain (allow : bool) (s : str) :
  count_char (ch "*") s <= 1 ->
  (allow = true -> link_free s = true) ->
  render_inline allow s = esc s.
Proof.
  induction s as [|c s IH]; intros Hstar Hlink; [reflexivity|].
  rewrite count_char_cons in Hstar.
  rewrite render_inline_marker, marker_at_plain.
  - rewrite esc_cons, IH; [reflexivity|destruct (N.eqb (ch "*") c); lia|].
    intros Ha. specialize (Hlink Ha). simpl in Hlink.
    now apply andb_true_iff in Hlink.
  - intros Ha. specialize (Hlink Ha). simpl in Hlink.
    apply andb_true_iff in Hlink as [Hl _].
    now destruct (match_link (c :: s)).
  - intros ->. rewrite N.eqb_refl in Hstar. lia.
Qed.

Lemma entities_only_esc (s : str) : entities_only (esc s) = true.
Proof.
  induction s as [|c s IH]; [reflexivity|].
  rewrite esc_cons. unfold esc_char, ch, dq. simpl N_of_ascii.
  destruct (N.eqb_spec c 38) as [->|H1]; [exact IH|].
  destruct (N.eqb_spec c 60) as [->|H2]; [exact IH|].
  destruct (N.eqb_spec c 62) as [->|H3]; [exact IH|].
  destruct (N.eqb_spec c 34) as [->|H4]; [exact IH|].
  destruct (N.eqb_spec c 39) as [->|H5]; [exact IH|].
  apply N.eqb_neq in H1, H2, H3, H4, H5.
  simpl. unfold ch, dq. simpl N_of_ascii.
  now rewrite H1, H2, H3, H4, H5.
Qed.

(** Escaping a second time is not the identity: every entity starts with
    an ampersand, which is escaped again. *)
Lemma esc_char_length (c : char) : 1 <= length (esc_char c).
Proof.
  unfold esc_char.
  repeat match goal with |- context [if ?b then _ else _] => destruct b end;
    simpl; lia.
Qed.

Lemma esc_length_le (t : str) : length t <= length (esc t).
Proof.
  induction t as [|c t IH]; [reflexivity|].
  rewrite esc_cons, length_app. pose proof (esc_char_length c). simpl. lia.
Qed.

Lemma esc_length_lt (t : str) :
  In (ch "&") t -> length t < length (esc t).
Proof.
  induction t as [|c t IH]; [contradiction|].
  rewrite esc_cons, length_app. pose proof (esc_length_le t).
  pose proof (esc_char_length c).
  intros [->|Hin]; [simpl; lia|]. specialize (IH Hin). simpl. lia.
Qed.

Lemma esc_char_special (c : char) :
  html_special c = true -> In (ch "&") (esc_char c).
Proof.
  unfold html_special, esc_char.
  destruct (N.eqb c (ch "&")); [now left|].
  destruct (N.eqb c (ch "<")); [now left|].
  destruct (N.eqb c (ch ">")); [now left|].
  destruct (N.eqb c dq); [now left|].
  destruct (N.eqb c (ch "'")); [now left|discriminate].
Qed.

Lemma esc_twice_differs (s : str) (c : char) :
  In c s -> html_special c = true -> esc (esc s) <> esc s.
Proof.
  intros Hin Hc Heq.
  assert (Hamp : In (ch "&") (esc s)).
  { rewrite esc_flat_map. apply in_flat_map. exists c. split; [assumption|].
    now apply esc_char_special. }
  apply esc_length_lt in Hamp. rewrite Heq in Hamp. lia.
Qed.

(** ** Without links, no anchor *)

Lemma startswith_app_l (p r b : str) :
  startswith p r = true -> startswith p (r ++ b) = true.
Proof.
  revert r; induction p as [|x p IH]; intros [|y r] H; simpl in *;
    try reflexivity; try discriminate.
  apply andb_true_iff in H as [Hxy Hp]. now rewrite Hxy, IH.
Qed.

Lemma only_strong_tags_app (a b : str) :
  only_strong_tags a = true -> only_strong_tags b = true ->
  only_strong_tags (a ++ b) = true.
Proof.
  induction a as [|c a IH]; intros Ha Hb; [exact Hb|].
  cbn [only_strong_tags app] in *. apply andb_true_iff in Ha as [Hc Ha].
  rewrite (IH Ha Hb), andb_true_r.
  destruct (N.eqb c (ch "<")); [|reflexivity].
  apply orb_true_iff in Hc as [H|H];
    rewrite (startswith_app_l _ _ b H); [reflexivity|apply orb_true_r].
Qed.

Lemma only_strong_tags_esc_char (c : char) :
  only_strong_tags (esc_char c) = true.
Proof.
  unfold esc_char.
  destruct (N.eqb c (ch "&")); [reflexivity|].
  destruct (N.eqb c (ch "<")) eqn:E; [reflexivity|].
  destruct (N.eqb c (ch ">")); [reflexivity|].
  destruct (N.eqb c dq); [reflexivity|].
  destruct (N.eqb c (ch "'")); [reflexivity|].
  cbn [only_strong_tags]. now rewrite E.
Qed.

Lemma marker_at_no_link (s g1 g2 after : str) :
  marker_at false s <> Some (Link g1 g2 after).
Proof.
  destruct s as [|c rest]; [discriminate|].
  unfold marker_at. cbn [andb].
  repeat match goal with
         | |- match ?x with _ => _ end <> _ => destruct x
         end; discriminate.
Qed.

Lemma render_inline_only_strong (s : str) :
  only_strong_tags (render_inline false s) = true.
Proof.
  apply (render_inline_ind
           (fun allow _ out => allow = false -> only_strong_tags out = true));
    [reflexivity| | | |reflexivity].
  - intros allow s0 g1 g2 after Hm _ _ ->.
    now apply marker_at_no_link in Hm.
  - intros allow s0 inner after _ Hi Ha E. unfold strong.
    rewrite <- !app_assoc.
    apply (only_strong_tags_app (html "<strong>")); [reflexivity|].
    apply only_strong_tags_app; [auto|].
    apply (only_strong_tags_app (html "</strong>")); [reflexivity|auto].
  - intros allow s0 c after _ Ha E.
    apply only_strong_tags_app; [apply only_strong_tags_esc_char|auto].
Qed.

Lemma only_strong_tags_no_anchor (out : str) :
  only_strong_tags out = true -> contains (lit "<a") out = false.
Proof.
  unfold contains.
  induction out as [|c out IH]; intros H; [reflexivity|].
  cbn [only_strong_tags] in H. apply andb_true_iff in H as [Hc H].
  specialize (IH H).
  cbn [find].
  assert (E : startswith (lit "<a") (c :: out) = false).
  { change (startswith (lit "<a") (c :: out))
      with (N.eqb (ch "<") c && startswith (lit "a") out).
    rewrite N.eqb_sym.
    destruct (N.eqb c (ch "<")); [|reflexivity].
    destruct out as [|d out]; [reflexivity|].
    change (startswith (lit "a") (d :: out)) with (N.eqb (ch "a") d && true).
    destruct (N.eqb_spec (ch "a") d) as [<-|]; [|reflexivity].
    discriminate. }
  rewrite E. now destruct (find (lit "<a") out).
Qed.

(** ** Bold *)

Lemma find_after_plain (x : char) (inner rest : str) :
  count_char x inner = 0 ->
  find [x; x] (inner ++ x :: x :: rest) = Some (length inner).
Proof.
  induction inner as [|c inner IH]; intros H.
  - simpl. now rewrite N.eqb_refl.
  - rewrite count_char_cons in H.
    destruct (N.eqb x c) eqn:E; [discriminate|].
    simpl. rewrite E. simpl. now rewrite (IH H).
Qed.

Lemma marker_at_bold (allow : bool) (inner rest : str) :
  count_char (ch "*") inner = 0 ->
  marker_at allow (lit "**" ++ inner ++ lit "**" ++ rest)
  = Some (Bold inner rest).
Proof.
  intros H. unfold marker_at.
  change (lit "**" ++ inner ++ lit "**" ++ rest)
    with (ch "*" :: ch "*" :: inner ++ ch "*" :: ch "*" :: rest).
  assert (E1 : (if allow && startswith (lit "<link:")
                     (ch "*" :: ch "*" :: inner ++ ch "*" :: ch "*" :: rest)
                then match_link
                       (ch "*" :: ch "*" :: inner ++ ch "*" :: ch "*" :: rest)
                else None) = None).
  { now destruct allow. }
  rewrite E1.
  change (startswith (lit "**")
            (ch "*" :: ch "*" :: inner ++ ch "*" :: ch "*" :: rest))
    with true.
  cbn [skipn]. change (lit "**") with [ch "*"; ch "*"].
  rewrite (find_after_plain (ch "*") inner rest H).
  rewrite firstn_app, Nat.sub_diag, firstn_all. simpl firstn.
  rewrite app_nil_r.
  rewrite skipn_app.
  replace (length inner + 2 - length inner) with 2 by lia.
  rewrite skipn_all2 by lia. reflexivity.
Qed.

Lemma marker_at_link (s g1 g2 after : str) :
  match_link s = Some (g1, g2, after) ->
  marker_at true s = Some (Link g1 g2 after).
Proof.
  intros H. pose proof (match_link_startswith s _ H) as Hs.
  destruct s as [|c rest]; [discriminate|].
  unfold marker_at. cbn [andb]. now rewrite Hs, H.
Qed.

(** ** The claims on the inline-markup renderer *)

(** C9: the inline-markup renderer terminates on every text.  Any fuel
    above the length of the text gives its result, whatever the nesting of
    the markers, and every text the renderer goes on with after a marker,
    the inside of the marker by a recursive call and the rest of the text
    by the loop, is a part of the text it is at and strictly shorter. *)
Theorem render_inline_terminates (allow : bool) (text : str) :
  (forall fuel, length text < fuel ->
     render_inline_fuel fuel allow text = Some (render_inline allow text))
  /\ (forall m t, marker_at allow text = Some m -> In t (marker_args m) ->
        substring t text /\ length t < length text).
Proof.
  split.
  - intros fuel Hlt. now apply render_inline_fuel_enough.
  - intros m t. apply marker_args_shorter.
Qed.

Lemma render_inline_terminates_witness :
  render_inline_fuel 40 true (html "**a *b* <link:`*c*`=d>** e")
  = Some (render_inline true (html "**a *b* <link:`*c*`=d>** e")).
Proof.
  apply (proj1 (render_inline_terminates true
                  (html "**a *b* <link:`*c*`=d>** e"))).
  vm_compute. lia.
Defined.

(** C1, as stated, fails: two asterisks that no second pair closes are not
    output literally.  The single-asterisk rule takes the second asterisk
    for the closing one, so [**oops] comes out as an empty [strong]
    element followed by [oops], the asterisks gone; and an asterisk that
    nothing closes does not stop the scan, so a complete link marker after
    it is still rendered as an anchor. *)
Lemma unterminated_marker_not_literal :
  find (lit "**") (skipn 2 (lit "**oops")) = None
  /\ render_inline true (lit "**oops") = html "<strong></strong>oops"
  /\ render_inline true (lit "**oops") <> esc (lit "**oops")
  /\ render_inline true (html "*a <link:`x`=y>")
     = html "*a <a href=`y` target=`_blank` rel=`noopener`>x</a>".
Proof.
  repeat split; try (vm_compute; reflexivity).
  vm_compute. discriminate.
Qed.

(** C1, amended: a character at which no marker starts, such as an
    asterisk with no asterisk after it or the [<] of a [<link:] that is
    not a complete link marker, is output HTML-escaped and the scan goes
    on at the next character; and a text with at most one asterisk and,
    where links are allowed, no complete link marker at any position is
    output HTML-escaped character by character, with nothing dropped and
    no tag. *)
Theorem unterminated_marker_literal (allow : bool) :
  (forall c rest,
     (allow = true -> match_link (c :: rest) = None) ->
     (c = ch "*" -> count_char (ch "*") rest = 0) ->
     render_inline allow (c :: rest) = esc_char c ++ render_inline allow rest)
  /\ (forall s,
        count_char (ch "*") s <= 1 ->
        (allow = true -> link_free s = true) ->
        render_inline allow s = flat_map esc_char s).
Proof.
  split.
  - intros c rest Hlink Hstar.
    now rewrite render_inline_marker, marker_at_plain.
  - intros s Hstar Hlink. rewrite <- esc_flat_map.
    now apply render_inline_plain.
Qed.

Lemma unterminated_marker_literal_witness :
  render_inline true (html "a *oops <link:`x & y")
  = html "a *oops &lt;link:&quot;x &amp; y".
Proof.
  rewrite (proj2 (unterminated_marker_literal true)
             (html "a *oops <link:`x & y")).
  - reflexivity.
  - vm_compute. lia.
  - reflexivity.
Defined.

(** C6, as stated, fails: escaping is not idempotent.  Escaping the
    escaped text once more escapes the ampersand of every entity again,
    and the renderer does so too on its own output. *)
Lemma escaping_not_idempotent :
  esc (lit "&") = lit "&amp;"
  /\ esc (esc (lit "&")) = lit "&amp;amp;"
  /\ render_inline true (lit "<") = lit "&lt;"
  /\ render_inline true (render_inline true (lit "<")) = lit "&amp;lt;".
Proof. repeat split; vm_compute; reflexivity. Qed.

(** C6, amended: for a text without markers, no asterisk and, where links
    are allowed, no complete link marker, the renderer gives exactly what
    [esc] gives; in it the characters HTML reserves occur only in the five
    entities, never raw; and escaping is not idempotent: as soon as the
    text holds one of those characters, escaping the result once more
    changes it. *)
Theorem plain_text_escaped_once (allow : bool) (s : str) :
  count_char (ch "*") s = 0 ->
  (allow = true -> link_free s = true) ->
  render_inline allow s = esc s
  /\ entities_only (render_inline allow s) = true
  /\ (forall c, In c s -> html_special c = true ->
        esc (render_inline allow s) <> render_inline allow s).
Proof.
  intros Hstar Hlink.
  assert (E : render_inline allow s = esc s)
    by (apply render_inline_plain; [lia|assumption]).
  rewrite E. repeat split.
  - apply entities_only_esc.
  - intros c Hin Hc. now apply (esc_twice_differs s c).
Qed.

Lemma plain_text_escaped_once_witness :
  render_inline true (html "a < b & `c` > 'd'")
  = html "a &lt; b &amp; &quot;c&quot; &gt; &#x27;d&#x27;".
Proof.
  rewrite (proj1 (plain_text_escaped_once true
                    (html "a < b & `c` > 'd'") eq_refl (fun _ => eq_refl))).
  reflexivity.
Defined.

(** C8: a link marker at which the renderer stands, with links allowed,
    becomes an anchor that opens in a new tab, with the address stripped
    and escaped; its content is the text of the marker rendered with links
    off.  That rendering honours the bold markers and holds no tag but
    [strong], so no anchor is ever nested in the anchor. *)
Theorem link_marker_anchor (txt url after : str) :
  txt <> [] -> url <> [] ->
  forallb (not_char dq) txt = true ->
  forallb (not_char (ch ">")) url = true ->
  render_inline true
    (html "<link:`" ++ txt ++ html "`=" ++ url ++ lit ">" ++ after)
  = html "<a href=`" ++ esc (strip url)
    ++ html "` target=`_blank` rel=`noopener`>"
    ++ render_inline false txt ++ html "</a>"
    ++ render_inline true after
  /\ only_strong_tags (render_inline false txt) = true
  /\ contains (lit "<a") (render_inline false txt) = false
  /\ (forall inner rest, count_char (ch "*") inner = 0 ->
        render_inline false (lit "**" ++ inner ++ lit "**" ++ rest)
        = html "<strong>" ++ render_inline false inner ++ html "</strong>"
          ++ render_inline false rest).
Proof.
  intros Ht Hu At Au. repeat split.
  - rewrite render_inline_marker.
    change (html "<link:`" ++ txt ++ html "`=" ++ url ++ lit ">" ++ after)
      with (html "<link:`" ++ txt ++ dq :: ch "=" :: url ++ ch ">" :: after).
    rewrite (marker_at_link _ _ _ _
               (match_link_marker txt url after Ht Hu At Au)).
    unfold anchor_blank. now rewrite <- ?app_assoc.
  - apply render_inline_only_strong.
  - apply only_strong_tags_no_anchor, render_inline_only_strong.
  - intros inner rest H.
    rewrite render_inline_marker, (marker_at_bold false inner rest H).
    unfold strong. now rewrite <- ?app_assoc.
Qed.

Lemma link_marker_anchor_witness :
  render_inline true (html "<link:`**go** <link:x>`= http://x?a&b >!")
  = html "<a href=`http://x?a&amp;b` target=`_blank` rel=`noopener`><strong>go</strong> &lt;link:x&gt;</a>!".
Proof.
  etransitivity.
  - apply (proj1 (link_marker_anchor (lit "**go** <link:x>")
                    (lit " http://x?a&b ") (lit "!")
                    ltac:(discriminate) ltac:(discriminate)
                    eq_refl eq_refl)).
  - reflexivity.
Defined.

(** The example of the format: bold and a link in one line. *)
Lemma render_inline_bold_and_link :
  render_inline true (html "**bold** and <link:`go`=http://x>")
  = html "<strong>bold</strong> and <a href=`http://x` target=`_blank` rel=`noopener`>go</a>".
Proof. vm_compute. reflexivity. Qed.

(** ** Reading a file *)

Section Reading.
Context {RT : Runtime}.

Lemma decode_utf8_error (data : bytes) (e : exn) :
  decode_utf8 data = Raise e -> e = UnicodeDecodeError.
Proof.
  remember (length data) as n eqn:Hn. revert data Hn e.
  induction n as [n IH] using (well_founded_induction lt_wf).
  intros data -> e.
  assert (Hrec : forall r, length r < length data ->
            forall e, decode_utf8 r = Raise e -> e = UnicodeDecodeError).
  { intros r Hr e0. now apply (IH (length r)). }
  clear IH.
  destruct data as [|b0 r0]; [discriminate|]. cbn [decode_utf8].
  repeat match goal with
  | |- Raise _ = Raise _ -> _ => let H := fresh in intros H; now inversion H
  | |- Ok _ = Raise _ -> _ => discriminate
  | |- context [if ?b then _ else _] => destruct b
  | |- context [match decode_utf8 ?r with _ => _ end] =>
      let E := fresh "E" in
      destruct (decode_utf8 r) eqn:E;
      [|apply Hrec in E; [subst|simpl; lia]]
  | |- context [match ?r with [] => _ | _ :: _ => _ end] => destruct r
  end.
Qed.

Lemma decode_cp1252_error (data : bytes) (e : exn) :
  decode_cp1252 data = Raise e -> e = UnicodeDecodeError.
Proof.
  induction data as [|b r IH]; [discriminate|]. simpl.
  destruct (cp1252_char b); [|now inversion 1].
  destruct (decode_cp1252 r); [discriminate|].
  intros H; inversion H; subst. now apply IH.
Qed.

Lemma decode_error (enc : encoding) (data : bytes) (e : exn) :
  decode enc data = Raise e -> e = UnicodeDecodeError.
Proof.
  destruct enc; simpl.
  - unfold decode_utf8_sig.
    destruct (Nat.ltb (length data) 3).
    + destruct (startswith data BOM_UTF8);
        [discriminate|apply decode_utf8_error].
    + destruct (startswith BOM_UTF8 data); apply decode_utf8_error.
  - apply decode_cp1252_error.
  - discriminate.
Qed.

Lemma read_text_try_ok (encs : list encoding) (data : bytes) :
  exists text, read_text_try encs data = Ok text.
Proof.
  induction encs as [|enc more IH]; simpl; [eauto|].
  destruct (decode enc data) as [s|e] eqn:E; [eauto|].
  apply decode_error in E. now subst.
Qed.

Lemma read_text_try_first (encs : list encoding) (data : bytes) :
  read_text_try encs data
  = Ok (universal_newlines
          match List.find (fun enc => is_ok (decode enc data)) encs with
          | Some enc =>
              match decode enc data with Ok s => s | Raise _ => [] end
          | None => decode_locale_replace data
          end).
Proof.
  induction encs as [|enc more IH]; [reflexivity|].
  cbn [read_text_try List.find].
  destruct (decode enc data) as [s|e] eqn:E; cbn [is_ok].
  - now rewrite E.
  - apply decode_error in E. subst e. exact IH.
Qed.

(** C7: reading an existing file never raises, whatever its bytes.  The
    encodings are tried in the order utf-8-sig, cp1252, latin-1 and the
    first that decodes gives the text, its line ends translated; a
    decoder fails with the decoding error only, which the loop catches,
    and latin-1 decodes every byte, so one of the three always does and
    the statement after the loop is never reached: the text does not
    depend on the decoder of the locale.  The loop itself, over any list
    of encodings, gives the text of the first encoding of the list that
    decodes and, when none does, the decoding with replacement: a string
    in every case. *)
Theorem read_text_never_raises (data : bytes) :
  (exists text, read_text (File data) = Ok text)
  /\ read_text (File data)
     = Ok (universal_newlines
             match decode Utf8Sig data with
             | Ok s => s
             | Raise _ =>
                 match decode Cp1252 data with
                 | Ok s => s
                 | Raise _ => data
                 end
             end)
  /\ (forall enc e, decode enc data = Raise e -> e = UnicodeDecodeError)
  /\ decode Latin1 data = Ok data
  /\ (forall RT' : Runtime,
        read_text (RT := RT') (File data) = read_text (File data))
  /\ (forall encs,
        read_text_try encs data
        = Ok (universal_newlines
                match List.find (fun enc => is_ok (decode enc data)) encs with
                | Some enc =>
                    match decode enc data with Ok s => s | Raise _ => [] end
                | None => decode_locale_replace data
                end)).
Proof.
  assert (E : forall RT' : Runtime,
            read_text (RT := RT') (File data)
            = Ok (universal_newlines
                    match decode Utf8Sig data with
                    | Ok s => s
                    | Raise _ =>
                        match decode Cp1252 data with
                        | Ok s => s
                        | Raise _ => data
                        end
                    end)).
  { intros RT'. unfold read_text, read_text_try.
    destruct (decode Utf8Sig data) as [s|e] eqn:E1; [reflexivity|].
    apply decode_error in E1; subst e.
    destruct (decode Cp1252 data) as [s|e] eqn:E2; [reflexivity|].
    apply decode_error in E2; subst e. reflexivity. }
  split; [apply read_text_try_ok|].
  split; [apply E|].
  split; [intros enc e; apply decode_error|].
  split; [reflexivity|].
  split; [intros RT'; now rewrite !E|].
  intros encs. apply read_text_try_first.
Qed.

End Reading.

Lemma read_text_never_raises_witness :
  read_text (RT := Latin.runtime) (File [72; 13; 10; 129; 255]%N)
  = Ok [72; 10; 129; 255]%N
  /\ read_text (RT := Latin.runtime) (File [239; 187]%N) = Ok [].
Proof.
  split.
  - exact (proj1 (proj2 (read_text_never_raises (RT := Latin.runtime)
                           [72; 13; 10; 129; 255]%N))).
  - exact (proj1 (proj2 (read_text_never_raises (RT := Latin.runtime)
                           [239; 187]%N))).
Defined.

(** ** Section links of a footer *)

Lemma count_char_none (x : char) (s : str) :
  count_char x s = 0 -> forallb (not_char x) s = true.
Proof.
  induction s as [|c s IH]; [reflexivity|].
  rewrite count_char_cons. intros H.
  destruct (N.eqb x c) eqn:E; [discriminate|].
  simpl. unfold not_char at 1. rewrite N.eqb_sym, E. now apply IH.
Qed.

Lemma match_bracket_label (label post : str) :
  label <> [] -> count_char (ch ">") label = 0 ->
  match_bracket (ch "<" :: label ++ ch ">" :: post)
  = Some (ch "<" :: label ++ [ch ">"], post).
Proof.
  intros Hl Hc. unfold match_bracket. rewrite N.eqb_refl.
  rewrite (span_all (fun c => negb (N.eqb c (ch ">"))) label
             (ch ">" :: post) (count_char_none _ _ Hc)) by reflexivity.
  destruct label; [contradiction|reflexivity].
Qed.

Lemma match_bracket_shorter (s m after : str) :
  match_bracket s = Some (m, after) -> length after < length s.
Proof.
  unfold match_bracket. destruct s as [|c r]; [discriminate|].
  destruct (N.eqb c (ch "<")); [|discriminate].
  destruct (span _ r) as [g s2] eqn:Hs.
  apply span_split in Hs as [-> _].
  destruct g; [discriminate|]. destruct s2; [discriminate|].
  intros H; inversion H; subst. simpl. rewrite length_app. simpl. lia.
Qed.

Lemma re_split_fuel_irrelevant (f1 : nat) :
  forall f2 cur s, length s < f1 -> length s < f2 ->
  re_split_fuel f1 cur s = re_split_fuel f2 cur s.
Proof.
  induction f1 as [|f1 IH]; intros [|f2] cur s H1 H2; try lia.
  destruct s as [|c r]; [reflexivity|]. cbn [re_split_fuel].
  destruct (match_bracket (c :: r)) as [[m after]|] eqn:Hm.
  - apply match_bracket_shorter in Hm.
    rewrite (IH f2 [] after) by lia. reflexivity.
  - simpl in H1, H2. apply IH; lia.
Qed.

Lemma re_split_fuel_plain (pre : str) :
  forall fuel cur rest, count_char (ch "<") pre = 0 ->
  re_split_fuel (length pre + fuel) cur (pre ++ rest)
  = re_split_fuel fuel (cur ++ pre) rest.
Proof.
  induction pre as [|c pre IH]; intros fuel cur rest H.
  - now rewrite app_nil_r.
  - rewrite count_char_cons in H.
    destruct (N.eqb (ch "<") c) eqn:E; [discriminate|].
    cbn [length Nat.add app re_split_fuel].
    unfold match_bracket. rewrite N.eqb_sym, E.
    rewrite (IH fuel (cur ++ [c]) rest H), <- app_assoc. reflexivity.
Qed.

(** The split of a footer at its first bracketed label. *)
Lemma re_split_label (pre label post : str) :
  count_char (ch "<") pre = 0 ->
  label <> [] -> count_char (ch ">") label = 0 ->
  re_split (pre ++ ch "<" :: label ++ ch ">" :: post)
  = pre :: (ch "<" :: label ++ [ch ">"]) :: re_split post.
Proof.
  intros Hpre Hl Hc. unfold re_split.
  set (rest := ch "<" :: label ++ ch ">" :: post).
  rewrite (re_split_fuel_irrelevant (S (length (pre ++ rest)))
             (length pre + S (length rest)))
    by (rewrite length_app; lia).
  rewrite (re_split_fuel_plain pre _ [] rest Hpre). simpl app.
  assert (E : re_split_fuel (S (length rest)) pre rest
              = pre :: (ch "<" :: label ++ [ch ">"])
                :: re_split_fuel (length rest) [] post).
  { unfold rest at 2. cbn [re_split_fuel].
    now rewrite (match_bracket_label label post Hl Hc). }
  rewrite E. do 2 f_equal. apply re_split_fuel_irrelevant; [|lia].
  unfold rest. simpl. rewrite length_app. simpl. lia.
Qed.

Section Footer.
Context {RT : Runtime}.

Lemma find_target_first (needle : str) (before : list Sec) (sec : Sec)
  (after : list Sec) :
  (forall s, In s before -> label_matches needle s = false) ->
  label_matches needle sec = true ->
  find_target needle (before ++ sec :: after) = sec_id sec.
Proof.
  induction before as [|b before IH]; intros Hb Hs; simpl.
  - now rewrite Hs.
  - rewrite (Hb b) by now left. apply IH; [|assumption].
    intros s Hin. apply Hb. now right.
Qed.

Lemma find_target_none (needle : str) (sections : list Sec) :
  (forall s, In s sections -> label_matches needle s = false) ->
  find_target needle sections = [].
Proof.
  induction sections as [|b sections IH]; intros Hb; simpl; [reflexivity|].
  rewrite (Hb b) by now left. apply IH. intros s Hin. apply Hb. now right.
Qed.

Lemma render_part_plain (sections : list Sec) (part : str) :
  count_char (ch "<") part = 0 ->
  render_part sections part = render_inline true part.
Proof.
  intros H. unfold render_part.
  destruct part as [|c part]; [reflexivity|].
  rewrite count_char_cons in H.
  destruct (N.eqb (ch "<") c) eqn:E; [discriminate|].
  change (startswith (lit "<") (c :: part)) with (N.eqb (ch "<") c && true).
  now rewrite E.
Qed.

(** What [render_part] does with a bracketed label. *)
Lemma render_part_label (sections : list Sec) (label : str) :
  render_part sections (ch "<" :: label ++ [ch ">"])
  = let text := strip label in
    let target_id := find_target (normalize_text text) sections in
    if negb (str_eqb target_id []) then
      html "<a class=`indicator-link` href=`#` data-open=`" ++ target_id
      ++ html "`>" ++ render_inline true text ++ html "</a>"
    else render_inline true text.
Proof.
  unfold render_part.
  change (startswith (lit "<") (ch "<" :: label ++ [ch ">"])) with true.
  assert (E : endswith (lit ">") (ch "<" :: label ++ [ch ">"]) = true).
  { unfold endswith. simpl rev. rewrite rev_app_distr. reflexivity. }
  rewrite E. cbn [andb].
  unfold slice_1_m1. cbn [tl]. now rewrite removelast_last.
Qed.

End Footer.

Section FooterClaim.
Context {RT : Runtime}.

Lemma render_footer_concat (text : str) (sections : list Sec) :
  render_footer_with_section_links text sections
  = concat (map (render_part sections) (re_split text)).
Proof.
  unfold render_footer_with_section_links.
  destruct text; reflexivity.
Qed.

End FooterClaim.


(** ** Sorting *)

Section SortedFacts.
Variable A : Type.
Variable le : A -> A -> bool.

Lemma insert_sorted_perm (x : A) (l : list A) :
  Permutation (insert_sorted le x l) (x :: l).
Proof.
  induction l as [|y l IH]; simpl; [reflexivity|].
  destruct (le x y); [reflexivity|].
  rewrite IH. apply perm_swap.
Qed.

Lemma sorted_perm (l : list A) : Permutation (sorted le l) l.
Proof.
  induction l as [|x l IH]; simpl; [reflexivity|].
  now rewrite insert_sorted_perm, IH.
Qed.

Hypothesis le_total : forall a b, le a b = true \/ le b a = true.
Hypothesis le_trans :
  forall a b c, le a b = true -> le b c = true -> le a c = true.

Lemma insert_sorted_strongly (x : A) (l : list A) :
  StronglySorted (fun a b => le a b = true) l ->
  StronglySorted (fun a b => le a b = true) (insert_sorted le x l).
Proof.
  induction l as [|y l IH]; intros Hs; simpl.
  - constructor; constructor.
  - destruct (le x y) eqn:E.
    + constructor; [assumption|].
      apply StronglySorted_inv in Hs as [_ Hy].
      constructor; [exact E|].
      eapply Forall_impl; [|exact Hy]. intros z Hz. exact (le_trans _ _ _ E Hz).
    + apply StronglySorted_inv in Hs as [Hl Hy].
      constructor; [now apply IH|].
      assert (Hyx : le y x = true).
      { destruct (le_total x y) as [H|H]; [congruence|exact H]. }
      eapply Permutation_Forall; [symmetry; apply insert_sorted_perm|].
      now constructor.
Qed.

Lemma sorted_strongly (l : list A) :
  StronglySorted (fun a b => le a b = true) (sorted le l).
Proof.
  induction l as [|x l IH]; simpl; [constructor|].
  now apply insert_sorted_strongly.
Qed.

(** The first element of the sorted list is a least one. *)
Lemma sorted_head_least (l : list A) (x : A) (more : list A) :
  sorted le l = x :: more -> forall y, In y l -> y = x \/ le x y = true.
Proof.
  intros E y Hy.
  pose proof (sorted_strongly l) as Hs. rewrite E in Hs.
  apply StronglySorted_inv in Hs as [_ Hx].
  apply (Permutation_in _ (Permutation_sym (sorted_perm l))) in Hy.
  rewrite E in Hy. destruct Hy as [->|Hy]; [now left|right].
  rewrite Forall_forall in Hx. now apply Hx.
Qed.

End SortedFacts.

(** Two lists in the order of their keys that hold the same elements, with
    no key twice, are equal. *)
Lemma sorted_unique (A : Type) (key : A -> N) (l1 : list A) :
  forall l2,
  Permutation l1 l2 ->
  StronglySorted (fun a b => (key a <= key b)%N) l1 ->
  StronglySorted (fun a b => (key a <= key b)%N) l2 ->
  NoDup (map key l1) ->
  l1 = l2.
Proof.
  induction l1 as [|a l1 IH]; intros l2 Hp H1 H2 Hnd.
  - now apply Permutation_nil in Hp.
  - destruct l2 as [|b l2];
      [apply Permutation_sym, Permutation_nil in Hp; discriminate|].
    assert (Hab : a = b).
    { assert (Ha : In a (b :: l2))
        by (apply (Permutation_in _ Hp); now left).
      assert (Hb : In b (a :: l1))
        by (apply (Permutation_in _ (Permutation_sym Hp)); now left).
      destruct Ha as [Ha|Ha]; [now symmetry|].
      destruct Hb as [Hb|Hb]; [assumption|].
      apply StronglySorted_inv in H1 as [_ F1].
      apply StronglySorted_inv in H2 as [_ F2].
      rewrite Forall_forall in F1, F2.
      specialize (F1 b Hb). specialize (F2 a Ha).
      assert (Hk : key a = key b) by lia.
      inversion Hnd as [|k ks Hnotin _]; subst.
      exfalso. apply Hnotin. rewrite Hk. now apply in_map. }
    subst b. f_equal.
    apply IH.
    + now apply Permutation_cons_inv in Hp.
    + now apply StronglySorted_inv in H1.
    + now apply StronglySorted_inv in H2.
    + now inversion Hnd.
Qed.

Lemma filter_perm (A : Type) (f : A -> bool) (l l' : list A) :
  Permutation l l' -> Permutation (filter f l) (filter f l').
Proof.
  induction 1 as [|x l l' _ IH|x y l|l l' l'' _ IH1 _ IH2]; simpl.
  - constructor.
  - destruct (f x); [now constructor|assumption].
  - destruct (f x), (f y); try reflexivity. apply perm_swap.
  - now transitivity (filter f l').
Qed.

Lemma str_leb_total (a b : str) : str_leb a b = true \/ str_leb b a = true.
Proof.
  revert b; induction a as [|x a IH]; intros [|y b]; simpl; auto.
  rewrite (N.eqb_sym y x).
  destruct (N.eqb_spec x y) as [->|Hne]; [apply IH|].
  destruct (N.ltb_spec x y); [now left|].
  right. apply N.ltb_lt. lia.
Qed.

Lemma str_leb_trans (a b c : str) :
  str_leb a b = true -> str_leb b c = true -> str_leb a c = true.
Proof.
  revert b c; induction a as [|x a IH]; intros [|y b] [|z c]; simpl;
    try reflexivity; try discriminate.
  destruct (N.eqb_spec x y) as [->|Hxy].
  - destruct (N.eqb_spec y z) as [->|Hyz]; [apply IH|trivial].
  - intros H1. apply N.ltb_lt in H1.
    destruct (N.eqb_spec y z) as [->|Hyz].
    + intros _. destruct (N.eqb_spec x z); [lia|]. now apply N.ltb_lt.
    + intros H2. apply N.ltb_lt in H2.
      destruct (N.eqb_spec x z); [lia|]. apply N.ltb_lt. lia.
Qed.

(** ** The accordion sections *)

Section Sections.
Context {RT : Runtime}.

Lemma read_text_file (data : bytes) :
  read_text (File data) = Ok (file_text data).
Proof.
  unfold file_text.
  destruct (read_text_try_ok [Utf8Sig; Cp1252; Latin1] data) as [text E].
  unfold read_text. now rewrite E.
Qed.

Lemma endswith_app (p pre s : str) :
  endswith p s = true -> endswith p (pre ++ s) = true.
Proof.
  unfold endswith. intros H. rewrite rev_app_distr.
  now apply startswith_app_l.
Qed.

Lemma endswith_length (p s : str) :
  endswith p s = true -> length p <= length s.
Proof.
  unfold endswith. intros H. apply startswith_length in H.
  now rewrite !length_rev in H.
Qed.

(** A name of the form of a section file passes the glob. *)
Lemma match_numbered_glob (prefix : str) (sep : char) (name : str)
  (r : str * str) :
  match_numbered prefix sep name = Some r ->
  glob_match prefix (lit ".txt") name = true.
Proof.
  unfold match_numbered, glob_match.
  destruct (startswith prefix name) eqn:Hp; [|discriminate].
  pose proof (startswith_split _ _ Hp) as Hn.
  destruct (span is_digit (skipn (length prefix) name)) as [digits s1] eqn:Hs.
  apply span_split in Hs as [Hs _].
  destruct digits as [|d digits]; [discriminate|].
  destruct s1 as [|c s2]; [discriminate|].
  destruct (N.eqb c sep); [|discriminate].
  unfold match_title_txt.
  destruct (endswith (lit ".txt") s2) eqn:He; [|discriminate].
  intros _. rewrite Hs in Hn.
  assert (E : endswith (lit ".txt") name = true).
  { rewrite Hn.
    replace (prefix ++ (d :: digits) ++ c :: s2)
      with ((prefix ++ (d :: digits) ++ [c]) ++ s2)
      by (now rewrite <- !app_assoc).
    now apply endswith_app. }
  rewrite E. cbn [andb]. apply Nat.leb_le.
  apply endswith_length in He.
  rewrite Hn, !length_app. simpl length in *. lia.
Qed.

Lemma collect_sections_files (paths : listing) :
  (forall name path, In (name, path) paths ->
     match_numbered (lit "Des") (ch "-") name <> None ->
     exists data, path = File data) ->
  collect_sections paths = Ok (sections_of_files paths).
Proof.
  induction paths as [|[name path] paths IH]; intros Hf; [reflexivity|].
  assert (IH' : collect_sections paths = Ok (sections_of_files paths)).
  { apply IH. intros n p Hin. apply Hf. now right. }
  cbn [collect_sections sections_of_files flat_map].
  fold (sections_of_files paths).
  destruct (match_numbered (lit "Des") (ch "-") name) as [[digits title]|]
    eqn:Hm.
  - destruct (Hf name path (or_introl eq_refl)) as [data ->];
      [now rewrite Hm|].
    rewrite read_text_file, IH'. unfold section_of. rewrite Hm. reflexivity.
  - rewrite IH'. destruct path as [data|entries|]; try reflexivity.
    unfold section_of. now rewrite Hm.
Qed.

Lemma sections_of_files_glob (paths : listing) :
  sections_of_files (glob (lit "Des") (lit ".txt") paths)
  = sections_of_files paths.
Proof.
  induction paths as [|[name path] paths IH]; [reflexivity|].
  unfold glob in *. cbn [filter fst].
  destruct (glob_match (lit "Des") (lit ".txt") name) eqn:Hg.
  - cbn [sections_of_files flat_map]. f_equal. exact IH.
  - rewrite IH. cbn [sections_of_files flat_map].
    destruct path as [data|entries|]; try reflexivity.
    unfold section_of.
    destruct (match_numbered (lit "Des") (ch "-") name) as [r|] eqn:Hm;
      [|reflexivity].
    apply match_numbered_glob in Hm. congruence.
Qed.

Lemma sections_of_files_perm (paths paths' : listing) :
  Permutation paths paths' ->
  Permutation (sections_of_files paths) (sections_of_files paths').
Proof. apply Permutation_flat_map. Qed.

Lemma sec_le_total (a b : Sec) : sec_le a b = true \/ sec_le b a = true.
Proof.
  unfold sec_le.
  destruct (N.leb_spec (sec_order a) (sec_order b)); [now left|].
  right. apply N.leb_le. lia.
Qed.

Lemma sec_le_trans (a b c : Sec) :
  sec_le a b = true -> sec_le b c = true -> sec_le a c = true.
Proof. unfold sec_le. rewrite !N.leb_le. lia. Qed.

Lemma sorted_sections (l : list Sec) :
  StronglySorted (fun a b => (sec_order a <= sec_order b)%N)
    (sorted sec_le l).
Proof.
  pose proof (sorted_strongly Sec sec_le sec_le_total sec_le_trans l) as H.
  eapply StronglySorted_ind with (P := StronglySorted _); [| |exact H].
  - constructor.
  - intros a l0 _ IH Ha. constructor; [exact IH|].
    eapply Forall_impl; [|exact Ha]. intros b Hb. now apply N.leb_le.
Qed.

Lemma parse_sections_files (cdir entries : listing) :
  lookup (lit "Despegables") cdir = Some (Dir entries) ->
  (forall name path, In (name, path) entries ->
     glob_match (lit "Des") (lit ".txt") name = true ->
     exists data, path = File data) ->
  parse_sections cdir = Ok (sorted sec_le (sections_of_files entries)).
Proof.
  intros Hl Hf. unfold parse_sections. rewrite Hl. cbn [entries_of].
  rewrite collect_sections_files, sections_of_files_glob; [reflexivity|].
  intros name path Hin Hm. unfold glob in Hin.
  apply filter_In in Hin as [Hin Hg]. now apply (Hf name path).
Qed.

Lemma accordion_items_from_nth (secs : list Sec) :
  forall idx k,
  nth_error (accordion_items_from idx secs) k
  = option_map (accordion_item (idx + k)) (nth_error secs k).
Proof.
  induction secs as [|sec secs IH]; intros idx [|k]; simpl;
    try reflexivity.
  - now rewrite Nat.add_0_r.
  - rewrite IH. now rewrite Nat.add_succ_r.
Qed.

End Sections.

Lemma startswith_app_same (a p s : str) :
  startswith (a ++ p) (a ++ s) = startswith p s.
Proof.
  induction a as [|x a IH]; [reflexivity|].
  simpl. now rewrite N.eqb_refl.
Qed.

Section SectionsClaim.
Context {RT : Runtime}.

Lemma substring_app_r (t a b : str) : substring t b -> substring t (a ++ b).
Proof.
  intros (pre & post & ->). exists (a ++ pre), post.
  now rewrite <- app_assoc.
Qed.

(** The accordion block stands in its container in the document. *)
Lemma page_accordion_block
  (header title subtitle hero_src body beneficiarios buttons registro
   accordion contacto : str) :
  substring
    (html "<div class=`accordion`>" ++ nl ++ lit "        " ++ accordion
     ++ nl ++ lit "      </div>")
    (page header title subtitle hero_src body beneficiarios buttons registro
       accordion contacto).
Proof.
  unfold page. do 20 apply substring_app_r.
  match goal with
  | |- substring _ (_ ++ _ ++ _ ++ ?rest) =>
      exists (html "

    <section class=`sections` data-animate=`3`>
      "), (html "
    </section>

    " ++ rest)
  end.
  rewrite <- !app_assoc. reflexivity.
Qed.

Lemma accordion_item_markup (k : nat) (sec : Sec) :
  accordion_item k sec
  = html "<div class=`sec-item`><button id=`" ++ sec_id sec
    ++ html "-btn` class=`sec-btn"
    ++ (if Nat.eqb k 0 then lit " is-active" else [])
    ++ html "` aria-expanded=`"
    ++ (if Nat.eqb k 0 then lit "true" else lit "false")
    ++ html "` aria-controls=`" ++ sec_id sec
    ++ html "` data-target=`" ++ sec_id sec
    ++ html "`><span class=`sec-title`>" ++ esc (sec_title sec)
    ++ html "</span><span class=`sec-arrow` aria-hidden=`true`>></span></button><div id=`"
    ++ sec_id sec ++ html "` class=`sec-panel"
    ++ (if Nat.eqb k 0 then lit " is-active" else [])
    ++ html "` role=`region` aria-labelledby=`" ++ sec_id sec
    ++ html "-btn` aria-hidden=`"
    ++ (if Nat.eqb k 0 then lit "false" else lit "true")
    ++ html "`><ul>" ++ nl
    ++ str_or (join nl (map accordion_li (sec_items sec)))
              (html "<li><span></span></li>")
    ++ nl ++ html "</ul></div></div>".
Proof.
  unfold accordion_item. cbv zeta. rewrite <- !app_assoc. reflexivity.
Qed.

Lemma accordion_items_from_later (f : Sec -> str) (secs : list Sec) :
  (forall k sec, accordion_item (S k) sec = f sec) ->
  forall idx, accordion_items_from (S idx) secs = map f secs.
Proof.
  intros Hf. induction secs as [|sec secs IH]; intros idx; [reflexivity|].
  cbn [accordion_items_from map]. now rewrite Hf, IH.
Qed.


End SectionsClaim.


(** ** The registration and the beneficiary blocks *)

Lemma link_buttons_anchors (class : str) (lines : list str) :
  filter nonempty (map (link_button class) lines)
  = button_anchors class lines.
Proof.
  induction lines as [|line lines IH]; [reflexivity|].
  cbn [map filter button_anchors flat_map].
  fold (button_anchors class lines). rewrite <- IH.
  unfold link_button.
  destruct (split_full_link line) as [text [url|]]; [|reflexivity].
  destruct (nonempty url); reflexivity.
Qed.

Section Blocks.
Context {RT : Runtime}.

(** C2: the registration block comes from the first file, in the order of
    the names, among those the pattern REGISTRO*.txt matches.  When that
    file has a non-blank line, the block has the stem of the file name as
    title, the first non-blank line as its one heading line, rendered as
    inline markup in a paragraph, and every other non-blank line is read
    as [text <url>]: it gives a button when it has a non-empty address
    and nothing otherwise. *)
Theorem registro_heading_and_buttons (cdir : listing) (name : str)
  (data : bytes) (more : listing) (heading : str) (rest : list str) :
  sorted path_le (glob (lit "REGISTRO") (lit ".txt") cdir)
  = (name, File data) :: more ->
  content_lines (file_text data) = heading :: rest ->
  let block := {| reg_title := stem name;
                  reg_lines := [heading];
                  reg_buttons := rest |} in
  parse_registro cdir = Ok (Some block)
  /\ (forall e, In e (glob (lit "REGISTRO") (lit ".txt") cdir) ->
        e = (name, File data) \/ str_leb name (fst e) = true)
  /\ registro_html (Some block)
     = html "<section class=`registro-band` data-animate=`3`><div class=`registro`><div class=`registro-media`><img src=`assets/img/plataforma.png` alt=`Plataforma`></div><div class=`registro-text`><p class=`registro-title`>"
       ++ esc (stem name) ++ html "</p><p>" ++ render_inline true heading
       ++ html "</p>"
       ++ match button_anchors (lit "registro-button") rest with
          | [] => []
          | anchors => html "<div class=`registro-buttons`>"
                       ++ concat anchors ++ html "</div>"
          end
       ++ html "</div></div></section>".
Proof.
  intros Hs Hl block. repeat split.
  - unfold parse_registro. rewrite Hs, read_text_file, Hl. reflexivity.
  - intros e He.
    destruct (sorted_head_least (str * node) path_le
                (fun a b => str_leb_total (fst a) (fst b))
                (fun a b c => str_leb_trans (fst a) (fst b) (fst c))
                _ _ _ Hs e He) as [->|H]; [now left|now right].
  - unfold registro_html, block. cbn [reg_title reg_lines reg_buttons].
    cbn [map join]. unfold p_tag.
    rewrite link_buttons_anchors.
    destruct rest as [|line rest]; [rewrite <- ?app_assoc; reflexivity|].
    destruct (button_anchors (lit "registro-button") (line :: rest));
      rewrite <- ?app_assoc; reflexivity.
Qed.

(** C10: when the beneficiary file has three non-blank lines or more and
    its last one does not end in an address between angle brackets, the
    last line is taken off the paragraphs as the button line and gives no
    button: the block is rendered from the other lines alone, the lead
    and one paragraph for each further line, and nothing of the last line
    goes into the page. *)
Theorem beneficiarios_last_line_dropped (cdir : listing) (data : bytes)
  (lines : list str) (last_line : str) :
  lookup (lit "BENEFICIARIOS.txt") cdir = Some (File data) ->
  content_lines (file_text data) = lines ++ [last_line] ->
  2 <= length lines ->
  match_text_url last_line = None ->
  let block := {| ben_title := lit "BENEFICIARIOS";
                  ben_lead := hd [] lines;
                  ben_lines := tl lines;
                  ben_button := last_line |} in
  parse_beneficiarios cdir = Ok (Some block)
  /\ link_button (lit "beneficiarios-button") last_line = []
  /\ beneficiarios_html (Some block)
     = html "<section class=`beneficiarios` data-animate=`3`><div class=`beneficiarios-text`><p class=`beneficiarios-title`>BENEFICIARIOS</p><p class=`beneficiarios-lead`>"
       ++ render_inline true (hd [] lines) ++ html "</p>"
       ++ join nl (map (fun line => p_tag (render_inline true line))
                       (tl lines))
       ++ html "</div><div class=`beneficiarios-map`><img src=`assets/img/mapa.png` alt=`Mapa`></div></section>".
Proof.
  intros Hl Hc Hlen Hm block.
  assert (Hb : link_button (lit "beneficiarios-button") last_line = []).
  { unfold link_button, split_full_link. now rewrite Hm. }
  repeat split.
  - unfold parse_beneficiarios. rewrite Hl, read_text_file, Hc.
    destruct (lines ++ [last_line]) as [|l0 ls] eqn:E;
      [now destruct lines|]. rewrite <- E.
    assert (Hlt : Nat.ltb 2 (length (lines ++ [last_line])) = true).
    { apply Nat.ltb_lt. rewrite length_app. simpl. lia. }
    rewrite Hlt, last_last, removelast_last. reflexivity.
  - exact Hb.
  - unfold beneficiarios_html, block.
    cbn [ben_title ben_lead ben_lines ben_button].
    rewrite Hb. destruct (nonempty last_line);
      rewrite <- ?app_assoc; reflexivity.
Qed.

End Blocks.

Lemma registro_heading_and_buttons_witness :
  parse_registro (RT := Latin.runtime) demo_registro
  = Ok (Some {| reg_title := lit "REGISTRO 2026";
                reg_lines := [lit "Inscribete **ya**"];
                reg_buttons := [lit "Formulario <https://f.example/?a=1&b=2>";
                                lit "sin enlace"; lit "Bases < >"] |})
  /\ button_anchors (lit "registro-button")
       [lit "Formulario <https://f.example/?a=1&b=2>";
        lit "sin enlace"; lit "Bases < >"]
     = [html "<a class=`registro-button` href=`https://f.example/?a=1&amp;b=2` target=`_blank` rel=`noopener`>Formulario</a>"].
Proof.
  split; [|reflexivity].
  apply (proj1 (registro_heading_and_buttons (RT := Latin.runtime)
                  demo_registro (lit "REGISTRO 2026.txt")
                  (lit "
  Inscribete **ya**
Formulario <https://f.example/?a=1&b=2>
sin enlace
Bases < >
")
                  [(lit "REGISTRO-b.txt", File (lit "Otro"))]
                  (lit "Inscribete **ya**")
                  [lit "Formulario <https://f.example/?a=1&b=2>";
                   lit "sin enlace"; lit "Bases < >"]
                  eq_refl eq_refl)).
Defined.

Lemma beneficiarios_last_line_dropped_witness :
  beneficiarios_html
    (Some {| ben_title := lit "BENEFICIARIOS";
             ben_lead := lit "Para todos";
             ben_lines := [lit "Linea uno"; lit "Linea dos"];
             ben_button := lit "Sin enlace" |})
  = html "<section class=`beneficiarios` data-animate=`3`><div class=`beneficiarios-text`><p class=`beneficiarios-title`>BENEFICIARIOS</p><p class=`beneficiarios-lead`>Para todos</p><p>Linea uno</p>
<p>Linea dos</p></div><div class=`beneficiarios-map`><img src=`assets/img/mapa.png` alt=`Mapa`></div></section>".
Proof.
  etransitivity.
  - apply (proj2 (proj2 (beneficiarios_last_line_dropped
             (RT := Latin.runtime) demo_registro
             (lit "Para todos
Linea uno
Linea dos
Sin enlace")
             [lit "Para todos"; lit "Linea uno"; lit "Linea dos"]
             (lit "Sin enlace") eq_refl eq_refl ltac:(simpl; lia) eq_refl))).
  - reflexivity.
Defined.

(** ** The page *)

Lemma contains_app_l (p a b : str) :
  contains p a = true -> contains p (a ++ b) = true.
Proof.
  unfold contains.
  induction a as [|c a IH]; cbn [app find].
  - destruct (startswith p []) eqn:Hs; [|discriminate].
    destruct p; [|discriminate]. intros _. now destruct b.
  - destruct (startswith p (c :: a)) eqn:Hs.
    + pose proof (startswith_app_l p (c :: a) b Hs) as Hs'.
      cbn [app] in Hs'. now rewrite Hs'.
    + intros H. destruct (startswith p (c :: a ++ b)); [reflexivity|].
      destruct (find p a); [|discriminate].
      specialize (IH eq_refl). now destruct (find p (a ++ b)).
Qed.

Lemma contains_app_r (p a b : str) :
  contains p b = true -> contains p (a ++ b) = true.
Proof.
  unfold contains. intros H.
  induction a as [|c a IH]; [exact H|].
  cbn [app find]. destruct (startswith p (c :: a ++ b)); [reflexivity|].
  now destruct (find p (a ++ b)).
Qed.

(** The accordion container is a fixed part of the document. *)
Lemma page_accordion_container
  (header title subtitle hero_src body beneficiarios buttons registro
   accordion contacto : str) :
  contains (html "<section class=`sections` data-animate=`3`>
      <div class=`accordion`>")
    (page header title subtitle hero_src body beneficiarios buttons registro
       accordion contacto) = true.
Proof.
  unfold page. do 20 apply contains_app_r. apply contains_app_l.
  vm_compute. reflexivity.
Qed.

Section PageClaim.
Context {RT : Runtime}.

Lemma body_html_paragraph (body_lines : list str) :
  startswith (html "<p>") (body_html body_lines) = true.
Proof.
  unfold body_html.
  destruct body_lines as [|l [|l' ls]]; reflexivity.
Qed.

Lemma collect_sections_none (paths : listing) :
  (forall name path, In (name, path) paths ->
     match_numbered (lit "Des") (ch "-") name = None) ->
  collect_sections paths = Ok [].
Proof.
  induction paths as [|[name path] paths IH]; intros Hn; [reflexivity|].
  cbn [collect_sections]. rewrite (Hn name path) by now left.
  apply IH. intros n p Hin. apply (Hn n p). now right.
Qed.

Lemma collect_buttons_none (paths : listing) :
  (forall name path, In (name, path) paths ->
     match_numbered [] (ch ".") name = None) ->
  collect_buttons paths = Ok [].
Proof.
  induction paths as [|[name path] paths IH]; intros Hn; [reflexivity|].
  cbn [collect_buttons]. rewrite (Hn name path) by now left.
  rewrite IH by (intros n p Hin; apply (Hn n p); now right).
  now destruct (str_eqb (unicode_lower name) (lit "pie.txt")).
Qed.

Lemma collect_groups_none (entries : listing) (groups : list Group) :
  (forall name group_dir file path,
     In (name, Dir group_dir) entries -> In (file, path) group_dir ->
     match_numbered [] (ch ".") file = None) ->
  collect_groups entries = Ok groups -> groups = [].
Proof.
  revert groups.
  induction entries as [|[name [data|group_dir|]] entries IH];
    intros groups Hn; cbn [collect_groups].
  - now intros [= <-].
  - apply IH. intros n d f q Hin. apply (Hn n d f q). now right.
  - assert (Hb : collect_buttons (glob [] (lit ".txt") group_dir) = Ok []).
    { apply collect_buttons_none. intros f q Hin.
      apply (Hn name group_dir f q); [now left|].
      unfold glob in Hin. now apply filter_In in Hin as [Hin _]. }
    rewrite Hb.
    destruct (match lookup (lit "Pie.txt") group_dir with
              | Some (File _ as footer_path) | Some (Dir _ as footer_path) =>
                  let* text := read_text footer_path in
                  Ok (join (lit " ") (content_lines text))
              | _ => Ok []
              end) as [footer|e]; [|discriminate].
    cbn. destruct (collect_groups entries) as [rest|e] eqn:Er;
      [|discriminate].
    intros [= <-]. apply (IH rest); [|reflexivity].
    intros n d f q Hin. apply (Hn n d f q). now right.
  - apply IH. intros n d f q Hin. apply (Hn n d f q). now right.
Qed.

Lemma buttons_html_nil (sections : list Sec) (groups : list Group) :
  buttons_html sections groups = [] <-> groups = [].
Proof.
  unfold buttons_html. destruct groups as [|g groups]; [tauto|].
  split; discriminate.
Qed.

Lemma accordion_block_nil (sections : list Sec) :
  accordion_block sections = [] <-> sections = [].
Proof.
  destruct sections as [|sec more]; [now split|].
  split; [|discriminate].
  unfold accordion_block, accordion_items. cbn [accordion_items_from join].
  destruct (accordion_items_from 1 more); discriminate.
Qed.


End PageClaim.



(** * Further properties of the script *)

(** ** The inline-markup renderer *)

Lemma startswith_nil_r (p : str) : startswith p [] = true -> p = [].
Proof. now destruct p. Qed.

Lemma contains_substring (p t s : str) :
  substring t s -> contains p t = true -> contains p s = true.
Proof.
  intros (pre & post & ->) H.
  now apply contains_app_r, contains_app_l.
Qed.

(** Before its first occurrence a text does not occur. *)
Lemma find_firstn_none (p r : str) (e : nat) :
  p <> [] -> find p r = Some e -> find p (firstn e r) = None.
Proof.
  intros Hp. revert e; induction r as [|c r IH]; intros e H; simpl in H.
  - destruct (startswith p []) eqn:Hs; [|discriminate].
    now apply startswith_nil_r in Hs.
  - destruct (startswith p (c :: r)) eqn:Hs.
    + inversion H; subst. simpl. destruct p; [contradiction|reflexivity].
    + destruct (find p r) as [e'|] eqn:Hf; [|discriminate].
      inversion H; subst. cbn [firstn find].
      rewrite (IH e' eq_refl). cbn [option_map].
      destruct (startswith p (c :: firstn e' r)) eqn:Hs'; [|reflexivity].
      pose proof (startswith_app_l p (c :: firstn e' r) (skipn e' r) Hs')
        as Hc.
      cbn [app] in Hc. rewrite firstn_skipn in Hc. congruence.
Qed.

Lemma contains_double_single (x : char) (s : str) :
  contains [x; x] s = true -> contains [x] s = true.
Proof.
  unfold contains. induction s as [|c s IH]; [discriminate|].
  cbn [find].
  destruct (startswith [x] (c :: s)) eqn:H1; [reflexivity|].
  assert (H2 : startswith [x; x] (c :: s) = false).
  { cbn [startswith] in *. destruct (N.eqb x c); [discriminate|reflexivity]. }
  rewrite H2. intros H. destruct (find [x; x] s); [|discriminate].
  specialize (IH eq_refl). now destruct (find [x] s).
Qed.

(** How a bold marker is found: by the double asterisk, whose inside has
    no double asterisk, or by the single one, whose inside has none. *)
Lemma marker_at_bold_inv (allow : bool) (s inner after : str) :
  marker_at allow s = Some (Bold inner after) ->
  contains (lit "*") s = true
  /\ (contains (lit "**") s = true /\ contains (lit "**") inner = false
      \/ contains (lit "*") inner = false).
Proof.
  destruct s as [|c rest]; [discriminate|].
  unfold marker_at.
  destruct (if allow && startswith (lit "<link:") (c :: rest)
            then match_link (c :: rest) else None) as [[[g1 g2] a]|];
    [discriminate|].
  remember (skipn 2 (c :: rest)) as r2 eqn:Hr2.
  destruct (startswith (lit "**") (c :: rest)) eqn:Hs.
  - assert (Hd : contains (lit "**") (c :: rest) = true)
      by (unfold contains; cbn [find]; now rewrite Hs).
    pose proof (contains_double_single (ch "*") (c :: rest) Hd) as Hd1.
    destruct (find (lit "**") r2) as [e|] eqn:Hf.
    + intros H; inversion H; subst inner after; clear H.
      split; [exact Hd1|]. left. split; [exact Hd|].
      unfold contains.
      now rewrite (find_firstn_none (lit "**") _ e ltac:(discriminate) Hf).
    + destruct (N.eqb c (ch "*")) eqn:Hc; [|discriminate].
      destruct (find (lit "*") rest) as [e|] eqn:Hf1; [|discriminate].
      intros H; inversion H; subst inner after; clear H.
      split; [exact Hd1|]. right. unfold contains.
      now rewrite (find_firstn_none (lit "*") _ e ltac:(discriminate) Hf1).
  - destruct (N.eqb c (ch "*")) eqn:Hc; [|discriminate].
    destruct (find (lit "*") rest) as [e|] eqn:Hf1; [|discriminate].
    intros H; inversion H; subst; clear H.
    split.
    + unfold contains. cbn [find].
      change (startswith (lit "*") (c :: rest)) with (N.eqb (ch "*") c && true).
      rewrite N.eqb_sym, Hc. reflexivity.
    + right. unfold contains.
      now rewrite (find_firstn_none (lit "*") _ e ltac:(discriminate) Hf1).
Qed.

Lemma nesting_room_substring (allow : bool) (t s : str) :
  substring t s -> nesting_room allow t <= nesting_room allow s.
Proof.
  intros Hsub. unfold nesting_room.
  pose proof (contains_substring (lit "*") t s Hsub) as H1.
  pose proof (contains_substring (lit "**") t s Hsub) as H2.
  destruct (contains (lit "*") t), (contains (lit "**") t);
    try rewrite (H1 eq_refl); try rewrite (H2 eq_refl);
    destruct allow, (contains (lit "*") s), (contains (lit "**") s);
    simpl; lia.
Qed.

Lemma render_inline_depth_fuel_unfold (fuel : nat) (allow : bool) (s : str) :
  render_inline_depth_fuel (S fuel) allow s =
  match marker_at allow s with
  | None => Some 0
  | Some (Link g1 _ after) =>
      d1 <- render_inline_depth_fuel fuel false g1 ;;
      d2 <- render_inline_depth_fuel fuel allow after ;;
      Some (Nat.max (S d1) d2)
  | Some (Bold inner after) =>
      d1 <- render_inline_depth_fuel fuel allow inner ;;
      d2 <- render_inline_depth_fuel fuel allow after ;;
      Some (Nat.max (S d1) d2)
  | Some (Plain _ after) => render_inline_depth_fuel fuel allow after
  end.
Proof. reflexivity. Qed.

Lemma render_inline_depth_total (fuel : nat) :
  forall allow s, length s < fuel ->
  exists d, render_inline_depth_fuel fuel allow s = Some d.
Proof.
  induction fuel as [|fuel IH]; intros allow s Hlt; [lia|].
  rewrite render_inline_depth_fuel_unfold.
  destruct (marker_at allow s) as [m|] eqn:Hm; [|now exists 0].
  assert (Hlen : forall t, In t (marker_args m) -> length t < fuel).
  { intros t Ht. pose proof (proj2 (marker_args_shorter _ _ _ _ Hm Ht)). lia. }
  destruct m as [g1 g2 after|inner after|c after]; simpl in Hlen.
  - destruct (IH false g1) as [d1 ->]; [auto|].
    destruct (IH allow after) as [d2 ->]; [auto|]. eauto.
  - destruct (IH allow inner) as [d1 ->]; [auto|].
    destruct (IH allow after) as [d2 ->]; [auto|]. eauto.
  - destruct (IH allow after) as [d2 ->]; [auto|]. eauto.
Qed.

Lemma render_inline_depth_irrelevant (f1 : nat) :
  forall f2 allow s, length s < f1 -> length s < f2 ->
  render_inline_depth_fuel f1 allow s = render_inline_depth_fuel f2 allow s.
Proof.
  induction f1 as [|f1 IH]; intros [|f2] allow s H1 H2; try lia.
  rewrite !render_inline_depth_fuel_unfold.
  destruct (marker_at allow s) as [m|] eqn:Hm; [|reflexivity].
  assert (Hlen : forall t, In t (marker_args m) -> length t < length s).
  { intros t Ht. exact (proj2 (marker_args_shorter _ _ _ _ Hm Ht)). }
  destruct m as [g1 g2 after|inner after|c after]; simpl in Hlen.
  - assert (length g1 < length s) by auto.
    assert (length after < length s) by auto.
    rewrite (IH f2 false g1), (IH f2 allow after) by lia. reflexivity.
  - assert (length inner < length s) by auto.
    assert (length after < length s) by auto.
    rewrite (IH f2 allow inner), (IH f2 allow after) by lia. reflexivity.
  - assert (length after < length s) by auto.
    rewrite (IH f2 allow after) by lia. reflexivity.
Qed.

Lemma render_inline_depth_room (fuel : nat) :
  forall allow s d,
  render_inline_depth_fuel fuel allow s = Some d -> d <= nesting_room allow s.
Proof.
  induction fuel as [|fuel IH]; intros allow s d; [discriminate|].
  rewrite render_inline_depth_fuel_unfold.
  destruct (marker_at allow s) as [m|] eqn:Hm;
    [|intros H; inversion H; lia].
  assert (Hsub : forall t, In t (marker_args m) -> substring t s).
  { intros t Ht. exact (proj1 (marker_args_shorter _ _ _ _ Hm Ht)). }
  destruct m as [g1 g2 after|inner after|c after]; simpl in Hsub.
  - destruct allow; [|now apply marker_at_no_link in Hm].
    destruct (render_inline_depth_fuel fuel false g1) as [d1|] eqn:E1;
      [|discriminate].
    destruct (render_inline_depth_fuel fuel true after) as [d2|] eqn:E2;
      [|discriminate].
    intros [= <-].
    apply IH in E1. apply IH in E2.
    pose proof (nesting_room_substring false g1 s (Hsub g1 (or_introl eq_refl))).
    pose proof (nesting_room_substring true after s
                  (Hsub after (or_intror (or_introl eq_refl)))).
    assert (nesting_room true s = S (nesting_room false s)) by reflexivity.
    destruct d2; lia.
  - destruct (render_inline_depth_fuel fuel allow inner) as [d1|] eqn:E1;
      [|discriminate].
    destruct (render_inline_depth_fuel fuel allow after) as [d2|] eqn:E2;
      [|discriminate].
    intros [= <-].
    apply IH in E1. apply IH in E2.
    pose proof (nesting_room_substring allow after s
                  (Hsub after (or_intror (or_introl eq_refl)))).
    assert (Hin : S (nesting_room allow inner) <= nesting_room allow s).
    { pose proof (contains_substring (lit "*") inner s
                    (Hsub inner (or_introl eq_refl))) as H1.
      pose proof (contains_substring (lit "**") inner s
                    (Hsub inner (or_introl eq_refl))) as H2.
      pose proof (contains_double_single (ch "*") inner) as H3.
      change [ch "*"; ch "*"] with (lit "**") in H3.
      change [ch "*"] with (lit "*") in H3.
      apply marker_at_bold_inv in Hm as [Hs [[Hd Hi]|Hi]];
        unfold nesting_room; rewrite Hs.
      - rewrite Hd, Hi. destruct allow, (contains (lit "*") inner); simpl; lia.
      - rewrite Hi.
        destruct (contains (lit "**") inner);
          [specialize (H3 eq_refl); congruence|].
        destruct allow, (contains (lit "**") s); simpl; lia. }
    destruct d2; lia.
  - intros H. apply IH in H.
    pose proof (nesting_room_substring allow after s
                  (Hsub after (or_introl eq_refl))). lia.
Qed.

(** X1: the recursion of the renderer is never deeper than three calls
    below the first, whatever the text: a recursive call is made inside a
    link, with links off from there on, inside a pair of double
    asterisks, where no double asterisk is left, or inside a pair of
    single ones, where no asterisk is left. *)
Theorem render_inline_depth_bounded (allow : bool) (text : str) :
  exists d,
    d <= nesting_room allow text /\ d <= 3
    /\ forall fuel, length text < fuel ->
         render_inline_depth_fuel fuel allow text = Some d.
Proof.
  destruct (render_inline_depth_total (S (length text)) allow text)
    as [d Hd]; [lia|].
  exists d. pose proof (render_inline_depth_room _ _ _ _ Hd) as Hr.
  split; [exact Hr|]. split.
  - unfold nesting_room in Hr.
    destruct allow, (contains (lit "*") text), (contains (lit "**") text);
      simpl in Hr; lia.
  - intros fuel Hlt. rewrite <- Hd.
    apply render_inline_depth_irrelevant; lia.
Qed.

Lemma render_inline_depth_bounded_witness :
  exists d,
    d <= 3
    /\ render_inline_depth_fuel 30 true (html "**<link:`*a*`=u>**") = Some d
    /\ d = 3.
Proof.
  destruct (render_inline_depth_bounded true (html "**<link:`*a*`=u>**"))
    as (d & _ & Hd & Hf).
  exists d. split; [exact Hd|].
  assert (H : render_inline_depth_fuel 30 true (html "**<link:`*a*`=u>**")
              = Some d) by (apply Hf; vm_compute; lia).
  split; [exact H|]. vm_compute in H. now inversion H.
Defined.

Lemma known_tags_only_app (a b : str) :
  known_tags_only a = true -> known_tags_only b = true ->
  known_tags_only (a ++ b) = true.
Proof.
  induction a as [|c a IH]; intros Ha Hb; [exact Hb|].
  cbn [known_tags_only app] in *. apply andb_true_iff in Ha as [Hc Ha].
  rewrite (IH Ha Hb), andb_true_r.
  destruct (N.eqb c (ch "<")); [|reflexivity].
  repeat (apply orb_true_iff in Hc as [Hc|Hc]);
    rewrite (startswith_app_l _ _ b Hc); repeat rewrite orb_true_r;
    reflexivity.
Qed.

Lemma known_tags_only_esc (s : str) : known_tags_only (esc s) = true.
Proof.
  induction s as [|c s IH]; [reflexivity|].
  rewrite esc_cons. apply known_tags_only_app; [|exact IH].
  unfold esc_char.
  destruct (N.eqb c (ch "&")); [reflexivity|].
  destruct (N.eqb c (ch "<")) eqn:E; [reflexivity|].
  destruct (N.eqb c (ch ">")); [reflexivity|].
  destruct (N.eqb c dq); [reflexivity|].
  destruct (N.eqb c (ch "'")); [reflexivity|].
  cbn [known_tags_only]. now rewrite E.
Qed.

(** X2: in the output of the renderer every [<] starts one of the four
    tags the renderer writes, the opening or the closing of a [strong]
    element or of an anchor with an address: no [<] of the text, of a link
    text or of an address reaches the page as it is. *)
Theorem render_inline_known_tags (allow : bool) (text : str) :
  known_tags_only (render_inline allow text) = true.
Proof.
  apply (render_inline_ind (fun _ _ out => known_tags_only out = true)).
  - reflexivity.
  - intros a s g1 g2 after _ H1 H2. unfold anchor_blank.
    rewrite <- !app_assoc.
    apply (known_tags_only_app (html "<a href=`")); [reflexivity|].
    apply known_tags_only_app; [apply known_tags_only_esc|].
    apply (known_tags_only_app (html "` target=`_blank` rel=`noopener`>"));
      [reflexivity|].
    apply known_tags_only_app; [exact H1|].
    apply (known_tags_only_app (html "</a>")); [reflexivity|exact H2].
  - intros a s inner after _ H1 H2. unfold strong. rewrite <- !app_assoc.
    apply (known_tags_only_app (html "<strong>")); [reflexivity|].
    apply known_tags_only_app; [exact H1|].
    apply (known_tags_only_app (html "</strong>")); [reflexivity|exact H2].
  - intros a s c after _ H.
    apply known_tags_only_app; [|exact H].
    rewrite <- esc_one. apply known_tags_only_esc.
Qed.

Lemma match_link_lt (c : char) (rest : str) :
  N.eqb c (ch "<") = false -> match_link (c :: rest) = None.
Proof.
  intros H. unfold match_link.
  change (startswith (html "<link:`") (c :: rest))
    with (N.eqb (ch "<") c && startswith (html "link:`") rest).
  now rewrite N.eqb_sym, H.
Qed.

(** X3: the text before the first asterisk or [<] is escaped character by
    character and has no effect on what follows it; a text with no
    asterisk and none of the characters HTML reserves comes out as it
    is. *)
Theorem render_inline_plain_prefix (allow : bool) (a b : str) :
  forallb (fun c => negb (marker_char c)) a = true ->
  render_inline allow (a ++ b) = esc a ++ render_inline allow b
  /\ (forallb (fun c => negb (html_special c)) a = true ->
      render_inline allow a = a).
Proof.
  intros Ha.
  assert (E : forall b', render_inline allow (a ++ b')
                         = esc a ++ render_inline allow b').
  { intros b'. induction a as [|c a IH]; [reflexivity|].
    cbn [forallb] in Ha. apply andb_true_iff in Ha as [Hc Ha].
    unfold marker_char in Hc. apply negb_true_iff, orb_false_iff in Hc
      as [Hstar Hlt].
    cbn [app]. rewrite render_inline_marker, marker_at_plain.
    - now rewrite esc_cons, (IH Ha), app_assoc.
    - intros _. now apply match_link_lt.
    - intros ->. discriminate. }
  split; [apply E|].
  intros Hs. rewrite <- (app_nil_r a) at 1. rewrite E, render_inline_nil.
  rewrite app_nil_r. clear E Ha.
  induction a as [|c a IH]; [reflexivity|].
  cbn [forallb] in Hs. apply andb_true_iff in Hs as [Hc Hs].
  rewrite esc_cons, (IH Hs). unfold html_special in Hc.
  apply negb_true_iff in Hc. unfold esc_char.
  destruct (N.eqb c (ch "&")); [discriminate|].
  destruct (N.eqb c (ch "<")); [discriminate|].
  destruct (N.eqb c (ch ">")); [discriminate|].
  destruct (N.eqb c dq); [discriminate|].
  destruct (N.eqb c (ch "'")); [discriminate|reflexivity].
Qed.

Lemma render_inline_plain_prefix_witness :
  render_inline true (html "Plazo: 3 dias (ver **bases**)")
  = lit "Plazo: 3 dias (ver " ++ render_inline true (lit "**bases**)").
Proof.
  apply (proj1 (render_inline_plain_prefix true (lit "Plazo: 3 dias (ver ")
                  (lit "**bases**)") eq_refl)).
Defined.

Lemma find_single_after_plain (x : char) (inner rest : str) :
  count_char x inner = 0 ->
  find [x] (inner ++ x :: rest) = Some (length inner).
Proof.
  induction inner as [|c inner IH]; intros H.
  - simpl. now rewrite N.eqb_refl.
  - rewrite count_char_cons in H.
    destruct (N.eqb x c) eqn:E; [discriminate|].
    simpl. rewrite E. simpl. now rewrite (IH H).
Qed.

(** X4: around a text that is not empty and has no asterisk, a pair of
    single asterisks and a pair of double ones give the same output: the
    text, rendered, in a [strong] element, before the rendering of what
    follows. *)
Theorem single_asterisk_bold (allow : bool) (inner rest : str) :
  inner <> [] -> count_char (ch "*") inner = 0 ->
  render_inline allow (lit "*" ++ inner ++ lit "*" ++ rest)
  = html "<strong>" ++ render_inline allow inner ++ html "</strong>"
    ++ render_inline allow rest
  /\ render_inline allow (lit "**" ++ inner ++ lit "**" ++ rest)
     = render_inline allow (lit "*" ++ inner ++ lit "*" ++ rest).
Proof.
  intros Hne Hc.
  assert (E1 : marker_at allow (lit "*" ++ inner ++ lit "*" ++ rest)
               = Some (Bold inner rest)).
  { change (lit "*" ++ inner ++ lit "*" ++ rest)
      with (ch "*" :: inner ++ ch "*" :: rest).
    unfold marker_at.
    assert (El : (if allow && startswith (lit "<link:")
                       (ch "*" :: inner ++ ch "*" :: rest)
                  then match_link (ch "*" :: inner ++ ch "*" :: rest)
                  else None) = None) by now destruct allow.
    rewrite El.
    destruct inner as [|d inner]; [contradiction|].
    rewrite count_char_cons in Hc.
    destruct (N.eqb (ch "*") d) eqn:Ed; [discriminate|].
    assert (Es : startswith (lit "**")
                   (ch "*" :: (d :: inner) ++ ch "*" :: rest) = false).
    { change (startswith (lit "**")
                (ch "*" :: (d :: inner) ++ ch "*" :: rest))
        with (N.eqb (ch "*") d && true). now rewrite Ed. }
    rewrite Es, N.eqb_refl. change (lit "*") with [ch "*"].
    rewrite (find_single_after_plain (ch "*") (d :: inner) rest)
      by (rewrite count_char_cons, Ed; exact Hc).
    rewrite firstn_app, Nat.sub_diag, firstn_all. cbn [firstn].
    rewrite app_nil_r, skipn_app.
    replace (length (d :: inner) + 1 - length (d :: inner)) with 1 by lia.
    rewrite skipn_all2 by lia. reflexivity. }
  assert (R1 : render_inline allow (lit "*" ++ inner ++ lit "*" ++ rest)
               = html "<strong>" ++ render_inline allow inner
                 ++ html "</strong>" ++ render_inline allow rest).
  { rewrite render_inline_marker, E1. unfold strong.
    now rewrite <- ?app_assoc. }
  split; [exact R1|].
  rewrite R1, render_inline_marker, (marker_at_bold allow inner rest Hc).
  unfold strong. now rewrite <- ?app_assoc.
Qed.

Lemma single_asterisk_bold_witness :
  render_inline true (lit "**a & b** c")
  = render_inline true (lit "*a & b* c").
Proof.
  apply (proj2 (single_asterisk_bold true (lit "a & b") (lit " c")
                  ltac:(discriminate) eq_refl)).
Defined.

(** ** Escaping loses nothing *)

Lemma esc_char_cancel (c d : char) (t u : str) :
  esc_char c ++ t = esc_char d ++ u -> c = d /\ t = u.
Proof.
  unfold esc_char, ch, dq. simpl N_of_ascii.
  destruct (N.eqb_spec c 38) as [->|C1];
    [|destruct (N.eqb_spec c 60) as [->|C2];
      [|destruct (N.eqb_spec c 62) as [->|C3];
        [|destruct (N.eqb_spec c 34) as [->|C4];
          [|destruct (N.eqb_spec c 39) as [->|C5]]]]];
  (destruct (N.eqb_spec d 38) as [->|D1];
    [|destruct (N.eqb_spec d 60) as [->|D2];
      [|destruct (N.eqb_spec d 62) as [->|D3];
        [|destruct (N.eqb_spec d 34) as [->|D4];
          [|destruct (N.eqb_spec d 39) as [->|D5]]]]]);
  cbn [lit list_ascii_of_string List.map app N_of_ascii];
  intros H; inversion H; subst; try congruence; now split.
Qed.

(** X5: escaping is injective: two texts with the same escaped form are
    the same text, so nothing of a text is lost in the page; and it never
    shortens a text. *)
Theorem esc_injective (a b : str) :
  (esc a = esc b -> a = b) /\ length a <= length (esc a).
Proof.
  split; [|apply esc_length_le].
  revert b; induction a as [|c a IH]; intros [|d b] H.
  - reflexivity.
  - rewrite esc_cons in H. pose proof (esc_char_length d).
    apply (f_equal (@length _)) in H. rewrite length_app in H.
    simpl in H. lia.
  - rewrite esc_cons in H. pose proof (esc_char_length c).
    apply (f_equal (@length _)) in H. rewrite length_app in H.
    simpl in H. lia.
  - rewrite !esc_cons in H. apply esc_char_cancel in H as [-> H].
    f_equal. now apply IH.
Qed.

Lemma esc_injective_witness :
  esc (lit "a<b") = lit "a&lt;b" /\ lit "a<b" = ch "a" :: lit "<b".
Proof.
  split; [reflexivity|].
  apply (proj1 (esc_injective (lit "a<b") (ch "a" :: lit "<b"))).
  reflexivity.
Defined.

(** ** Stripping *)

Lemma lstrip_spaces (w s : str) :
  forallb is_space w = true -> lstrip (w ++ s) = lstrip s.
Proof.
  induction w as [|c w IH]; intros H; [reflexivity|].
  cbn [forallb] in H. apply andb_true_iff in H as [Hc H].
  cbn [app lstrip]. rewrite Hc. now apply IH.
Qed.

Lemma lstrip_split (s : str) :
  exists w, s = w ++ lstrip s /\ forallb is_space w = true.
Proof.
  induction s as [|c s (w & E & H)]; [now exists []|].
  cbn [lstrip]. destruct (is_space c) eqn:Hc.
  - exists (c :: w). cbn [app forallb]. now rewrite Hc, <- E.
  - now exists [].
Qed.

Lemma lstrip_head (s : str) (c : char) (r : str) :
  lstrip s = c :: r -> is_space c = false.
Proof.
  induction s as [|d s IH]; [discriminate|].
  cbn [lstrip]. destruct (is_space d) eqn:Hd; [exact IH|].
  now intros [= <- _].
Qed.

Lemma lstrip_fix (c : char) (r : str) :
  is_space c = false -> lstrip (c :: r) = c :: r.
Proof. intros H. cbn [lstrip]. now rewrite H. Qed.

Lemma lstrip_idempotent (s : str) : lstrip (lstrip s) = lstrip s.
Proof.
  destruct (lstrip s) as [|c r] eqn:E; [reflexivity|].
  apply lstrip_fix. now apply (lstrip_head s c r).
Qed.

Lemma lstrip_all_space (w : str) :
  forallb is_space w = true -> lstrip w = [].
Proof.
  intros H. rewrite <- (app_nil_r w). now rewrite lstrip_spaces.
Qed.

(** A text that is not all white space keeps what follows it. *)
Lemma lstrip_app (t w : str) :
  lstrip t <> [] -> lstrip (t ++ w) = lstrip t ++ w.
Proof.
  induction t as [|c t IH]; intros H; [contradiction|].
  cbn [app lstrip] in *. destruct (is_space c); [now apply IH|reflexivity].
Qed.

Lemma forallb_rev_eq (f : char -> bool) (l : str) :
  forallb f (rev l) = forallb f l.
Proof.
  induction l as [|c l IH]; [reflexivity|].
  cbn [rev forallb]. rewrite forallb_app, IH. cbn [forallb].
  now rewrite andb_true_r, andb_comm.
Qed.

Lemma rstrip_spaces (s w : str) :
  forallb is_space w = true -> rstrip (s ++ w) = rstrip s.
Proof.
  intros H. unfold rstrip. rewrite rev_app_distr, lstrip_spaces;
    [reflexivity|].
  now rewrite forallb_rev_eq.
Qed.

Lemma rstrip_split (s : str) :
  exists w, s = rstrip s ++ w /\ forallb is_space w = true.
Proof.
  destruct (lstrip_split (rev s)) as (w & E & H).
  exists (rev w). split; [|now rewrite forallb_rev_eq].
  unfold rstrip. rewrite <- rev_app_distr, <- E. now rewrite rev_involutive.
Qed.

Lemma rstrip_idempotent (s : str) : rstrip (rstrip s) = rstrip s.
Proof.
  unfold rstrip. now rewrite rev_involutive, lstrip_idempotent.
Qed.

Lemma lstrip_rstrip (s : str) : lstrip (rstrip (lstrip s)) = rstrip (lstrip s).
Proof.
  destruct (rstrip_split (lstrip s)) as (w & E & _).
  destruct (rstrip (lstrip s)) as [|c r] eqn:Er; [reflexivity|].
  apply lstrip_fix. destruct (lstrip s) as [|d u] eqn:El; [discriminate|].
  cbn [app] in E. injection E as -> _. now apply (lstrip_head s c u).
Qed.

(** [strip] leaves a stripped text as it is. *)
Lemma strip_idempotent (s : str) : strip (strip s) = strip s.
Proof.
  unfold strip. now rewrite lstrip_rstrip, rstrip_idempotent.
Qed.

Lemma strip_all_space (w : str) : forallb is_space w = true -> strip w = [].
Proof. intros H. unfold strip. now rewrite lstrip_all_space. Qed.

Lemma strip_spaces_r (s w : str) :
  forallb is_space w = true -> strip (s ++ w) = strip s.
Proof.
  intros H. unfold strip.
  destruct (lstrip s) as [|c r] eqn:E.
  - destruct (lstrip_split s) as (v & Es & Hv). rewrite E, app_nil_r in Es.
    subst v. rewrite lstrip_all_space; [reflexivity|].
    rewrite forallb_app. now rewrite Hv, H.
  - rewrite lstrip_app by (rewrite E; discriminate).
    rewrite E. now apply rstrip_spaces.
Qed.

Lemma strip_sublist (s : str) (c : char) : In c (strip s) -> In c s.
Proof.
  intros H. unfold strip in H.
  destruct (rstrip_split (lstrip s)) as (w & E & _).
  destruct (lstrip_split s) as (v & Es & _).
  rewrite Es, E. apply in_or_app. right. apply in_or_app. now left.
Qed.

(** ** Lines with an address *)

Lemma match_url_tail_sound (s g : str) :
  match_url_tail s = Some g ->
  exists w1 w2,
    s = w1 ++ ch "<" :: g ++ ch ">" :: w2
    /\ forallb is_space w1 = true /\ forallb is_space w2 = true
    /\ g <> [] /\ forallb (not_char (ch ">")) g = true.
Proof.
  unfold match_url_tail. intros H.
  destruct (lstrip_split s) as (w1 & Es & Hw1).
  destruct (lstrip s) as [|c r]; [discriminate|].
  destruct (N.eqb_spec c (ch "<")) as [->|]; [|discriminate].
  destruct (span _ r) as [g' s2] eqn:Hs.
  pose proof (span_rest _ _ _ _ Hs) as Hgt.
  apply span_split in Hs as [-> Hg].
  destruct g' as [|x g']; [discriminate|].
  destruct s2 as [|gt w2]; [discriminate|].
  destruct (forallb is_space w2) eqn:Hw2; [|discriminate].
  injection H as <-.
  cbn in Hgt. apply negb_false_iff, N.eqb_eq in Hgt. subst gt.
  exists w1, w2. repeat split; try assumption; discriminate.
Qed.

Lemma match_text_url_sound (s t g : str) :
  match_text_url s = Some (t, g) ->
  exists w1 w2,
    s = t ++ w1 ++ ch "<" :: g ++ ch ">" :: w2
    /\ forallb is_space w1 = true /\ forallb is_space w2 = true
    /\ g <> [] /\ forallb (not_char (ch ">")) g = true
    /\ forallb (not_char 10%N) t = true.
Proof.
  revert t; induction s as [|c s IH]; intros t H; cbn [match_text_url] in H.
  - destruct (match_url_tail []) as [g'|] eqn:Hm; [|discriminate].
    injection H as <- <-.
    destruct (match_url_tail_sound _ _ Hm) as (w1 & w2 & E & H1 & H2 & H3 & H4).
    exists w1, w2. now repeat split.
  - destruct (match_url_tail (c :: s)) as [g'|] eqn:Hm.
    + injection H as <- <-.
      destruct (match_url_tail_sound _ _ Hm)
        as (w1 & w2 & E & H1 & H2 & H3 & H4).
      exists w1, w2. now repeat split.
    + destruct (N.eqb c 10) eqn:Hc; [discriminate|].
      destruct (match_text_url s) as [[t' g']|]; [|discriminate].
      injection H as <- <-.
      destruct (IH t' eq_refl) as (w1 & w2 & E & H1 & H2 & H3 & H4 & H5).
      exists w1, w2. repeat split; try assumption.
      * cbn [app]. now rewrite <- E.
      * cbn [forallb]. unfold not_char at 1. now rewrite Hc.
Qed.

Lemma match_url_tail_marker (w1 url w2 : str) :
  forallb is_space w1 = true -> forallb is_space w2 = true ->
  url <> [] -> forallb (not_char (ch ">")) url = true ->
  match_url_tail (w1 ++ ch "<" :: url ++ ch ">" :: w2) = Some url.
Proof.
  intros H1 H2 Hu Hg. unfold match_url_tail.
  rewrite (lstrip_spaces w1 _ H1). cbn [lstrip].
  change (is_space (ch "<")) with false. cbv iota. rewrite N.eqb_refl.
  rewrite (span_all (fun c => negb (N.eqb c (ch ">"))) url (ch ">" :: w2) Hg)
    by reflexivity.
  destruct url; [contradiction|]. now rewrite H2.
Qed.

Lemma lstrip_nil_spaces (s : str) :
  lstrip s = [] -> forallb is_space s = true.
Proof.
  intros H. destruct (lstrip_split s) as (w & E & Hw).
  rewrite H, app_nil_r in E. now subst.
Qed.

Lemma match_text_url_tail (s : str) :
  match_text_url s
  = match match_url_tail s with
    | Some g => Some ([], g)
    | None =>
        match s with
        | c :: r =>
            if N.eqb c 10 then None
            else match match_text_url r with
                 | Some (t, g) => Some (c :: t, g)
                 | None => None
                 end
        | [] => None
        end
    end.
Proof. now destruct s. Qed.

Lemma match_text_url_marker (text w1 url w2 : str) :
  forallb (fun c => negb (N.eqb c (ch "<")) && negb (N.eqb c 10)) text = true ->
  forallb is_space w1 = true -> forallb is_space w2 = true ->
  url <> [] -> forallb (not_char (ch ">")) url = true ->
  exists t w,
    match_text_url (text ++ w1 ++ ch "<" :: url ++ ch ">" :: w2) = Some (t, url)
    /\ text = t ++ w /\ forallb is_space w = true.
Proof.
  intros Ht H1 H2 Hu Hg.
  induction text as [|c text IH].
  - exists [], []. cbn [app]. split; [|now split].
    rewrite match_text_url_tail.
    now rewrite (match_url_tail_marker w1 url w2 H1 H2 Hu Hg).
  - cbn [forallb] in Ht. apply andb_true_iff in Ht as [Hc Ht].
    apply andb_true_iff in Hc as [Hlt Hnl].
    apply negb_true_iff in Hlt, Hnl.
    cbn [app match_text_url].
    destruct (forallb is_space (c :: text)) eqn:Hsp.
    + exists [], (c :: text). split; [|now split].
      assert (Hsp1 : forallb is_space ((c :: text) ++ w1) = true)
        by (rewrite forallb_app; now rewrite Hsp, H1).
      pose proof (match_url_tail_marker _ url w2 Hsp1 H2 Hu Hg) as Hm.
      rewrite <- app_assoc in Hm. cbn [app] in Hm. now rewrite Hm.
    + assert (Hnone : match_url_tail
                        (c :: text ++ w1 ++ ch "<" :: url ++ ch ">" :: w2)
                      = None).
      { unfold match_url_tail.
        assert (Hl : lstrip (c :: text) <> []).
        { intros E. apply lstrip_nil_spaces in E. congruence. }
        pose proof (lstrip_app (c :: text)
                      (w1 ++ ch "<" :: url ++ ch ">" :: w2) Hl) as Ea.
        cbn [app] in Ea. rewrite Ea.
        destruct (lstrip (c :: text)) as [|d r] eqn:Ed; [contradiction|].
        cbn [app].
        assert (Hin : In d (c :: text)).
        { destruct (lstrip_split (c :: text)) as (w & Es & _).
          rewrite Es, Ed. apply in_or_app. right. now left. }
        assert (Hd : N.eqb d (ch "<") = false).
        { destruct Hin as [<-|Hin]; [exact Hlt|].
          rewrite forallb_forall in Ht. specialize (Ht d Hin).
          apply andb_true_iff in Ht as [Hd _]. now apply negb_true_iff. }
        now rewrite Hd. }
      rewrite Hnone, Hnl.
      destruct (IH Ht) as (t & w & Em & Et & Hw).
      rewrite Em. exists (c :: t), w. split; [reflexivity|].
      split; [cbn [app]; now rewrite <- Et|exact Hw].
Qed.

(** X6: what [split_full_link] finds and what it accepts.  When it gives
    an address, the line ends in the address between angle brackets,
    followed by white space at most; the address has no [>] and comes back
    stripped, and so does the text before it.  And every line made of a
    text without [<] and line feed, white space or none, and a non-empty
    address without [>] between angle brackets splits into the text and
    the address, both stripped. *)
Theorem split_full_link_address :
  (forall line text url : str,
     split_full_link line = (text, Some url) ->
     exists t w1 g w2 : str,
       line = t ++ w1 ++ lit "<" ++ g ++ lit ">" ++ w2
       /\ forallb is_space w1 = true /\ forallb is_space w2 = true
       /\ g <> [] /\ forallb (not_char (ch ">")) g = true
       /\ text = strip t /\ url = strip g)
  /\ (forall text w1 url w2 : str,
        forallb (fun c => negb (N.eqb c (ch "<")) && negb (N.eqb c 10)) text
        = true ->
        forallb is_space w1 = true -> forallb is_space w2 = true ->
        url <> [] -> forallb (not_char (ch ">")) url = true ->
        split_full_link (text ++ w1 ++ lit "<" ++ url ++ lit ">" ++ w2)
        = (strip text, Some (strip url))).
Proof.
  split.
  - intros line text url. unfold split_full_link.
    destruct (match_text_url line) as [[t g]|] eqn:Hm; [|discriminate].
    intros [= <- <-].
    destruct (match_text_url_sound _ _ _ Hm)
      as (w1 & w2 & E & H1 & H2 & H3 & H4 & _).
    exists t, w1, g, w2. now repeat split.
  - intros text w1 url w2 Ht H1 H2 Hu Hg. unfold split_full_link.
    destruct (match_text_url_marker text w1 url w2 Ht H1 H2 Hu Hg)
      as (t & w & Em & Et & Hw).
    change (text ++ w1 ++ lit "<" ++ url ++ lit ">" ++ w2)
      with (text ++ w1 ++ ch "<" :: url ++ ch ">" :: w2).
    rewrite Em. f_equal. rewrite Et. symmetry. now apply strip_spaces_r.
Qed.

Lemma split_full_link_address_witness :
  split_full_link (lit "Ver  bases  <  https://x.example/a?b=1 >")
  = (lit "Ver  bases", Some (lit "https://x.example/a?b=1")).
Proof.
  apply (proj2 split_full_link_address (lit "Ver  bases") (lit "  ")
           (lit "  https://x.example/a?b=1 ") []);
    try reflexivity; discriminate.
Defined.

(** ** Content lines *)

(** A line of [splitlines] is made of characters of the text that are not
    line boundaries. *)
Lemma splitlines_from_chars (n : nat) :
  forall s cur line c,
  length s <= n ->
  In line (splitlines_from cur s) -> In c line ->
  In c cur \/ (In c s /\ is_linebreak c = false).
Proof.
  induction n as [|n IH]; intros s cur line c Hlen.
  - destruct s; [|simpl in Hlen; lia]. cbn [splitlines_from].
    destruct cur; [contradiction|]. intros [<-|[]] Hc. now left.
  - destruct s as [|x r].
    + cbn [splitlines_from]. destruct cur; [contradiction|].
      intros [<-|[]] Hc. now left.
    + simpl in Hlen. cbn [splitlines_from].
      destruct (is_linebreak x) eqn:Hx.
      * intros [<-|Hin] Hc; [now left|]. right.
        assert (Hr : In c r /\ is_linebreak c = false).
        { destruct r as [|y r'].
          - cbn [splitlines_from] in Hin. contradiction.
          - destruct (N.eqb x 13 && N.eqb y 10).
            + destruct (IH r' [] line c ltac:(simpl in Hlen; lia) Hin Hc)
                as [[]|[H1 H2]]. split; [now right|assumption].
            + destruct (IH (y :: r') [] line c ltac:(lia) Hin Hc)
                as [[]|[H1 H2]]. now split. }
        destruct Hr as [H1 H2]. split; [now right|assumption].
      * intros Hin Hc.
        destruct (IH r (cur ++ [x]) line c ltac:(lia) Hin Hc) as [H|[H1 H2]].
        -- apply in_app_or in H as [H|[<-|[]]]; [now left|].
           right. split; [now left|assumption].
        -- right. split; [now right|assumption].
Qed.

Lemma filter_none (A : Type) (f : A -> bool) (l : list A) :
  (forall x, In x l -> f x = false) -> filter f l = [].
Proof.
  induction l as [|x l IH]; intros H; [reflexivity|].
  cbn [filter]. rewrite (H x) by now left.
  apply IH. intros y Hy. apply H. now right.
Qed.

Lemma content_line_clean (text line : str) :
  In line (content_lines text) ->
  line <> [] /\ strip line = line
  /\ (forall c, In c line -> In c text /\ is_linebreak c = false).
Proof.
  intros Hin. unfold content_lines in Hin.
  apply in_map_iff in Hin as (raw & <- & Hraw).
  apply filter_In in Hraw as [Hraw Hne].
  split; [now destruct (strip raw)|].
  split; [apply strip_idempotent|].
  intros c Hc. apply strip_sublist in Hc.
  destruct (splitlines_from_chars (length text) text [] raw c
              (le_n _) Hraw Hc) as [[]|H]. exact H.
Qed.

(** X7: every content line of a text, as all the parsers take them, is
    not empty, is stripped (stripping it again changes nothing), is made
    of characters of the text and holds no line boundary; and a text of
    white space only has no content line at all. *)
Theorem content_lines_clean (text : str) :
  (forall line, In line (content_lines text) ->
     line <> [] /\ strip line = line
     /\ (forall c, In c line -> In c text /\ is_linebreak c = false))
  /\ (forallb is_space text = true -> content_lines text = []).
Proof.
  split.
  - intros line Hin. now apply content_line_clean.
  - intros Hsp. unfold content_lines.
    rewrite filter_none; [reflexivity|].
    intros raw Hraw.
    assert (Hall : forallb is_space raw = true).
    { apply forallb_forall. intros c Hc.
      destruct (splitlines_from_chars (length text) text [] raw c
                  (le_n _) Hraw Hc) as [[]|[H _]].
      rewrite forallb_forall in Hsp. now apply Hsp. }
    now rewrite (strip_all_space raw Hall).
Qed.

Lemma content_lines_clean_witness :
  content_lines (lit "   
  	
 ") = [].
Proof.
  apply (proj2 (content_lines_clean (lit "   
  	
 "))). reflexivity.
Defined.

(** ** Reading: plain files, and no carriage return *)

Lemma universal_newlines_no_cr (n : nat) :
  forall s, length s <= n -> count_char 13%N (universal_newlines s) = 0.
Proof.
  induction n as [|n IH]; intros s Hlen.
  - destruct s; [reflexivity|simpl in Hlen; lia].
  - destruct s as [|c r]; [reflexivity|]. simpl in Hlen.
    cbn [universal_newlines].
    destruct (N.eqb c 13) eqn:Hc.
    + rewrite count_char_cons. cbn [N.eqb Pos.eqb plus].
      destruct r as [|c' r']; [reflexivity|].
      destruct (N.eqb c' 10); apply IH; simpl in *; lia.
    + rewrite count_char_cons, N.eqb_sym, Hc. apply IH. lia.
Qed.

Lemma decode_utf8_ascii (data : bytes) :
  forallb (fun b => N.ltb b 128) data = true -> decode_utf8 data = Ok data.
Proof.
  induction data as [|b r IH]; intros H; [reflexivity|].
  cbn [forallb] in H. apply andb_true_iff in H as [Hb H].
  cbn [decode_utf8]. now rewrite Hb, (IH H).
Qed.

Section ReadingMore.
Context {RT : Runtime}.

(** X8: the text [read_text] returns never holds a carriage return,
    whatever the file; a file of ASCII bytes is read as those bytes, its
    line ends translated, and a byte order mark before them is dropped. *)
Theorem read_text_plain (data : bytes) :
  (forall text, read_text (File data) = Ok text ->
     count_char 13%N text = 0)
  /\ (forallb (fun b => N.ltb b 128) data = true ->
      read_text (File data) = Ok (universal_newlines data)
      /\ read_text (File (239 :: 187 :: 191 :: data)%N)
         = Ok (universal_newlines data)).
Proof.
  split.
  - intros text. unfold read_text.
    assert (H : forall encs, read_text_try encs data = Ok text ->
                count_char 13%N text = 0).
    { induction encs as [|enc more IH]; cbn [read_text_try].
      - intros [= <-]. now apply (universal_newlines_no_cr _ _ (le_n _)).
      - destruct (decode enc data) as [s|e].
        + intros [= <-]. now apply (universal_newlines_no_cr _ _ (le_n _)).
        + destruct e; try discriminate. exact IH. }
    apply H.
  - intros Ha. pose proof (decode_utf8_ascii data Ha) as Hd.
    assert (Hsig : decode_utf8_sig data = Ok data).
    { unfold decode_utf8_sig. destruct data as [|b0 r]; [reflexivity|].
      cbn [forallb] in Ha. apply andb_true_iff in Ha as [Hb _].
      apply N.ltb_lt in Hb.
      assert (E1 : startswith (b0 :: r) BOM_UTF8 = false).
      { unfold BOM_UTF8. cbn [startswith].
        destruct (N.eqb_spec b0 239); [lia|reflexivity]. }
      assert (E2 : startswith BOM_UTF8 (b0 :: r) = false).
      { unfold BOM_UTF8. cbn [startswith].
        destruct (N.eqb_spec 239 b0); [lia|reflexivity]. }
      rewrite E1, E2. now destruct (Nat.ltb _ _). }
    split; unfold read_text, read_text_try, decode.
    + now rewrite Hsig.
    + unfold decode_utf8_sig.
      change (Nat.ltb (length (239 :: 187 :: 191 :: data)%N) 3) with false.
      change (startswith BOM_UTF8 (239 :: 187 :: 191 :: data)%N) with true.
      change (skipn 3 (239 :: 187 :: 191 :: data)%N) with data.
      now rewrite Hd.
Qed.

End ReadingMore.

Lemma read_text_plain_witness :
  read_text (RT := Latin.runtime) (File (239 :: 187 :: 191 :: [72; 105; 13; 10; 33])%N)
  = Ok [72; 105; 10; 33]%N.
Proof.
  apply (proj2 (proj2 (read_text_plain (RT := Latin.runtime)
                         [72; 105; 13; 10; 33]%N) eq_refl)).
Defined.

(** ** The order of equal keys *)

Lemma insert_sorted_stable (A : Type) (key : A -> N) (k : N) (x : A)
  (l : list A) :
  filter (fun y => N.eqb (key y) k)
    (insert_sorted (fun a b => N.leb (key a) (key b)) x l)
  = filter (fun y => N.eqb (key y) k) (x :: l).
Proof.
  induction l as [|y l IH]; [reflexivity|].
  cbn [insert_sorted].
  destruct (N.leb_spec (key x) (key y)) as [Hle|Hlt]; [reflexivity|].
  cbn [filter] in *. rewrite IH.
  destruct (N.eqb_spec (key x) k) as [Hx|Hx];
    destruct (N.eqb_spec (key y) k) as [Hy|Hy]; try reflexivity.
  lia.
Qed.

Lemma sorted_stable (A : Type) (key : A -> N) (k : N) (l : list A) :
  filter (fun y => N.eqb (key y) k)
    (sorted (fun a b => N.leb (key a) (key b)) l)
  = filter (fun y => N.eqb (key y) k) l.
Proof.
  induction l as [|x l IH]; [reflexivity|].
  cbn [sorted]. rewrite insert_sorted_stable. cbn [filter]. now rewrite IH.
Qed.

Section Ties.
Context {RT : Runtime}.

(** X9: the sort of the sections is stable: the section files that carry
    the same number come out, among themselves, in the order in which the
    directory enumerates them. *)
Theorem sections_ties_in_enumeration_order (cdir entries : listing)
  (secs : list Sec) (n : N) :
  lookup (lit "Despegables") cdir = Some (Dir entries) ->
  parse_sections cdir = Ok secs ->
  filter (fun sec => N.eqb (sec_order sec) n) secs
  = filter (fun sec => N.eqb (sec_order sec) n) (sections_of_files entries).
Proof.
  intros Hl. unfold parse_sections. rewrite Hl. cbn [entries_of].
  destruct (collect_sections (glob (lit "Des") (lit ".txt") entries))
    as [found|] eqn:Hc; [|discriminate].
  intros [= <-].
  assert (Hf : found = sections_of_files entries).
  { rewrite <- sections_of_files_glob.
    clear Hl. revert found Hc.
    induction (glob (lit "Des") (lit ".txt") entries) as [|[name path] ps IH];
      intros found; cbn [collect_sections sections_of_files flat_map].
    - now intros [= <-].
    - fold (sections_of_files ps). unfold section_of.
      destruct (match_numbered (lit "Des") (ch "-") name)
        as [[digits title]|] eqn:Hm.
      + destruct path as [data|d|]; [|discriminate|discriminate].
        rewrite read_text_file.
        destruct (collect_sections ps) as [rest|]; [|discriminate].
        intros [= <-]. cbn [app]. f_equal. now apply IH.
      + intros H. rewrite (IH found H). now destruct path. }
  subst found. apply (sorted_stable Sec sec_order).
Qed.

End Ties.

Lemma sections_ties_in_enumeration_order_witness :
  let entries := [(lit "Des2-Z.txt", File []); (lit "Des01-B.txt", File []);
                  (lit "Des1-A.txt", File [])] in
  let secs := sorted sec_le (sections_of_files (RT := Latin.runtime) entries) in
  parse_sections (RT := Latin.runtime) [(lit "Despegables", Dir entries)]
  = Ok secs
  /\ map sec_title (filter (fun sec => N.eqb (sec_order sec) 1) secs)
     = [lit "B"; lit "A"].
Proof.
  intros entries secs. split; [reflexivity|].
  rewrite (sections_ties_in_enumeration_order (RT := Latin.runtime)
             [(lit "Despegables", Dir entries)] entries secs 1%N
             eq_refl eq_refl).
  reflexivity.
Defined.

(** ** When the page is produced *)


Section Produced.
Context {RT : Runtime}.

Lemma read_text_ok (path : node) :
  is_ok (read_text path) = is_file path /\ kind_error (read_text path).
Proof.
  destruct path as [data|d|]; [|split; [reflexivity|cbn; auto]..].
  rewrite read_text_file. now split.
Qed.

Lemma parse_title_ok (cdir : listing) :
  is_ok (parse_title cdir) = readable (lookup (lit "Titulo.txt") cdir)
  /\ kind_error (parse_title cdir).
Proof.
  unfold parse_title.
  destruct (lookup (lit "Titulo.txt") cdir) as [[data|d|]|];
    [|split; [reflexivity|now left]|now split|now split].
  rewrite read_text_file. now split.
Qed.

Lemma parse_body_ok (cdir : listing) :
  is_ok (parse_body cdir) = readable (lookup (lit "Cuerpo.txt") cdir)
  /\ kind_error (parse_body cdir).
Proof.
  unfold parse_body.
  destruct (lookup (lit "Cuerpo.txt") cdir) as [[data|d|]|];
    [|split; [reflexivity|now left]|now split|now split].
  rewrite read_text_file. now split.
Qed.

Lemma parse_contacto_ok (cdir : listing) :
  is_ok (parse_contacto cdir) = readable (lookup (lit "Contacto.txt") cdir)
  /\ kind_error (parse_contacto cdir).
Proof.
  unfold parse_contacto.
  destruct (lookup (lit "Contacto.txt") cdir) as [[data|d|]|];
    [|split; [reflexivity|now left]|now split|now split].
  rewrite read_text_file. now split.
Qed.

Lemma parse_redes_ok (cdir : listing) :
  is_ok (parse_redes cdir) = readable (lookup (lit "Redes.txt") cdir)
  /\ kind_error (parse_redes cdir).
Proof.
  unfold parse_redes.
  destruct (lookup (lit "Redes.txt") cdir) as [[data|d|]|];
    [|split; [reflexivity|now left]|now split|now split].
  rewrite read_text_file. now split.
Qed.

Lemma collect_sections_ok (paths : listing) :
  is_ok (collect_sections paths) = forallb section_entry_ok paths
  /\ kind_error (collect_sections paths).
Proof.
  induction paths as [|[name path] paths [IH1 IH2]]; [now split|].
  cbn [collect_sections forallb]. unfold section_entry_ok at 1. cbn [fst snd].
  destruct (match_numbered (lit "Des") (ch "-") name) as [[digits title]|].
  - destruct path as [data|d|]; [|split; [reflexivity|cbn; auto]..].
    rewrite read_text_file. cbn [is_file andb].
    destruct (collect_sections paths); [now split|]. now split.
  - now split.
Qed.

Lemma collect_buttons_ok (paths : listing) :
  is_ok (collect_buttons paths) = forallb button_entry_ok paths
  /\ kind_error (collect_buttons paths).
Proof.
  induction paths as [|[name path] paths [IH1 IH2]]; [now split|].
  cbn [collect_buttons forallb]. unfold button_entry_ok at 1. cbn [fst snd].
  destruct (str_eqb (unicode_lower name) (lit "pie.txt")); [now split|].
  destruct (match_numbered [] (ch ".") name) as [[digits title]|].
  - destruct path as [data|d|]; [|split; [reflexivity|cbn; auto]..].
    rewrite read_text_file. cbn [is_file andb].
    destruct (collect_buttons paths); [now split|]. now split.
  - now split.
Qed.

Lemma collect_groups_ok (dirs : listing) :
  is_ok (collect_groups dirs) = forallb group_entry_ok dirs
  /\ kind_error (collect_groups dirs).
Proof.
  induction dirs as [|[name [data|group_dir|]] dirs [IH1 IH2]];
    [now split|now split| |now split].
  cbn [collect_groups forallb]. unfold group_entry_ok at 1. cbn [fst snd].
  assert (K : forall footer_text : str,
            let r :=
              (let* buttons := collect_buttons (glob [] (lit ".txt") group_dir)
               in let* rest := collect_groups dirs
               in match buttons with
                  | [] => Ok rest
                  | _ :: _ =>
                      Ok ({| grp_title := name;
                             grp_buttons := sorted btn_le buttons;
                             grp_footer := footer_text |} :: rest)
                  end) in
            is_ok r
            = forallb button_entry_ok (glob [] (lit ".txt") group_dir)
              && forallb group_entry_ok dirs
            /\ kind_error r).
  { intros footer_text.
    destruct (collect_buttons_ok (glob [] (lit ".txt") group_dir))
      as [B1 B2].
    rewrite <- B1, <- IH1.
    destruct (collect_buttons (glob [] (lit ".txt") group_dir))
      as [buttons|e]; [|now split].
    destruct (collect_groups dirs) as [rest|e]; [|now split].
    destruct buttons; now split. }
  destruct (lookup (lit "Pie.txt") group_dir) as [[data|d|]|];
    cbn [readable andb].
  - rewrite read_text_file. apply K.
  - split; [reflexivity|now left].
  - apply K.
  - apply K.
Qed.

Lemma parse_sections_ok (cdir : listing) :
  is_ok (parse_sections cdir)
  = forallb section_entry_ok
      (glob (lit "Des") (lit ".txt")
         (entries_of (lookup (lit "Despegables") cdir)))
  /\ kind_error (parse_sections cdir).
Proof.
  unfold parse_sections.
  destruct (lookup (lit "Despegables") cdir) as [[data|entries|]|];
    try (now split);
    match goal with
    | |- context [collect_sections ?l] =>
        destruct (collect_sections_ok l) as [H1 H2]; rewrite <- H1;
        destruct (collect_sections l); now split
    end.
Qed.

Lemma parse_buttons_ok (cdir : listing) :
  is_ok (parse_buttons cdir)
  = match lookup (lit "Botones") cdir with
    | None | Some Broken => true
    | Some (File _) => false
    | Some (Dir entries) => forallb group_entry_ok entries
    end
  /\ kind_error (parse_buttons cdir).
Proof.
  unfold parse_buttons.
  destruct (lookup (lit "Botones") cdir) as [[data|entries|]|].
  - split; [reflexivity|cbn; auto].
  - apply collect_groups_ok.
  - now split.
  - now split.
Qed.

Lemma parse_registro_ok (cdir : listing) :
  is_ok (parse_registro cdir)
  = match sorted path_le (glob (lit "REGISTRO") (lit ".txt") cdir) with
    | [] => true
    | (_, path) :: _ => is_file path
    end
  /\ kind_error (parse_registro cdir).
Proof.
  unfold parse_registro.
  destruct (sorted path_le (glob (lit "REGISTRO") (lit ".txt") cdir))
    as [|[name [data|d|]] more];
    [now split| |split; [reflexivity|cbn; auto]..].
  rewrite read_text_file. destruct (content_lines (file_text data)); now split.
Qed.

Lemma parse_beneficiarios_ok (cdir : listing) :
  is_ok (parse_beneficiarios cdir)
  = readable (lookup (lit "BENEFICIARIOS.txt") cdir)
  /\ kind_error (parse_beneficiarios cdir).
Proof.
  unfold parse_beneficiarios.
  destruct (lookup (lit "BENEFICIARIOS.txt") cdir) as [[data|d|]|];
    [|split; [reflexivity|now left]|now split|now split].
  rewrite read_text_file.
  destruct (content_lines (file_text data)) as [|l ls]; [now split|].
  destruct (Nat.ltb 2 (length (l :: ls))); now split.
Qed.

(** X10: over a tree of files, directories and links whose target is
    missing, the page is produced exactly when every path the loader
    opens is a file and the directory of the buttons, if it exists, is a
    directory: the title, body, beneficiary, contact and network files
    and the footers of the groups, when they exist; the first
    registration file, the section files and the button files of each
    group, as the directory lists them.  Whatever the bytes of the files,
    no decoding error comes out of [build_html]: when it raises over such
    a tree, a path was a directory where a file is read, a file where a
    directory is enumerated, or a listed link with no target. *)
Theorem build_html_produced (root : listing) :
  is_ok (build_html root) = content_ok (content_dir root)
  /\ kind_error (build_html root).
Proof.
  unfold build_html, content_ok. set (cdir := content_dir root).
  destruct (parse_title_ok cdir) as [T1 T2].
  destruct (parse_body_ok cdir) as [B1 B2].
  destruct (parse_sections_ok cdir) as [S1 S2].
  destruct (parse_buttons_ok cdir) as [G1 G2].
  destruct (parse_beneficiarios_ok cdir) as [N1 N2].
  destruct (parse_registro_ok cdir) as [R1 R2].
  destruct (parse_contacto_ok cdir) as [C1 C2].
  destruct (parse_redes_ok cdir) as [W1 W2].
  rewrite <- T1, <- B1, <- S1, <- G1, <- N1, <- R1, <- C1, <- W1.
  destruct (parse_title cdir) as [[[header title] subtitle]|];
    [|now split].
  destruct (parse_body cdir); [|now split].
  destruct (parse_sections cdir); [|now split].
  destruct (parse_buttons cdir); [|now split].
  destruct (parse_beneficiarios cdir); [|now split].
  destruct (parse_registro cdir); [|now split].
  destruct (parse_contacto cdir); [|now split].
  destruct (parse_redes cdir); now split.
Qed.

End Produced.

(** ** The groups of buttons *)

Lemma join_chars (sep : str) (parts : list str) (c : char) :
  In c (join sep parts) ->
  In c sep \/ exists p, In p parts /\ In c p.
Proof.
  induction parts as [|p [|q parts] IH]; cbn [join].
  - contradiction.
  - intros H. right. exists p. split; [now left|assumption].
  - intros H. apply in_app_or in H as [H|H].
    + right. exists p. split; [now left|assumption].
    + apply in_app_or in H as [H|H]; [now left|].
      destruct (IH H) as [Hs|(r & Hr & Hc)]; [now left|].
      right. exists r. split; [now right|assumption].
Qed.

Section Groups.
Context {RT : Runtime}.

Lemma collect_buttons_text (paths : listing) (buttons : list Button) :
  collect_buttons paths = Ok buttons ->
  forall b c, In b buttons -> In c (btn_text b) -> is_linebreak c = false.
Proof.
  revert buttons; induction paths as [|[name path] paths IH];
    intros buttons; cbn [collect_buttons].
  - intros [= <-] b c [].
  - destruct (str_eqb (unicode_lower name) (lit "pie.txt")); [apply IH|].
    destruct (match_numbered [] (ch ".") name) as [[digits title]|];
      [|apply IH].
    destruct (read_text path) as [text|]; [|discriminate].
    destruct (collect_buttons paths) as [rest|]; [|discriminate].
    intros [= <-] b c [<-|Hb] Hc; [|now apply (IH rest eq_refl b c)].
    cbn [btn_text] in Hc.
    apply join_chars in Hc as [[<-|[]]|(line & Hline & Hc)]; [reflexivity|].
    now apply (content_line_clean text line Hline).
Qed.

Lemma btn_le_total (a b : Button) : btn_le a b = true \/ btn_le b a = true.
Proof.
  unfold btn_le.
  destruct (N.leb_spec (btn_order a) (btn_order b)); [now left|].
  right. apply N.leb_le. lia.
Qed.

Lemma btn_le_trans (a b c : Button) :
  btn_le a b = true -> btn_le b c = true -> btn_le a c = true.
Proof. unfold btn_le. rewrite !N.leb_le. lia. Qed.

(** X11: every group of buttons the loader returns is a directory of the
    directory of the buttons and has at least one button; its buttons are
    in the order of their numbers, and the text of a button, the lines of
    its file joined by spaces, is one line: it holds no line boundary.  A
    directory without a button file gives no group. *)
Theorem button_groups_sound (cdir entries : listing) (groups : list Group) :
  lookup (lit "Botones") cdir = Some (Dir entries) ->
  parse_buttons cdir = Ok groups ->
  forall group, In group groups ->
    grp_buttons group <> []
    /\ StronglySorted (fun a b => btn_le a b = true) (grp_buttons group)
    /\ (exists group_dir, In (grp_title group, Dir group_dir) entries)
    /\ (forall b c, In b (grp_buttons group) -> In c (btn_text b) ->
          is_linebreak c = false).
Proof.
  intros Hl. unfold parse_buttons. rewrite Hl. clear Hl.
  revert groups;
    induction entries as [|[name [data|group_dir|]] entries IH];
    intros groups; cbn [collect_groups].
  - intros [= <-] group [].
  - intros H group Hin.
    destruct (IH groups H group Hin) as (H1 & H2 & (d & Hd) & H4).
    repeat split; try assumption. exists d. now right.
  - destruct (match lookup (lit "Pie.txt") group_dir with
              | Some (File _ as footer_path) | Some (Dir _ as footer_path) =>
                  let* text := read_text footer_path in
                  Ok (join (lit " ") (content_lines text))
              | _ => Ok []
              end) as [footer|]; [|discriminate].
    destruct (collect_buttons (glob [] (lit ".txt") group_dir))
      as [buttons|] eqn:Hb; [|discriminate].
    destruct (collect_groups entries) as [rest|]; [|discriminate].
    assert (Hrest : forall group, In group rest ->
              grp_buttons group <> []
              /\ StronglySorted (fun a b => btn_le a b = true)
                   (grp_buttons group)
              /\ (exists d, In (grp_title group, Dir d)
                              ((name, Dir group_dir) :: entries))
              /\ (forall b c, In b (grp_buttons group) ->
                    In c (btn_text b) -> is_linebreak c = false)).
    { intros group Hin.
      destruct (IH rest eq_refl group Hin) as (H1 & H2 & (d & Hd) & H4).
      repeat split; try assumption. exists d. now right. }
    destruct buttons as [|b0 bs]; intros [= <-] group Hin;
      [now apply Hrest|].
    destruct Hin as [<-|Hin]; [|now apply Hrest].
    cbn [grp_buttons grp_title].
    change (insert_sorted btn_le b0 (sorted btn_le bs))
      with (sorted btn_le (b0 :: bs)).
    repeat split.
    + intros E.
      pose proof (Permutation_length (sorted_perm Button btn_le (b0 :: bs)))
        as Hp.
      rewrite E in Hp. discriminate.
    + apply sorted_strongly; [exact btn_le_total|exact btn_le_trans].
    + exists group_dir. now left.
    + intros b c Hin Hc.
      apply (Permutation_in _ (sorted_perm Button btn_le (b0 :: bs))) in Hin.
      exact (collect_buttons_text _ _ Hb b c Hin Hc).
  - intros H group Hin.
    destruct (IH groups H group Hin) as (H1 & H2 & (d & Hd) & H4).
    repeat split; try assumption. exists d. now right.
Qed.

End Groups.

Lemma button_groups_sound_witness :
  exists groups,
    parse_buttons (RT := Latin.runtime) [(lit "Botones", Dir demo_botones)]
    = Ok groups
    /\ map grp_title groups = [lit "Indicadores"]
    /\ map (fun g => map btn_text (grp_buttons g)) groups
       = [[lit "Total"; lit "En vias urbanas y rurales"]]
    /\ forall group, In group groups -> grp_buttons group <> [].
Proof.
  eexists. split; [vm_compute; reflexivity|].
  split; [reflexivity|]. split; [reflexivity|].
  intros group Hin.
  exact (proj1 (button_groups_sound (RT := Latin.runtime)
                  [(lit "Botones", Dir demo_botones)] demo_botones _
                  eq_refl eq_refl group Hin)).
Defined.

(** ** The beneficiary and the registration blocks, again *)

Lemma endswith_split (p s : str) :
  endswith p s = true -> exists pre, s = pre ++ p.
Proof.
  unfold endswith. intros H. apply startswith_split in H.
  exists (rev (skipn (length (rev p)) (rev s))).
  rewrite <- (rev_involutive p) at 2. rewrite <- rev_app_distr, <- H.
  now rewrite rev_involutive.
Qed.

Lemma startswith_app_short (p a b : str) :
  startswith p (a ++ b) = true -> length p <= length a ->
  startswith p a = true.
Proof.
  revert a; induction p as [|x p IH]; intros [|y a] H Hlen;
    cbn [startswith app length] in *; try reflexivity; try lia.
  apply andb_true_iff in H as [Hxy H]. rewrite Hxy.
  apply IH; [assumption|lia].
Qed.

Lemma stem_txt (base : str) : base <> [] -> stem (base ++ lit ".txt") = base.
Proof.
  intros Hb. unfold stem. rewrite rev_app_distr.
  change (find (lit ".") (rev (lit ".txt") ++ rev base)) with (Some 3).
  rewrite length_app. change (length (lit ".txt")) with 4.
  replace (length base + 4 - 1 - 3) with (length base) by lia.
  assert (Hl : 0 < length base) by (destruct base; [contradiction|simpl; lia]).
  assert (H1 : Nat.ltb 0 (length base) = true) by now apply Nat.ltb_lt.
  assert (H2 : Nat.ltb (length base) (length base + 4 - 1) = true)
    by (apply Nat.ltb_lt; lia).
  rewrite H1, H2. cbn [andb].
  now rewrite firstn_app, Nat.sub_diag, firstn_all, app_nil_r.
Qed.

Section BlocksMore.
Context {RT : Runtime}.

(** X12: the beneficiary block loses no line and takes none twice.  For a
    file with no content line there is no block, as for a missing file;
    otherwise the lead, the paragraph lines and the button line, when
    there is one, are the content lines of the file in their order, and
    there is a button line exactly when the file has three content lines
    or more. *)
Theorem beneficiarios_lines_kept (cdir : listing) (data : bytes) :
  lookup (lit "BENEFICIARIOS.txt") cdir = Some (File data) ->
  match content_lines (file_text data) with
  | [] => parse_beneficiarios cdir = Ok None
  | lines =>
      exists b,
        parse_beneficiarios cdir = Ok (Some b)
        /\ ben_title b = lit "BENEFICIARIOS"
        /\ ben_lead b :: ben_lines b
           ++ (if nonempty (ben_button b) then [ben_button b] else [])
           = lines
        /\ nonempty (ben_button b) = Nat.ltb 2 (length lines)
  end.
Proof.
  intros Hl. unfold parse_beneficiarios. rewrite Hl, read_text_file.
  pose proof (content_line_clean (file_text data)) as Hclean.
  destruct (content_lines (file_text data)) as [|l ls] eqn:E; [reflexivity|].
  destruct (Nat.ltb 2 (length (l :: ls))) eqn:Hlen.
  - eexists. split; [reflexivity|]. cbn [ben_title ben_lead ben_lines ben_button].
    split; [reflexivity|].
    apply Nat.ltb_lt in Hlen.
    destruct (@exists_last _ (l :: ls) ltac:(discriminate))
      as (init & la & Einit).
    assert (Hlast : In la (l :: ls))
      by (rewrite Einit; apply in_or_app; right; now left).
    destruct (Hclean _ Hlast) as [Hnonempty _].
    rewrite Einit, length_app in Hlen. cbn [length] in Hlen.
    rewrite Einit, last_last, removelast_last.
    destruct la as [|c la]; [contradiction|]. cbn [nonempty].
    split; [|reflexivity].
    destruct init as [|l' ls']; [cbn [length] in Hlen; lia|reflexivity].
  - eexists. split; [reflexivity|]. cbn [ben_title ben_lead ben_lines ben_button].
    cbn [nonempty hd tl]. now rewrite app_nil_r.
Qed.

(** X13: the title of the registration block is the name of its file
    without the extension: every name the pattern REGISTRO*.txt matches is
    REGISTRO, some text and .txt, and its stem is the name without .txt,
    so the title always starts with REGISTRO. *)
Theorem registro_title_of_name (name : str) :
  glob_match (lit "REGISTRO") (lit ".txt") name = true ->
  exists rest,
    name = lit "REGISTRO" ++ rest ++ lit ".txt"
    /\ stem name = lit "REGISTRO" ++ rest.
Proof.
  unfold glob_match. intros H.
  apply andb_true_iff in H as [H Hlen].
  apply andb_true_iff in H as [Hp Hs].
  apply Nat.leb_le in Hlen.
  destruct (endswith_split _ _ Hs) as [pre Epre]. subst name.
  rewrite length_app in Hlen.
  assert (Hpre : startswith (lit "REGISTRO") pre = true).
  { apply (startswith_app_short _ _ (lit ".txt") Hp). lia. }
  apply startswith_split in Hpre.
  exists (skipn (length (lit "REGISTRO")) pre).
  rewrite app_assoc, <- Hpre. split; [reflexivity|].
  apply stem_txt. intros ->. discriminate.
Qed.

End BlocksMore.

Lemma beneficiarios_lines_kept_witness :
  exists b,
    parse_beneficiarios (RT := Latin.runtime) demo_registro = Ok (Some b)
    /\ ben_lead b :: ben_lines b ++ [ben_button b]
       = [lit "Para todos"; lit "Linea uno"; lit "Linea dos";
          lit "Sin enlace"].
Proof.
  pose proof (beneficiarios_lines_kept (RT := Latin.runtime) demo_registro
                (lit "Para todos
Linea uno
Linea dos
Sin enlace") eq_refl) as H.
  vm_compute in H. destruct H as (b & Hb & _).
  exists b. split; [vm_compute; exact Hb|].
  inversion Hb. reflexivity.
Defined.

Lemma registro_title_of_name_witness :
  exists rest,
    lit "REGISTRO 2026.v2.txt" = lit "REGISTRO" ++ rest ++ lit ".txt"
    /\ stem (lit "REGISTRO 2026.v2.txt") = lit "REGISTRO" ++ rest.
Proof. apply registro_title_of_name. reflexivity. Defined.

(** ** Footers without a label *)

Lemma match_bracket_none (s : str) :
  count_char (ch ">") s = 0 -> match_bracket s = None.
Proof.
  intros H. unfold match_bracket. destruct s as [|c r]; [reflexivity|].
  destruct (N.eqb c (ch "<")); [|reflexivity].
  rewrite count_char_cons in H.
  assert (Hr : count_char (ch ">") r = 0)
    by (destruct (N.eqb (ch ">") c); [discriminate|exact H]).
  pose proof (span_all (fun c => negb (N.eqb c (ch ">"))) r []
                (count_char_none _ _ Hr) I) as Hs.
  rewrite app_nil_r in Hs. rewrite Hs. now destruct r.
Qed.

Lemma re_split_fuel_none (s : str) :
  forall fuel cur, count_char (ch ">") s = 0 ->
  re_split_fuel fuel cur s = [cur ++ s].
Proof.
  induction s as [|c r IH]; intros [|fuel] cur H; try reflexivity.
  - cbn [re_split_fuel]. now rewrite app_nil_r.
  - cbn [re_split_fuel]. rewrite (match_bracket_none (c :: r) H).
    rewrite count_char_cons in H.
    rewrite IH by (destruct (N.eqb (ch ">") c); [discriminate|exact H]).
    now rewrite <- app_assoc.
Qed.

Lemma endswith_none (x : char) (s : str) :
  count_char x s = 0 -> endswith [x] s = false.
Proof.
  intros H. unfold endswith. cbn [rev app].
  destruct (rev s) as [|c r] eqn:E; [reflexivity|].
  cbn [startswith]. rewrite andb_true_r.
  apply N.eqb_neq. intros <-.
  assert (Hin : In x s) by (apply in_rev; rewrite E; now left).
  apply count_char_none in H. rewrite forallb_forall in H.
  specialize (H x Hin). unfold not_char in H. now rewrite N.eqb_refl in H.
Qed.

Section FooterMore.
Context {RT : Runtime}.

(** X14: a footer that has no [<], or has no [>], holds no label: it is
    rendered as inline markup, whatever the sections. *)
Theorem footer_without_label (text : str) (sections : list Sec) :
  count_char (ch "<") text = 0 \/ count_char (ch ">") text = 0 ->
  render_footer_with_section_links text sections = render_inline true text.
Proof.
  intros H. rewrite render_footer_concat.
  assert (Hs : re_split text = [text]).
  { unfold re_split. destruct H as [H|H].
    - pose proof (re_split_fuel_plain text 1 [] [] H) as Hp.
      rewrite app_nil_r in Hp. cbn [app] in Hp.
      replace (S (length text)) with (length text + 1) by lia.
      now rewrite Hp.
    - now rewrite (re_split_fuel_none text _ [] H). }
  rewrite Hs. cbn [map concat]. rewrite app_nil_r.
  destruct H as [H|H]; [now apply render_part_plain|].
  unfold render_part. change (lit ">") with [ch ">"].
  rewrite (endswith_none (ch ">") text H).
  now rewrite andb_false_r.
Qed.

End FooterMore.

Lemma footer_without_label_witness :
  render_footer_with_section_links (RT := Latin.runtime)
    (lit "Fuente: **ONSV**, valores < 5 %") demo_sections
  = lit "Fuente: <strong>ONSV</strong>, valores &lt; 5 %".
Proof.
  rewrite (footer_without_label (RT := Latin.runtime)
             (lit "Fuente: **ONSV**, valores < 5 %") demo_sections
             (or_intror eq_refl)).
  reflexivity.
Defined.

(** ** The networks *)

Section Networks.
Context {RT : Runtime}.

(** X15: every network the loader returns has a name and an address that
    are not empty and are stripped, and the address has no [>]: a line
    without an address between angle brackets, with an empty address or
    with no name before it gives no network. *)
Theorem networks_sound (cdir : listing) (redes : list Red) :
  parse_redes cdir = Ok redes ->
  forall item, In item redes ->
    red_name item <> [] /\ red_url item <> []
    /\ strip (red_name item) = red_name item
    /\ strip (red_url item) = red_url item
    /\ count_char (ch ">") (red_url item) = 0.
Proof.
  unfold parse_redes.
  assert (H : forall path, (let* text := read_text path in
                            Ok (flat_map red_of_line (content_lines text)))
                           = Ok redes ->
              exists text, redes = flat_map red_of_line (content_lines text)).
  { intros path. destruct (read_text path) as [text|]; [|discriminate].
    intros [= <-]. now exists text. }
  intros Hr.
  assert (Hex : redes = []
                \/ exists text,
                     redes = flat_map red_of_line (content_lines text)).
  { destruct (lookup (lit "Redes.txt") cdir) as [[data|d|]|];
      try (left; now inversion Hr); right; exact (H _ Hr). }
  clear H Hr. destruct Hex as [->|[text ->]]; [intros item []|].
  intros item Hin.
  apply in_flat_map in Hin as (line & _ & Hin).
  unfold red_of_line, split_full_link in Hin.
  destruct (match_text_url line) as [[t g]|] eqn:Hm; [|contradiction].
  destruct (strip g) as [|u us] eqn:Eg; [contradiction|].
  destruct (strip t) as [|n ns] eqn:Et; [contradiction|].
  destruct Hin as [<-|[]]. cbn [red_name red_url].
  destruct (match_text_url_sound _ _ _ Hm) as (w1 & w2 & _ & _ & _ & _ & Hg & _).
  rewrite <- Eg, <- Et. repeat split; try (rewrite ?Eg, ?Et; discriminate);
    try apply strip_idempotent.
  unfold count_char.
  rewrite filter_none; [reflexivity|].
  intros c Hc. apply strip_sublist in Hc.
  rewrite forallb_forall in Hg. specialize (Hg c Hc).
  unfold not_char in Hg. apply negb_true_iff in Hg. now rewrite N.eqb_sym.
Qed.

End Networks.

Lemma networks_sound_witness :
  exists redes,
    parse_redes (RT := Latin.runtime)
      [(lit "Redes.txt", File (lit "facebook.png <https://fb.example/onsv>
sin direccion
 < https://x.example >
youtube.png < >"))] = Ok redes
    /\ map red_name redes = [lit "facebook.png"]
    /\ forall item, In item redes -> red_url item <> [].
Proof.
  eexists. split; [vm_compute; reflexivity|]. split; [reflexivity|].
  intros item Hin.
  exact (proj1 (proj2 (networks_sound (RT := Latin.runtime)
           [(lit "Redes.txt", File (lit "facebook.png <https://fb.example/onsv>
sin direccion
 < https://x.example >
youtube.png < >"))] _ eq_refl item Hin))).
Defined.

(** ** The identifiers of the sections *)

Lemma lit_injective (a b : string) : lit a = lit b -> a = b.
Proof.
  unfold lit. intros H.
  rewrite <- (string_of_list_ascii_of_string a),
          <- (string_of_list_ascii_of_string b).
  f_equal. revert H.
  generalize (list_ascii_of_string a), (list_ascii_of_string b).
  induction l as [|x l IH]; intros [|y l']; cbn [List.map];
    try discriminate; [reflexivity|].
  intros [= Hxy H]. f_equal; [|now apply IH].
  rewrite <- (ascii_N_embedding x), <- (ascii_N_embedding y). now rewrite Hxy.
Qed.

Lemma to_uint_nonnil (n : N) : N.to_uint n <> Decimal.Nil.
Proof.
  rewrite <- (DecimalN.Unsigned.of_to n), DecimalN.Unsigned.to_of.
  apply DecimalFacts.unorm_nonnil.
Qed.

Lemma to_uint_leading_zero (n : N) (u : Decimal.uint) :
  N.to_uint n = Decimal.D0 u -> u = Decimal.Nil.
Proof.
  intros H.
  assert (Hn : Decimal.unorm (N.to_uint n) = N.to_uint n).
  { rewrite <- (DecimalN.Unsigned.of_to n) at 2.
    now rewrite DecimalN.Unsigned.to_of. }
  rewrite H in Hn. rewrite DecimalFacts.unorm_D0 in Hn.
  destruct (Decimal.nzhead u) as [|v|v|v|v|v|v|v|v|v|v] eqn:Hz;
    [assert (H0 : Decimal.unorm u = Decimal.zero)
       by (now apply DecimalFacts.unorm_0);
     rewrite H0 in Hn; now injection Hn|..];
    rewrite DecimalFacts.unorm_nzhead in Hn by (rewrite Hz; discriminate);
    rewrite Hz in Hn; try discriminate.
  exfalso. injection Hn as Hu.
  apply (DecimalFacts.nzhead_nonzero u u). now rewrite Hz, Hu.
Qed.

Section Identifiers.
Context {RT : Runtime}.

Lemma str_of_int_injective (n m : N) : str_of_int n = str_of_int m -> n = m.
Proof.
  unfold str_of_int. intros H. apply lit_injective in H.
  apply DecimalN.Unsigned.to_uint_inj.
  pose proof (NilZero.usu (N.to_uint n) (to_uint_nonnil n)) as Hn.
  pose proof (NilZero.usu (N.to_uint m) (to_uint_nonnil m)) as Hm.
  rewrite H in Hn. rewrite Hn in Hm. now injection Hm.
Qed.

Lemma str_of_int_head (n : N) :
  exists c r, str_of_int n = c :: r /\ (c = ch "0" -> r = []).
Proof.
  unfold str_of_int.
  destruct (N.to_uint n) as [|u|u|u|u|u|u|u|u|u|u] eqn:E;
    try (eexists; eexists; split; [reflexivity|discriminate]).
  - now apply to_uint_nonnil in E.
  - apply to_uint_leading_zero in E. subst u.
    eexists; eexists; split; [reflexivity|reflexivity].
Qed.

Lemma format_02d_injective (n m : N) :
  format_02d n = format_02d m -> n = m.
Proof.
  unfold format_02d. intros H. apply str_of_int_injective.
  destruct (str_of_int_head n) as (c & r & En & Zn).
  destruct (str_of_int_head m) as (d & q & Em & Zm).
  rewrite En, Em in *. cbn [length] in H.
  destruct r as [|r0 r]; destruct q as [|q0 q]; cbn in H.
  - now injection H as ->.
  - injection H as <- <-. now specialize (Zm eq_refl).
  - injection H as -> ->. now specialize (Zn eq_refl).
  - exact H.
Qed.

(** X16: two sections have the same identifier in the page exactly when
    they have the same number: the identifiers of sections with different
    numbers never collide, with one digit padded or with more than two. *)
Theorem section_ids_by_number (a b : Sec) :
  sec_id a = sec_id b <-> sec_order a = sec_order b.
Proof.
  unfold sec_id. split.
  - intros H. apply app_inv_head in H. now apply format_02d_injective.
  - now intros ->.
Qed.

End Identifiers.

Lemma section_ids_by_number_witness :
  sec_order {| sec_order := 7; sec_title := lit "A"; sec_items := [] |}
  = sec_order {| sec_order := 7; sec_title := lit "B"; sec_items := [] |}.
Proof.
  apply (proj1 (section_ids_by_number
           {| sec_order := 7; sec_title := lit "A"; sec_items := [] |}
           {| sec_order := 7; sec_title := lit "B"; sec_items := [] |})).
  reflexivity.
Defined.

(** ** Texts without a link marker *)

Lemma match_link_app (p q g1 g2 after : str) :
  match_link p = Some (g1, g2, after) ->
  match_link (p ++ q) = Some (g1, g2, after ++ q).
Proof.
  intros H. apply match_link_split in H as (E & H1 & H2 & A1 & A2).
  rewrite E.
  replace ((html "<link:`" ++ g1 ++ dq :: ch "=" :: g2 ++ ch ">" :: after)
           ++ q)
    with (html "<link:`" ++ g1 ++ dq :: ch "=" :: g2
          ++ ch ">" :: (after ++ q)).
  - now apply match_link_marker.
  - rewrite <- !app_assoc. cbn [app]. rewrite <- !app_assoc. reflexivity.
Qed.

Lemma link_free_app (a b : str) :
  link_free (a ++ b) = true -> link_free a = true /\ link_free b = true.
Proof.
  induction a as [|c a IH]; intros H; [now split|].
  change ((c :: a) ++ b) with (c :: (a ++ b)) in H.
  cbn [link_free] in H. apply andb_true_iff in H as [Hm H].
  destruct (IH H) as [Ha Hb]. split; [|exact Hb].
  cbn [link_free]. rewrite Ha, andb_true_r.
  destruct (match_link (c :: a)) as [[[g1 g2] after]|] eqn:E; [|reflexivity].
  apply (match_link_app _ b) in E.
  change ((c :: a) ++ b) with (c :: (a ++ b)) in E.
  now rewrite E in Hm.
Qed.

Lemma link_free_substring (t s : str) :
  substring t s -> link_free s = true -> link_free t = true.
Proof.
  intros (pre & post & ->) H.
  apply link_free_app in H as [_ H]. now apply link_free_app in H as [H _].
Qed.

Lemma marker_at_link_free (s : str) :
  link_free s = true -> marker_at true s = marker_at false s.
Proof.
  destruct s as [|c rest]; [reflexivity|]. intros H.
  cbn [link_free] in H. apply andb_true_iff in H as [H _].
  unfold marker_at.
  destruct (match_link (c :: rest)); [discriminate|].
  now destruct (true && startswith (lit "<link:") (c :: rest)).
Qed.

(** X17: on a text in which no position starts a complete link marker,
    allowing links changes nothing: the renderer gives the same output
    with and without them, and that output holds no anchor. *)
Theorem render_inline_links_inert (s : str) :
  link_free s = true ->
  render_inline true s = render_inline false s
  /\ contains (lit "<a") (render_inline true s) = false.
Proof.
  intros Hfree.
  assert (E : render_inline true s = render_inline false s).
  { remember (length s) as n eqn:Hn. revert s Hn Hfree.
    induction n as [n IH] using (well_founded_induction lt_wf).
    intros s -> Hfree.
    rewrite (render_inline_marker true), (render_inline_marker false).
    rewrite (marker_at_link_free s Hfree).
    destruct (marker_at false s) as [m|] eqn:Hm; [|reflexivity].
    assert (Hrec : forall t, In t (marker_args m) ->
                     render_inline true t = render_inline false t).
    { intros t Ht.
      destruct (marker_args_shorter _ _ _ _ Hm Ht) as [Hsub Hlen].
      apply (IH (length t) Hlen t eq_refl).
      now apply (link_free_substring t s). }
    destruct m as [g1 g2 after|inner after|c after]; cbn [marker_args] in Hrec.
    - now rewrite (Hrec after) by (right; now left).
    - rewrite (Hrec inner) by now left.
      now rewrite (Hrec after) by (right; now left).
    - now rewrite (Hrec after) by now left. }
  split; [exact E|].
  rewrite E. apply only_strong_tags_no_anchor, render_inline_only_strong.
Qed.

Lemma render_inline_links_inert_witness :
  render_inline true (html "**a** <link:`b`= c")
  = render_inline false (html "**a** <link:`b`= c").
Proof.
  apply (render_inline_links_inert (html "**a** <link:`b`= c")).
  reflexivity.
Defined.

(** ** The target of a footer link *)

Section Targets.
Context {RT : Runtime}.

Lemma find_target_found (needle : str) (sections : list Sec) :
  find_target needle sections <> [] ->
  exists sec, In sec sections /\ label_matches needle sec = true
              /\ find_target needle sections = sec_id sec.
Proof.
  induction sections as [|s sections IH]; cbn [find_target]; intros H.
  - contradiction.
  - destruct (label_matches needle s) eqn:E.
    + exists s. repeat split; [now left|assumption].
    + destruct (IH H) as (sec & Hin & Hm & Ht).
      exists sec. repeat split; [now right|assumption|assumption].
Qed.

Lemma contains_refl (p : str) : contains p p = true.
Proof.
  unfold contains. destruct p as [|c p]; [reflexivity|].
  cbn [find].
  now rewrite <- (app_nil_r (c :: p)) at 2; rewrite startswith_app.
Qed.

Lemma accordion_item_panel (idx : nat) (sec : Sec) :
  contains (html "<div id=`" ++ sec_id sec ++ html "` class=`sec-panel")
    (accordion_item idx sec) = true.
Proof.
  unfold accordion_item. cbv zeta.
  repeat match goal with
         | |- contains _ (?a ++ _) = true =>
             lazymatch a with
             | html "<div id=`" => fail
             | _ => apply contains_app_r
             end
         end.
  match goal with
  | |- contains ?p (?a ++ ?b ++ ?c ++ ?rest) = true =>
      replace (a ++ b ++ c ++ rest) with (p ++ rest)
        by (now rewrite <- !app_assoc)
  end.
  apply contains_app_l, contains_refl.
Qed.

Lemma join_substring (sep part : str) (parts : list str) :
  In part parts -> substring part (join sep parts).
Proof.
  induction parts as [|p parts IH]; [contradiction|].
  intros [<-|Hin].
  - destruct parts as [|q parts].
    + exists [], []. cbn [join app]. now rewrite app_nil_r.
    + exists [], (sep ++ join sep (q :: parts)). reflexivity.
  - destruct parts as [|q parts]; [contradiction|].
    destruct (IH Hin) as (pre & post & E).
    exists (p ++ sep ++ pre), post.
    change (join sep (p :: q :: parts))
      with (p ++ sep ++ join sep (q :: parts)).
    rewrite E. now rewrite <- !app_assoc.
Qed.

Lemma accordion_items_from_in (sec : Sec) (sections : list Sec) :
  In sec sections ->
  forall idx0, exists idx,
    In (accordion_item idx sec) (accordion_items_from idx0 sections).
Proof.
  induction sections as [|s sections IH]; [contradiction|].
  intros [->|Hin] idx0; cbn [accordion_items_from].
  - exists idx0. now left.
  - destruct (IH Hin (S idx0)) as [idx H]. exists idx. now right.
Qed.

(** X18: a link of a footer never points nowhere.  When the search for a
    label gives a target, the target is the identifier of a section that
    passes the test of the label, and the accordion of the same page
    holds the panel with that identifier. *)
Theorem footer_target_has_panel (needle : str) (sections : list Sec) :
  find_target needle sections <> [] ->
  (exists sec, In sec sections /\ label_matches needle sec = true
               /\ find_target needle sections = sec_id sec)
  /\ contains (html "<div id=`" ++ find_target needle sections
               ++ html "` class=`sec-panel")
       (accordion_block sections) = true.
Proof.
  intros H. destruct (find_target_found needle sections H)
    as (sec & Hin & Hm & Ht).
  split; [now exists sec|].
  rewrite Ht.
  destruct (accordion_items_from_in sec sections Hin 0) as [idx Hitem].
  apply (contains_substring _ (accordion_item idx sec)).
  - unfold accordion_block, accordion_items. now apply join_substring.
  - apply accordion_item_panel.
Qed.

End Targets.

Lemma footer_target_has_panel_witness :
  contains (html "<div id=`sec-12` class=`sec-panel")
    (accordion_block demo_sections) = true.
Proof.
  apply (proj2 (footer_target_has_panel (RT := Latin.runtime)
                  (normalize_text (RT := Latin.runtime) (lit "educacion"))
                  demo_sections ltac:(vm_compute; discriminate))).
Defined.

(** ** Labels alike: accents, case and punctuation *)

Lemma in_range_false (lo hi c : N) :
  (c < lo \/ hi < c)%N -> in_range lo hi c = false.
Proof.
  intros H. unfold in_range. apply andb_false_iff.
  destruct H as [H|H]; [left|right]; apply N.leb_gt; exact H.
Qed.

Lemma latin_normalize_app (a b : str) :
  normalize_text (RT := Latin.runtime) (a ++ b)
  = normalize_text (RT := Latin.runtime) a
    ++ normalize_text (RT := Latin.runtime) b.
Proof.
  unfold normalize_text.
  cbn [unicode_nfd unicode_is_Mn unicode_lower Latin.runtime].
  now rewrite flat_map_app, filter_app, map_app, filter_app.
Qed.

Lemma latin_normalize_cons (c : char) (s : str) :
  normalize_text (RT := Latin.runtime) (c :: s)
  = normalize_text (RT := Latin.runtime) [c]
    ++ normalize_text (RT := Latin.runtime) s.
Proof. exact (latin_normalize_app [c] s). Qed.

(** A character outside the digits, the letters of Basic Latin and the
    range C0 to FF leaves nothing in the normalized text. *)
Lemma latin_dropped (c : char) :
  (c < 48 \/ (57 < c /\ c < 65) \/ (90 < c /\ c < 97)
   \/ (122 < c /\ c < 192) \/ 255 < c)%N ->
  normalize_text (RT := Latin.runtime) [c] = [].
Proof.
  intros H. unfold normalize_text.
  cbn [unicode_nfd unicode_is_Mn unicode_lower Latin.runtime flat_map].
  assert (E : Latin.nfd_char c = [c]).
  { unfold Latin.nfd_char.
    rewrite (in_range_false 192 222), (in_range_false 224 254) by lia.
    destruct (N.eqb_spec c 255); [lia|reflexivity]. }
  rewrite E. cbn [app filter].
  destruct (in_range 768 879 c); cbn [negb map filter]; [reflexivity|].
  assert (L : Latin.lower_char c = c).
  { unfold Latin.lower_char.
    now rewrite (in_range_false 65 90), (in_range_false 192 222) by lia. }
  rewrite L.
  assert (A : is_lower_alnum c = false).
  { unfold is_lower_alnum. apply orb_false_iff.
    split; apply (in_range_false _ _ c); lia. }
  now rewrite A.
Qed.

Lemma str_eqb_eq (a b : str) : str_eqb a b = true -> a = b.
Proof.
  revert b; induction a as [|x a IH]; intros [|y b]; cbn [str_eqb];
    try discriminate; [reflexivity|].
  intros H. apply andb_true_iff in H as [Hx H].
  apply N.eqb_eq in Hx. subst y. f_equal. now apply IH.
Qed.

Lemma below_256 (P : N -> bool) :
  forallb P (map N.of_nat (seq 0 256)) = true ->
  forall c, (c < 256)%N -> P c = true.
Proof.
  intros H c Hc. rewrite forallb_forall in H. apply H.
  rewrite <- (N2Nat.id c). apply in_map. apply in_seq. lia.
Qed.

Lemma latin_case (c : char) :
  in_range 65 90 c = true ->
  normalize_text (RT := Latin.runtime) [c]
  = normalize_text (RT := Latin.runtime) [(c + 32)%N].
Proof.
  intros H.
  assert (Hc : (c < 256)%N).
  { unfold in_range in H. apply andb_true_iff in H as [_ H].
    apply N.leb_le in H. lia. }
  pose proof (below_256
    (fun c => negb (in_range 65 90 c)
              || str_eqb (normalize_text (RT := Latin.runtime) [c])
                   (normalize_text (RT := Latin.runtime) [(c + 32)%N]))
    ltac:(vm_compute; reflexivity) c Hc) as K.
  cbv beta in K. rewrite H in K. now apply str_eqb_eq.
Qed.

Lemma latin_accent (c base mark : char) :
  Latin.nfd_char c = [base; mark] ->
  normalize_text (RT := Latin.runtime) [c]
  = normalize_text (RT := Latin.runtime) [base].
Proof.
  intros H.
  assert (Hc : (c < 256)%N).
  { destruct (N.ltb_spec c 256) as [Hlt|Hge]; [exact Hlt|].
    unfold Latin.nfd_char in H.
    rewrite (in_range_false 192 222), (in_range_false 224 254) in H by lia.
    destruct (N.eqb_spec c 255); [lia|discriminate]. }
  pose proof (below_256
    (fun c => match Latin.nfd_char c with
              | [b; _] =>
                  str_eqb (normalize_text (RT := Latin.runtime) [c])
                    (normalize_text (RT := Latin.runtime) [b])
              | _ => true
              end)
    ltac:(vm_compute; reflexivity) c Hc) as K.
  cbv beta in K. rewrite H in K. now apply str_eqb_eq.
Qed.

Lemma latin_mark (m : char) :
  in_range 768 879 m = true ->
  normalize_text (RT := Latin.runtime) [m] = [].
Proof.
  intros H. apply latin_dropped.
  unfold in_range in H. apply andb_true_iff in H as [H _].
  apply N.leb_le in H. lia.
Qed.

Lemma latin_punctuation (c : char) :
  is_punctuation c = true ->
  normalize_text (RT := Latin.runtime) [c] = [].
Proof.
  intros H. apply latin_dropped. unfold is_punctuation, in_range in H.
  repeat match goal with
         | H : (_ || _) = true |- _ =>
             apply orb_true_iff in H; destruct H as [H|H]
         | H : (_ && _) = true |- _ =>
             let H' := fresh in apply andb_true_iff in H as [H H']
         | H : (_ <=? _)%N = true |- _ => apply N.leb_le in H
         | H : (_ =? _)%N = true |- _ => apply N.eqb_eq in H
         end; lia.
Qed.

Lemma latin_spaces (w : str) :
  forallb is_space w = true ->
  normalize_text (RT := Latin.runtime) w = [].
Proof.
  induction w as [|c w IH]; [reflexivity|].
  cbn [forallb]. intros H. apply andb_true_iff in H as [Hc H].
  rewrite latin_normalize_cons, (IH H), app_nil_r.
  apply latin_dropped. unfold is_space in Hc.
  repeat match goal with
         | H : (_ || _) = true |- _ =>
             apply orb_true_iff in H; destruct H as [H|H]
         | H : (_ && _) = true |- _ =>
             let H' := fresh in apply andb_true_iff in H as [H H']
         | H : (_ <=? _)%N = true |- _ => apply N.leb_le in H
         | H : (_ =? _)%N = true |- _ => apply N.eqb_eq in H
         end; lia.
Qed.

Lemma latin_strip (s : str) :
  normalize_text (RT := Latin.runtime) (strip s)
  = normalize_text (RT := Latin.runtime) s.
Proof.
  destruct (lstrip_split s) as (w1 & E1 & H1).
  destruct (rstrip_split (lstrip s)) as (w2 & E2 & H2).
  pose proof E1 as E. rewrite E2 in E.
  set (n := normalize_text (RT := Latin.runtime) (strip s)).
  rewrite E. subst n.
  rewrite !latin_normalize_app, (latin_spaces w1 H1), (latin_spaces w2 H2).
  now rewrite app_nil_r.
Qed.

Lemma alike_normalize (a b : str) :
  alike a b ->
  normalize_text (RT := Latin.runtime) a
  = normalize_text (RT := Latin.runtime) b.
Proof.
  induction 1 as [|c a b _ IH|c a b Hc _ IH|c base mark a b Hd _ IH
                  |m a b Hm _ IH|c a b Hp _ IH|a b _ IH
                  |a b c _ IH1 _ IH2].
  - reflexivity.
  - now rewrite (latin_normalize_cons c a), (latin_normalize_cons c b), IH.
  - rewrite (latin_normalize_cons c a), (latin_normalize_cons _ b), IH.
    now rewrite (latin_case c Hc).
  - rewrite (latin_normalize_cons c a), (latin_normalize_cons base b), IH.
    now rewrite (latin_accent c base mark Hd).
  - now rewrite (latin_normalize_cons m a), (latin_mark m Hm), IH.
  - now rewrite (latin_normalize_cons c a), (latin_punctuation c Hp), IH.
  - now symmetry.
  - now transitivity (normalize_text (RT := Latin.runtime) b).
Qed.

Section FooterLabels.
Context {RT : Runtime}.


End FooterLabels.

